(** * The OpenAI-compatible chat message converter and the [embed] call

    A shallow embedding of
    - [packages/openai-compatible/src/convert-to-openai-compatible-chat-messages.ts]
      ([findAndHoistMetadata], [convertToOpenAICompatibleChatMessages]): module
      [Hoisting];
    - the variant of the same converter that reads the metadata with
      [getOpenAIMetadata] and leaves the prompt alone: module [Reading];
    - the second copy of the hoisting converter, which does not log: module
      [HoistingCopy];
    - [embed] with its [DefaultEmbedResult]: module [Embed].

    JavaScript values are modelled as trees: an object is the list of its own
    enumerable properties in insertion order (JavaScript lists integer-like
    keys first; the model does not reorder them), an array the list of its
    items.  Numbers are integers, printed in decimal; strings are sequences
    of one-byte characters.  The [console.log] calls of the converter are
    not modelled.

    [findAndHoistMetadata] updates the objects of the prompt in place.
    Module [Store] has the prompt in memory: a store of objects in which two
    properties can hold the same object, and the hoisting as the sequence of
    writes of the source.  Module [Hoisting] has the same code on trees, an
    update in place being the updated tree: this is what [Store] gives on a
    prompt in which every object is reached by one path only
    ([StoreFacts.convert_returns_in_place]), and not on a prompt in which
    two parts hold one [providerMetadata] object.

    The definitions come first, module by module; the theorems follow in
    [HoistingFacts], [ReadingFacts] and [EmbedFacts], on how the converters
    compare and on what the code does at its edges in [CopyFacts],
    [HoistingLaws], [CopyAgreement], [VariantFacts] and [EmbedLaws], and on
    the prompt in memory in [StoreFacts] and [InPlace]. *)

From Stdlib Require Import String Ascii List ZArith NArith Lia Bool Arith.
From Stdlib Require Import DecimalString.
From Stdlib.Strings Require Import Byte.
Import ListNotations.
Local Open Scope list_scope.
Local Open Scope string_scope.

(** ** Outcomes of a call *)

Inductive exn : Type :=
| TypeError
| UnsupportedFunctionalityError (functionality : string)
| Error (message : string).

Inductive outcome (A : Type) : Type :=
| Returns (a : A)
| Throws (e : exn)
| OutOfFuel.

Arguments Returns {A} a.
Arguments Throws {A} e.
Arguments OutOfFuel {A}.

Definition bind {A B : Type} (c : outcome A) (k : A -> outcome B) : outcome B :=
  match c with
  | Returns a => k a
  | Throws e => Throws e
  | OutOfFuel => OutOfFuel
  end.

Declare Scope outcome_scope.
Delimit Scope outcome_scope with outcome.
Notation "'do' x <- c ; k" := (bind c (fun x => k))
  (at level 10, x name, c at level 100, k at level 200)
  : outcome_scope.
Local Open Scope outcome_scope.

(** [xs.map(f)] / [for (const x of xs)] with a body that may throw: items are
    visited in order and the first exception ends the loop. *)
Fixpoint mapM {A B : Type} (f : A -> outcome B) (xs : list A) : outcome (list B) :=
  match xs with
  | [] => Returns []
  | x :: rest =>
      do y <- f x;
      do ys <- mapM f rest;
      Returns (y :: ys)
  end.

(** ** JavaScript values *)

Module JS.

#[warnings="-register-all"]
Inductive value : Type :=
| VUndef
| VNull
| VBool (b : bool)
| VNum (n : Z)
| VStr (s : string)
| VArr (items : list value)
| VObj (props : list (string * value))
| VUrl (href : string)
| VBytes (bytes : list byte).

Definition props := list (string * value).

(** *** Text helpers *)

Definition string_of_Z (n : Z) : string := NilZero.string_of_int (Z.to_int n).
Definition string_of_nat (n : nat) : string := string_of_Z (Z.of_nat n).

Fixpoint join (sep : string) (xs : list string) : string :=
  match xs with
  | [] => ""
  | [x] => x
  | x :: rest => x ++ sep ++ join sep rest
  end.

Fixpoint chars (s : string) : list string :=
  match s with
  | EmptyString => []
  | String c rest => String c EmptyString :: chars rest
  end.

Definition byte_num (b : byte) : Z := Z.of_N (Byte.to_N b).

(** Index keys ["0"], ["1"], ... paired with the items. *)
Fixpoint indexed_from (i : nat) (xs : list value) : props :=
  match xs with
  | [] => []
  | x :: rest => (string_of_nat i, x) :: indexed_from (S i) rest
  end.

Definition indexed (xs : list value) : props := indexed_from 0 xs.

Definition is_digit (c : ascii) : bool :=
  Nat.leb 48 (nat_of_ascii c) && Nat.leb (nat_of_ascii c) 57.

(** An index key starts with a digit; the names the converter reads do not. *)
Definition starts_with_digit (k : string) : bool :=
  match k with
  | String c _ => is_digit c
  | EmptyString => false
  end.

(** *** Properties *)

(** The own enumerable string-keyed properties of a value, as [Object.keys],
    [Object.values], [Object.assign] and object spread see them. *)
Definition own_props (v : value) : props :=
  match v with
  | VObj ps => ps
  | VArr xs => indexed xs
  | VStr s => indexed (map VStr (chars s))
  | VBytes bs => indexed (map (fun b => VNum (byte_num b)) bs)
  | _ => []
  end.

Fixpoint lookup (k : string) (ps : props) : option value :=
  match ps with
  | [] => None
  | (k', v) :: rest => if String.eqb k k' then Some v else lookup k rest
  end.

Definition get (ps : props) (k : string) : value :=
  match lookup k ps with
  | Some v => v
  | None => VUndef
  end.

(** [v.k] and [v?.k] on a value that is neither [null] nor [undefined]
    ([v?.k] on those two is [undefined], which [member] gives as well since
    they have no properties).  [length] is the one inherited property the
    converter reads; its other reads name data fields. *)
Definition member (v : value) (k : string) : value :=
  match lookup k (own_props v) with
  | Some x => x
  | None =>
      if String.eqb k "length" then
        match v with
        | VArr xs => VNum (Z.of_nat (List.length xs))
        | VStr s => VNum (Z.of_nat (String.length s))
        | VBytes bs => VNum (Z.of_nat (List.length bs))
        | _ => VUndef
        end
      else VUndef
  end.

Definition nullish (v : value) : bool :=
  match v with
  | VUndef | VNull => true
  | _ => false
  end.

(** [v.k] as an expression: reading a property of [null] or [undefined]
    throws. *)
Definition read (v : value) (k : string) : outcome value :=
  if nullish v then Throws TypeError else Returns (member v k).

(** [obj[k] = v]: an existing key keeps its place. *)
Fixpoint set (ps : props) (k : string) (v : value) : props :=
  match ps with
  | [] => [(k, v)]
  | (k', v') :: rest =>
      if String.eqb k k' then (k, v) :: rest else (k', v') :: set rest k v
  end.

(** [delete obj[k]]. *)
Definition delete (k : string) (ps : props) : props :=
  filter (fun kv => negb (String.eqb k (fst kv))) ps.

(** [Object.assign(target, source)], and [{ ...target, ...source }]. *)
Definition assign (target source : props) : props :=
  fold_left (fun acc kv => set acc (fst kv) (snd kv)) source target.

(** An object literal [{ k1: v1, ..., ...spread }] is built left to right. *)
Definition literal (fields : props) : props := assign [] fields.

(** [const { k1, ..., kn, ...rest } = v]: the properties left over. *)
Definition rest_props (taken : list string) (ps : props) : props :=
  filter (fun kv => negb (existsb (String.eqb (fst kv)) taken)) ps.

(** Destructuring [null] or [undefined] throws. *)
Definition destructure (v : value) : outcome props :=
  if nullish v then Throws TypeError else Returns (own_props v).

Definition truthy (v : value) : bool :=
  match v with
  | VUndef | VNull => false
  | VBool b => b
  | VNum n => negb (Z.eqb n 0)
  | VStr s => negb (String.eqb s "")
  | _ => true
  end.

(** [a ?? b]. *)
Definition nullish_or (a b : value) : value := if nullish a then b else a.

(** *** [String(v)], as template literals and [+=] on a string apply it *)

Fixpoint to_string (v : value) : string :=
  match v with
  | VUndef => "undefined"
  | VNull => "null"
  | VBool true => "true"
  | VBool false => "false"
  | VNum n => string_of_Z n
  | VStr s => s
  | VArr xs =>
      join "," (map (fun x => if nullish x then "" else to_string x) xs)
  | VObj _ => "[object Object]"
  | VUrl h => h
  | VBytes bs => join "," (map (fun b => string_of_Z (byte_num b)) bs)
  end.

(** *** [JSON.stringify] *)

Definition hex_digit (n : N) : ascii :=
  match n with
  | 0 => "0" | 1 => "1" | 2 => "2" | 3 => "3" | 4 => "4" | 5 => "5"
  | 6 => "6" | 7 => "7" | 8 => "8" | 9 => "9" | 10 => "a" | 11 => "b"
  | 12 => "c" | 13 => "d" | 14 => "e" | _ => "f"
  end%N%char.

Definition escape_char (c : ascii) : string :=
  let n := N_of_ascii c in
  if (n =? 34)%N then String "\" (String c EmptyString)
  else if (n =? 92)%N then "\\"
  else if (n =? 8)%N then "\b"
  else if (n =? 9)%N then "\t"
  else if (n =? 10)%N then "\n"
  else if (n =? 12)%N then "\f"
  else if (n =? 13)%N then "\r"
  else if (n <? 32)%N then
    "\u00" ++ String (hex_digit (n / 16)) (String (hex_digit (n mod 16)) EmptyString)
  else String c EmptyString.

Fixpoint escape (s : string) : string :=
  match s with
  | EmptyString => ""
  | String c rest => escape_char c ++ escape rest
  end.

Definition dquote : string := String (ascii_of_N 34) EmptyString.

Definition quote (s : string) : string := dquote ++ escape s ++ dquote.

(** [None] stands for the [undefined] that [JSON.stringify] returns for
    [undefined]; inside an array it prints as [null], inside an object the
    property is left out.  A [URL] prints through its [toJSON]. *)
Fixpoint stringify (v : value) : option string :=
  match v with
  | VUndef => None
  | VNull => Some "null"
  | VBool true => Some "true"
  | VBool false => Some "false"
  | VNum n => Some (string_of_Z n)
  | VStr s => Some (quote s)
  | VArr xs =>
      Some ("[" ++ join ","
              (map (fun x => match stringify x with
                             | Some s => s
                             | None => "null"
                             end) xs) ++ "]")
  | VObj ps =>
      Some ("{" ++ join ","
              (flat_map (fun kv => match stringify (snd kv) with
                                   | Some s => [quote (fst kv) ++ ":" ++ s]
                                   | None => []
                                   end) ps) ++ "}")
  | VUrl h => Some (quote h)
  | VBytes bs =>
      Some ("{" ++ join ","
              (map (fun kv => quote (fst kv) ++ ":" ++ to_string (snd kv))
                 (indexed (map (fun b => VNum (byte_num b)) bs))) ++ "}")
  end.

Definition JSON_stringify (v : value) : value :=
  match stringify v with
  | Some s => VStr s
  | None => VUndef
  end.

End JS.

(** ** Base64 *)

Module Base64.

Definition alphabet : list ascii :=
  list_ascii_of_string
    "ABCDEFGHIJKLMNOPQRSTUVWXYZabcdefghijklmnopqrstuvwxyz0123456789+/".

Definition digit (n : N) : string :=
  String (nth (N.to_nat n) alphabet "="%char) EmptyString.

Fixpoint encode (bs : list N) : string :=
  match bs with
  | [] => EmptyString
  | [a] => digit (a / 4) ++ digit ((a mod 4) * 16) ++ "=="
  | [a; b] =>
      digit (a / 4) ++ digit ((a mod 4) * 16 + b / 16)
        ++ digit ((b mod 16) * 4) ++ "="
  | a :: b :: c :: rest =>
      digit (a / 4) ++ digit ((a mod 4) * 16 + b / 16)
        ++ digit ((b mod 16) * 4 + c / 64) ++ digit (c mod 64)
        ++ encode rest
  end%N.

End Base64.

(** Modelled from the spec: [convertUint8ArrayToBase64] of
    [@ai-sdk/provider-utils] is not among the sources.  The spec asks for the
    base64 text of the raw bytes; this is the standard alphabet with [=]
    padding.  The helper is typed for a [Uint8Array]; on any other value the
    model raises. *)
Definition convertUint8ArrayToBase64 (image : JS.value) : outcome string :=
  match image with
  | JS.VBytes bs => Returns (Base64.encode (map Byte.to_N bs))
  | _ => Throws TypeError
  end.

(** ** The converter that hoists the metadata
    ([convert-to-openai-compatible-chat-messages.ts])

    Line numbers are those of the named file.  The sources hold a second
    copy of this converter without the logging; it walks the prompt with
    [prompt.map] and copies a text part with a spread of the whole part,
    which gives the same objects up to the order of their keys. *)

Module Hoisting.
Import JS.

(** Lines 10-16 of [findAndHoistMetadata]: the writes to [obj] itself.  The
    result is [obj] as these lines leave it. *)
Definition hoist_here (obj : value) : outcome value :=
  let bag := member (member obj "providerMetadata") "openaiCompatible" in
  if truthy bag then
    match obj with
    | VObj ps =>
        (* Object.assign(obj, obj.providerMetadata.openaiCompatible) *)
        let ps1 := assign ps (own_props bag) in
        (* delete obj.providerMetadata.openaiCompatible, then
           delete obj.providerMetadata when it has no key left *)
        match get ps1 "providerMetadata" with
        | VUndef | VNull => Throws TypeError
        | VObj pm =>
            let pm' := delete "openaiCompatible" pm in
            match pm' with
            | [] => Returns (VObj (delete "providerMetadata" ps1))
            | _ :: _ => Returns (VObj (set ps1 "providerMetadata" (VObj pm')))
            end
        | other =>
            match own_props other with
            | [] => Returns (VObj (delete "providerMetadata" ps1))
            | _ :: _ => Returns (VObj ps1)
            end
        end
    | _ => Returns obj (* only an object has a [providerMetadata] *)
    end
  else Returns obj.

(** [findAndHoistMetadata], with the recursion bounded by [fuel]: the result
    is [obj] as the call leaves it. *)
Fixpoint hoist (fuel : nat) (obj : value) : outcome value :=
  match fuel with
  | O => OutOfFuel
  | S fuel' =>
      do obj1 <- hoist_here obj;
      match obj1 with
      | VArr items =>
          do items' <- mapM (hoist fuel') items;
          Returns (VArr items')
      | VObj ps =>
          do ps' <- mapM (fun kv => do v <- hoist fuel' (snd kv);
                                    Returns (fst kv, v)) ps;
          Returns (VObj ps')
      | _ => Returns obj1
      end
  end.

Fixpoint depth (v : value) : nat :=
  match v with
  | VArr items => S (list_max (map depth items))
  | VObj ps => S (list_max (map (fun kv => depth (snd kv)) ps))
  | _ => 0
  end.

(** The fuel is enough for the recursion to end
    ([HoistingFacts.hoist_enough_fuel]): a call goes one level down, and the
    writes of [hoist_here] do not make an object deeper. *)
Definition findAndHoistMetadata (obj : value) : outcome value :=
  hoist (S (depth obj)) obj.

(** Lines 32-34: the caller's prompt after the hoisting loop. *)
Definition hoistPrompt (prompt : list value) : outcome (list value) :=
  mapM findAndHoistMetadata prompt.

Definition unsupportedFile : exn :=
  UnsupportedFunctionalityError "File content parts in user messages".

(** The callback of [content.map] in the user case (lines 59-88). *)
Definition convertUserPart (part : value) : outcome value :=
  do ps <- destructure part;
  match get ps "type" with
  | VStr "text" =>
      Returns (VObj (assign [("type", get ps "type"); ("text", get ps "text")]
                       (rest_props ["type"; "text"] ps)))
  | VStr "image" =>
      let image := get ps "image" in
      let mimeType := get ps "mimeType" in
      let imageRest := rest_props ["type"; "image"; "mimeType"] ps in
      do url <- match image with
                | VUrl href => Returns href
                | _ =>
                    do data <- convertUint8ArrayToBase64 image;
                    Returns ("data:"
                               ++ to_string (nullish_or mimeType (VStr "image/jpeg"))
                               ++ ";base64," ++ data)
                end;
      Returns (VObj (assign [("type", VStr "image_url");
                             ("image_url", VObj [("url", VStr url)])]
                       imageRest))
  | VStr "file" => Throws unsupportedFile
  | _ => Returns VUndef
  end.

(** [content.map(f)]. *)
Definition array_map (f : value -> outcome value) (content : value) : outcome value :=
  match content with
  | VArr items => do items' <- mapM f items; Returns (VArr items')
  | VBytes bs =>
      (* a typed array converts what the callback returns to a byte *)
      do _ <- mapM (fun b => f (VNum (byte_num b))) bs;
      Returns (VBytes (map (fun _ => x00) bs))
  | _ => Throws TypeError
  end.

(** [for (const x of content)]: the items the loop visits. *)
Definition iterate (content : value) : outcome (list value) :=
  match content with
  | VArr items => Returns items
  | VStr s => Returns (map VStr (chars s))
  | VBytes bs => Returns (map (fun b => VNum (byte_num b)) bs)
  | _ => Throws TypeError
  end.

(** One turn of the loop over an assistant message's parts (lines 103-129),
    on the accumulators [text] and [toolCalls]. *)
Definition convertAssistantPart (acc : string * list value) (part : value)
  : outcome (string * list value) :=
  let (text, toolCalls) := acc in
  do type <- read part "type";
  match type with
  | VStr "text" => Returns (text ++ to_string (member part "text"), toolCalls)
  | VStr "tool-call" =>
      let ps := own_props part in
      let toolCallRest :=
        rest_props ["type"; "toolCallId"; "toolName"; "args"] ps in
      Returns (text,
               (toolCalls ++
                  [VObj (assign
                           [("id", get ps "toolCallId");
                            ("type", VStr "function");
                            ("function",
                             VObj [("name", get ps "toolName");
                                   ("arguments", JSON_stringify (get ps "args"))])]
                           toolCallRest)])%list)
  | _ => Throws (Error ("Unsupported part: " ++ to_string part))
  end.

Fixpoint foldM {A B : Type} (f : A -> B -> outcome A) (acc : A) (xs : list B)
  : outcome A :=
  match xs with
  | [] => Returns acc
  | x :: rest => do acc' <- f acc x; foldM f acc' rest
  end.

(** One turn of the loop over a tool message's parts (lines 142-151). *)
Definition convertToolResponse (rest : props) (toolResponse : value) : outcome value :=
  do ps <- destructure toolResponse;
  let toolResponseRest :=
    rest_props ["type"; "content"; "toolCallId"; "toolName"; "result"] ps in
  Returns (VObj (assign
                   (assign [("role", VStr "tool");
                            ("tool_call_id", get ps "toolCallId");
                            ("content", JSON_stringify (get ps "result"))]
                      toolResponseRest)
                   rest)).

(** The test [content.length === 1 && content[0].type === 'text'] of the user
    case (line 50). *)
Definition isSingleTextPart (content : value) : outcome bool :=
  do len <- read content "length";
  match len with
  | VNum 1 =>
      do type <- read (member content "0") "type";
      match type with
      | VStr "text" => Returns true
      | _ => Returns false
      end
  | _ => Returns false
  end.

(** The body of the loop over the prompt (lines 37-160): the wire messages
    pushed for one message. *)
Definition convertMessage (message : value) : outcome (list value) :=
  do ps <- destructure message;
  let role := get ps "role" in
  let content := get ps "content" in
  let rest := rest_props ["role"; "content"] ps in
  match role with
  | VStr "system" =>
      Returns [VObj (assign [("role", VStr "system"); ("content", content)] rest)]
  | VStr "user" =>
      do single <- isSingleTextPart content;
      if single then
        let part := own_props (member content "0") in
        let contentRest := rest_props ["text"; "type"] part in
        Returns [VObj (assign
                         (assign [("role", VStr "user"); ("content", get part "text")]
                            rest)
                         contentRest)]
      else
        do parts <- array_map convertUserPart content;
        Returns [VObj (assign [("role", VStr "user"); ("content", parts)] rest)]
  | VStr "assistant" =>
      do parts <- iterate content;
      do acc <- foldM convertAssistantPart (EmptyString, []) parts;
      let (text, toolCalls) := acc in
      Returns [VObj (assign
                       [("role", VStr "assistant");
                        ("content", VStr text);
                        ("tool_calls",
                         match toolCalls with
                         | [] => VUndef
                         | _ :: _ => VArr toolCalls
                         end)]
                       rest)]
  | VStr "tool" =>
      do parts <- iterate content;
      mapM (convertToolResponse rest) parts
  | _ => Throws (Error ("Unsupported role: " ++ to_string role))
  end.

(** Lines 37-162 on the hoisted prompt. *)
Definition convertMessages (prompt : list value) : outcome (list value) :=
  do pushed <- mapM convertMessage prompt;
  Returns (concat pushed).

(** The call: the prompt is hoisted in place, then read. *)
Definition convertToOpenAICompatibleChatMessages (prompt : list value)
  : outcome (list value) :=
  do hoisted <- hoistPrompt prompt;
  convertMessages hoisted.

(** A value in which no object carries a truthy
    [providerMetadata.openaiCompatible]: the hoisting finds nothing in it. *)
Fixpoint hoist_free (v : value) : bool :=
  match v with
  | VObj ps =>
      negb (truthy (member (get ps "providerMetadata") "openaiCompatible"))
      && forallb (fun kv => hoist_free (snd kv)) ps
  | VArr items => forallb hoist_free items
  | _ => true
  end.

(** [r] is [v] after [findAndHoistMetadata v], whatever the fuel. *)
Definition hoists_to (v r : value) : Prop :=
  forall fuel, hoist fuel v = OutOfFuel \/ hoist fuel v = Returns r.

(** Two properties of the same key, the second holding the first's value as
    the hoisting leaves it. *)
Definition same_keys_hoisted (kv kv' : string * value) : Prop :=
  fst kv = fst kv' /\ hoists_to (snd kv) (snd kv').

(** Every property value is at most [m] deep. *)
Definition within (m : nat) (ps : props) : Prop :=
  Forall (fun kv => depth (snd kv) <= m) ps.

End Hoisting.

(** ** The converter that reads the metadata ([getOpenAIMetadata])

    The same function in the variant that leaves the prompt alone: the
    overlay is looked up where it is needed and spread into the wire object.
    Nothing is written to the prompt, so the model is a function of the
    prompt only. *)

Module Reading.
Import JS.

(** [message?.providerMetadata?.openaiCompatible ?? {}] *)
Definition getOpenAIMetadata (message : value) : value :=
  nullish_or (member (member message "providerMetadata") "openaiCompatible")
    (VObj []).

Definition convertUserPart (part : value) : outcome value :=
  let partMetadata := own_props (getOpenAIMetadata part) in
  do type <- read part "type";
  match type with
  | VStr "text" =>
      Returns (VObj (assign [("type", VStr "text"); ("text", member part "text")]
                       partMetadata))
  | VStr "image" =>
      let image := member part "image" in
      let mimeType := member part "mimeType" in
      do url <- match image with
                | VUrl href => Returns href
                | _ =>
                    do data <- convertUint8ArrayToBase64 image;
                    Returns ("data:"
                               ++ to_string (nullish_or mimeType (VStr "image/jpeg"))
                               ++ ";base64," ++ data)
                end;
      Returns (VObj (assign [("type", VStr "image_url");
                             ("image_url", VObj [("url", VStr url)])]
                       partMetadata))
  | VStr "file" => Throws Hoisting.unsupportedFile
  | _ => Returns VUndef
  end.

Definition convertAssistantPart (acc : string * list value) (part : value)
  : outcome (string * list value) :=
  let (text, toolCalls) := acc in
  let partMetadata := own_props (getOpenAIMetadata part) in
  do type <- read part "type";
  match type with
  | VStr "text" => Returns (text ++ to_string (member part "text"), toolCalls)
  | VStr "tool-call" =>
      Returns (text,
               (toolCalls ++
                  [VObj (assign
                           [("id", member part "toolCallId");
                            ("type", VStr "function");
                            ("function",
                             VObj [("name", member part "toolName");
                                   ("arguments",
                                    JSON_stringify (member part "args"))])]
                           partMetadata)])%list)
  | _ => Throws (Error ("Unsupported part: " ++ to_string part))
  end.

Definition convertToolResponse (toolResponse : value) : outcome value :=
  do ps <- destructure toolResponse;
  let toolResponseMetadata := own_props (getOpenAIMetadata toolResponse) in
  Returns (VObj (assign [("role", VStr "tool");
                         ("tool_call_id", get ps "toolCallId");
                         ("content", JSON_stringify (get ps "result"))]
                   toolResponseMetadata)).

Definition convertMessage (message : value) : outcome (list value) :=
  let metadata := own_props (getOpenAIMetadata message) in
  do ps <- destructure message;
  let role := get ps "role" in
  let content := get ps "content" in
  match role with
  | VStr "system" =>
      Returns [VObj (assign [("role", VStr "system"); ("content", content)]
                       metadata)]
  | VStr "user" =>
      do single <- Hoisting.isSingleTextPart content;
      if single then
        let part := member content "0" in
        Returns [VObj (assign [("role", VStr "user"); ("content", member part "text")]
                         (own_props (getOpenAIMetadata part)))]
      else
        do parts <- Hoisting.array_map convertUserPart content;
        Returns [VObj (assign [("role", VStr "user"); ("content", parts)] metadata)]
  | VStr "assistant" =>
      do parts <- Hoisting.iterate content;
      do acc <- Hoisting.foldM convertAssistantPart (EmptyString, []) parts;
      let (text, toolCalls) := acc in
      Returns [VObj (assign
                       [("role", VStr "assistant");
                        ("content", VStr text);
                        ("tool_calls",
                         match toolCalls with
                         | [] => VUndef
                         | _ :: _ => VArr toolCalls
                         end)]
                       metadata)]
  | VStr "tool" =>
      do parts <- Hoisting.iterate content;
      mapM convertToolResponse parts
  | _ => Throws (Error ("Unsupported role: " ++ to_string role))
  end.

Definition convertToOpenAICompatibleChatMessages (prompt : list value)
  : outcome (list value) :=
  do pushed <- mapM convertMessage prompt;
  Returns (concat pushed).

End Reading.

(** ** The copy of the hoisting converter that does not log

    The sources hold a second copy of [findAndHoistMetadata] and of the
    converter that hoists.  [findAndHoistMetadata] is the same text.  The
    converter hoists with [prompt.map], does not log, and its callback for
    the parts of a user message dispatches on [part.type] and copies a text
    part whole, [{ ...part }]; the system, assistant and tool cases and the
    test for a single text part are the same text as in the named file. *)

Module HoistingCopy.
Import JS.

(** [prompt.map(message => findAndHoistMetadata(message))]: the caller's
    prompt after it (the array that [map] builds is dropped). *)
Definition hoistPrompt (prompt : list value) : outcome (list value) :=
  mapM Hoisting.findAndHoistMetadata prompt.

(** The callback of [content.map] in the user case. *)
Definition convertUserPart (part : value) : outcome value :=
  do type <- read part "type";
  match type with
  | VStr "text" => Returns (VObj (literal (own_props part)))
  | VStr "image" =>
      let ps := own_props part in
      let image := get ps "image" in
      let mimeType := get ps "mimeType" in
      let imageRest := rest_props ["type"; "image"; "mimeType"] ps in
      do url <- match image with
                | VUrl href => Returns href
                | _ =>
                    do data <- convertUint8ArrayToBase64 image;
                    Returns ("data:"
                               ++ to_string (nullish_or mimeType (VStr "image/jpeg"))
                               ++ ";base64," ++ data)
                end;
      Returns (VObj (assign [("type", VStr "image_url");
                             ("image_url", VObj [("url", VStr url)])]
                       imageRest))
  | VStr "file" => Throws Hoisting.unsupportedFile
  | _ => Returns VUndef
  end.

(** The body of the loop over the prompt: the wire messages pushed for one
    message. *)
Definition convertMessage (message : value) : outcome (list value) :=
  do ps <- destructure message;
  let role := get ps "role" in
  let content := get ps "content" in
  let rest := rest_props ["role"; "content"] ps in
  match role with
  | VStr "system" =>
      Returns [VObj (assign [("role", VStr "system"); ("content", content)] rest)]
  | VStr "user" =>
      do single <- Hoisting.isSingleTextPart content;
      if single then
        let part := own_props (member content "0") in
        let contentRest := rest_props ["text"; "type"] part in
        Returns [VObj (assign
                         (assign [("role", VStr "user"); ("content", get part "text")]
                            rest)
                         contentRest)]
      else
        do parts <- Hoisting.array_map convertUserPart content;
        Returns [VObj (assign [("role", VStr "user"); ("content", parts)] rest)]
  | VStr "assistant" =>
      do parts <- Hoisting.iterate content;
      do acc <- Hoisting.foldM Hoisting.convertAssistantPart (EmptyString, []) parts;
      let (text, toolCalls) := acc in
      Returns [VObj (assign
                       [("role", VStr "assistant");
                        ("content", VStr text);
                        ("tool_calls",
                         match toolCalls with
                         | [] => VUndef
                         | _ :: _ => VArr toolCalls
                         end)]
                       rest)]
  | VStr "tool" =>
      do parts <- Hoisting.iterate content;
      mapM (Hoisting.convertToolResponse rest) parts
  | _ => Throws (Error ("Unsupported role: " ++ to_string role))
  end.

Definition convertToOpenAICompatibleChatMessages (prompt : list value)
  : outcome (list value) :=
  do hoisted <- hoistPrompt prompt;
  do pushed <- mapM convertMessage hoisted;
  Returns (concat pushed).

End HoistingCopy.
(** ** The prompt types

    The prompt types ([LanguageModelV1Prompt] and its parts, of
    [@ai-sdk/provider]) are not among the sources; they are taken from
    section 3 of the spec, with the field names the converter reads. *)

Module Prompt.
Import JS Hoisting.

(** Modelled from the spec: the type of [providerMetadata] is not among the
    sources.  Section 3: every message and part may carry a ProviderMetadata
    overlay, a map from provider namespace to a key/value bag. *)
Definition metadata := list (string * props).

(** Modelled from the spec: the type of an image is not among the sources.
    Section 4.1: an image is supplied by reference, as a URL, or as raw
    bytes. *)
Inductive imageData : Type :=
| ImageUrl (href : string)
| ImageBytes (data : list byte).

(** Modelled from the spec: the part types of a user message are not among
    the sources.  Section 3: its content is a sequence of text, image and
    file parts. *)
Inductive userPart : Type :=
| TextPart (text : string) (providerMetadata : option metadata)
| ImagePart (image : imageData) (mimeType : option string)
    (providerMetadata : option metadata)
| FilePart (data : string) (mimeType : string)
    (providerMetadata : option metadata).

(** Modelled from the spec: the part types of an assistant message are not
    among the sources.  Section 3: its content is a sequence of text and
    tool-call parts. *)
Inductive assistantPart : Type :=
| AssistantText (text : string) (providerMetadata : option metadata)
| ToolCallPart (toolCallId toolName : string) (args : value)
    (providerMetadata : option metadata).

(** Modelled from the spec: the part type of a tool message is not among the
    sources.  Section 3: its content is a sequence of tool-result parts,
    each with a tool-call identifier and an arbitrary result value. *)
Inductive toolResultPart : Type :=
| ToolResultPart (toolCallId toolName : string) (result : value)
    (providerMetadata : option metadata).

(** Modelled from the spec: the message type is not among the sources.
    Section 3: a message has one of four roles and the content of its role;
    the content of a system message is a string. *)
Inductive message : Type :=
| System (content : string) (providerMetadata : option metadata)
| User (content : list userPart) (providerMetadata : option metadata)
| Assistant (content : list assistantPart) (providerMetadata : option metadata)
| Tool (content : list toolResultPart) (providerMetadata : option metadata).

(** *** The JavaScript objects of a prompt *)

Definition namespaces (m : metadata) : props :=
  map (fun ns => (fst ns, VObj (snd ns))) m.

Definition metadataField (pm : option metadata) : props :=
  match pm with
  | None => []
  | Some m => [("providerMetadata", VObj (namespaces m))]
  end.

Definition object (fields : props) (pm : option metadata) : value :=
  VObj (fields ++ metadataField pm)%list.

Definition encodeImage (image : imageData) : value :=
  match image with
  | ImageUrl href => VUrl href
  | ImageBytes data => VBytes data
  end.

Definition userPartFields (p : userPart) : props :=
  match p with
  | TextPart text _ => [("type", VStr "text"); ("text", VStr text)]
  | ImagePart image mimeType _ =>
      ([("type", VStr "image"); ("image", encodeImage image)]
         ++ match mimeType with
            | Some t => [("mimeType", VStr t)]
            | None => []
            end)%list
  | FilePart data mimeType _ =>
      [("type", VStr "file"); ("data", VStr data); ("mimeType", VStr mimeType)]
  end.

Definition userPartMetadata (p : userPart) : option metadata :=
  match p with
  | TextPart _ pm | ImagePart _ _ pm | FilePart _ _ pm => pm
  end.

Definition assistantPartFields (p : assistantPart) : props :=
  match p with
  | AssistantText text _ => [("type", VStr "text"); ("text", VStr text)]
  | ToolCallPart toolCallId toolName args _ =>
      [("type", VStr "tool-call"); ("toolCallId", VStr toolCallId);
       ("toolName", VStr toolName); ("args", args)]
  end.

Definition assistantPartMetadata (p : assistantPart) : option metadata :=
  match p with
  | AssistantText _ pm | ToolCallPart _ _ _ pm => pm
  end.

Definition toolResultFields (p : toolResultPart) : props :=
  match p with
  | ToolResultPart toolCallId toolName result _ =>
      [("type", VStr "tool-result"); ("toolCallId", VStr toolCallId);
       ("toolName", VStr toolName); ("result", result)]
  end.

Definition toolResultMetadata (p : toolResultPart) : option metadata :=
  match p with
  | ToolResultPart _ _ _ pm => pm
  end.

Definition encodeUserPart (p : userPart) : value :=
  object (userPartFields p) (userPartMetadata p).

Definition encodeAssistantPart (p : assistantPart) : value :=
  object (assistantPartFields p) (assistantPartMetadata p).

Definition encodeToolResult (p : toolResultPart) : value :=
  object (toolResultFields p) (toolResultMetadata p).

Definition messageFields (m : message) : props :=
  match m with
  | System content _ => [("role", VStr "system"); ("content", VStr content)]
  | User content _ =>
      [("role", VStr "user"); ("content", VArr (map encodeUserPart content))]
  | Assistant content _ =>
      [("role", VStr "assistant");
       ("content", VArr (map encodeAssistantPart content))]
  | Tool content _ =>
      [("role", VStr "tool"); ("content", VArr (map encodeToolResult content))]
  end.

Definition messageMetadata (m : message) : option metadata :=
  match m with
  | System _ pm | User _ pm | Assistant _ pm | Tool _ pm => pm
  end.

Definition encodeMessage (m : message) : value :=
  object (messageFields m) (messageMetadata m).

Definition encodePrompt (prompt : list message) : list value :=
  map encodeMessage prompt.

(** *** Overlays *)

(** The bag of the [openaiCompatible] namespace: the overlay for the target
    provider. *)
Definition overlay (pm : option metadata) : props :=
  match pm with
  | None => []
  | Some m =>
      match lookup "openaiCompatible" (namespaces m) with
      | Some bag => own_props bag
      | None => []
      end
  end.

(** The [providerMetadata] property that holds the other namespaces once the
    target namespace is taken out; no property when no namespace is left. *)
Definition foreign (pm : option metadata) : props :=
  match pm with
  | None => []
  | Some m =>
      match lookup "openaiCompatible" (namespaces m) with
      | None => metadataField pm
      | Some _ =>
          match delete "openaiCompatible" (namespaces m) with
          | [] => []
          | (_ :: _) as others => [("providerMetadata", VObj others)]
          end
      end
  end.

Definition keys (ps : props) : list string := map fst ps.

Fixpoint distinct (ks : list string) : bool :=
  match ks with
  | [] => true
  | k :: rest => negb (existsb (String.eqb k) rest) && distinct rest
  end.

Definition avoids (names : list string) (ps : props) : bool :=
  forallb (fun kv => negb (existsb (String.eqb (fst kv)) names)) ps.

(** An overlay the hoisting moves without loss: its keys are distinct (as
    the keys of an object are) and none of [names], the names of the fields
    of the object that carries it, and neither its values nor the other
    namespaces hold target metadata of their own. *)
Definition safeMetadata (names : list string) (pm : option metadata) : bool :=
  distinct (keys (overlay pm))
  && avoids names (overlay pm)
  && forallb (fun kv => hoist_free (snd kv)) (overlay pm ++ foreign pm)%list.

Definition messageNames : list string :=
  ["role"; "content"; "providerMetadata"].

Definition userPartNames (p : userPart) : list string :=
  match p with
  | TextPart _ _ => ["type"; "text"; "providerMetadata"]
  | ImagePart _ _ _ => ["type"; "image"; "mimeType"; "providerMetadata"]
  | FilePart _ _ _ => ["type"; "data"; "mimeType"; "providerMetadata"]
  end.

Definition assistantPartNames (p : assistantPart) : list string :=
  match p with
  | AssistantText _ _ => ["type"; "text"; "providerMetadata"]
  | ToolCallPart _ _ _ _ =>
      ["type"; "toolCallId"; "toolName"; "args"; "providerMetadata"]
  end.

Definition toolResultNames : list string :=
  ["type"; "content"; "toolCallId"; "toolName"; "result"; "providerMetadata"].

Definition safeUserPart (p : userPart) : bool :=
  safeMetadata (userPartNames p) (userPartMetadata p).

Definition safeAssistantPart (p : assistantPart) : bool :=
  safeMetadata (assistantPartNames p) (assistantPartMetadata p)
  && match p with
     | AssistantText _ _ => true
     | ToolCallPart _ _ args _ => hoist_free args
     end.

Definition safeToolResult (p : toolResultPart) : bool :=
  safeMetadata toolResultNames (toolResultMetadata p)
  && match p with
     | ToolResultPart _ _ result _ => hoist_free result
     end.

Definition safeMessage (m : message) : bool :=
  safeMetadata messageNames (messageMetadata m)
  && match m with
     | System _ _ => true
     | User content _ => forallb safeUserPart content
     | Assistant content _ => forallb safeAssistantPart content
     | Tool content _ => forallb safeToolResult content
     end.

(** What the hoisting leaves on an object in place of its
    [providerMetadata]. *)
Definition hoistedFields (pm : option metadata) : props :=
  (foreign pm ++ overlay pm)%list.

(** The objects of a prompt after the hoisting. *)
Definition hoistedObject (fields : props) (pm : option metadata) : value :=
  VObj (fields ++ hoistedFields pm)%list.

Definition hoistedUserPart (p : userPart) : value :=
  hoistedObject (userPartFields p) (userPartMetadata p).

Definition hoistedAssistantPart (p : assistantPart) : value :=
  hoistedObject (assistantPartFields p) (assistantPartMetadata p).

Definition hoistedToolResult (p : toolResultPart) : value :=
  hoistedObject (toolResultFields p) (toolResultMetadata p).

Definition hoistedMessage (m : message) : value :=
  hoistedObject
    match m with
    | System content _ => [("role", VStr "system"); ("content", VStr content)]
    | User content _ =>
        [("role", VStr "user"); ("content", VArr (map hoistedUserPart content))]
    | Assistant content _ =>
        [("role", VStr "assistant");
         ("content", VArr (map hoistedAssistantPart content))]
    | Tool content _ =>
        [("role", VStr "tool"); ("content", VArr (map hoistedToolResult content))]
    end
    (messageMetadata m).

(** *** The wire messages, in the words of the spec (section 4.1)

    These follow the spec, not the code; the theorems compare the converter
    with them.  [assign] is the shallow merge, later keys winning. *)

Definition imageUrl (image : imageData) (mimeType : option string) : string :=
  match image with
  | ImageUrl href => href
  | ImageBytes data =>
      "data:" ++ match mimeType with
                 | Some t => t
                 | None => "image/jpeg"
                 end
        ++ ";base64," ++ Base64.encode (map Byte.to_N data)
  end.

Definition isFilePart (p : userPart) : bool :=
  match p with
  | FilePart _ _ _ => true
  | _ => false
  end.

(** A file part has no wire form. *)
Definition wireUserPart (p : userPart) : value :=
  match p with
  | TextPart text pm =>
      VObj (assign [("type", VStr "text"); ("text", VStr text)] (hoistedFields pm))
  | ImagePart image mimeType pm =>
      VObj (assign [("type", VStr "image_url");
                    ("image_url", VObj [("url", VStr (imageUrl image mimeType))])]
              (hoistedFields pm))
  | FilePart _ _ _ => VUndef
  end.

Fixpoint combinedText (parts : list assistantPart) : string :=
  match parts with
  | [] => EmptyString
  | AssistantText text _ :: rest => text ++ combinedText rest
  | ToolCallPart _ _ _ _ :: rest => combinedText rest
  end.

Definition wireToolCall (toolCallId toolName : string) (args : value) : props :=
  [("id", VStr toolCallId);
   ("type", VStr "function");
   ("function",
    VObj [("name", VStr toolName); ("arguments", JSON_stringify args)])].

Fixpoint wireToolCalls (parts : list assistantPart) : list value :=
  match parts with
  | [] => []
  | AssistantText _ _ :: rest => wireToolCalls rest
  | ToolCallPart toolCallId toolName args pm :: rest =>
      VObj (assign (wireToolCall toolCallId toolName args) (hoistedFields pm))
        :: wireToolCalls rest
  end.

Definition wireToolResult (pm : option metadata) (p : toolResultPart) : value :=
  match p with
  | ToolResultPart toolCallId _ result ppm =>
      VObj (assign
              (assign [("role", VStr "tool");
                       ("tool_call_id", VStr toolCallId);
                       ("content", JSON_stringify result)]
                 (hoistedFields ppm))
              (hoistedFields pm))
  end.

Definition wireMessage (m : message) : list value :=
  match m with
  | System content pm =>
      [VObj (assign [("role", VStr "system"); ("content", VStr content)]
               (hoistedFields pm))]
  | User [TextPart text ppm] pm =>
      [VObj (assign
               (assign [("role", VStr "user"); ("content", VStr text)]
                  (hoistedFields pm))
               (hoistedFields ppm))]
  | User parts pm =>
      [VObj (assign [("role", VStr "user");
                     ("content", VArr (map wireUserPart parts))]
               (hoistedFields pm))]
  | Assistant parts pm =>
      [VObj (assign [("role", VStr "assistant");
                     ("content", VStr (combinedText parts));
                     ("tool_calls",
                      match wireToolCalls parts with
                      | [] => VUndef
                      | (_ :: _) as calls => VArr calls
                      end)]
               (hoistedFields pm))]
  | Tool parts pm => map (wireToolResult pm) parts
  end.








(** *** The wire messages of the converter that reads the metadata

    Only the overlay is merged, the other namespaces stay behind; a collapsed
    user message and a tool message's wire messages take the part's overlay
    and not the message's. *)

Definition readWireUserPart (p : userPart) : value :=
  match p with
  | TextPart text pm =>
      VObj (assign [("type", VStr "text"); ("text", VStr text)] (overlay pm))
  | ImagePart image mimeType pm =>
      VObj (assign [("type", VStr "image_url");
                    ("image_url", VObj [("url", VStr (imageUrl image mimeType))])]
              (overlay pm))
  | FilePart _ _ _ => VUndef
  end.

Fixpoint readWireToolCalls (parts : list assistantPart) : list value :=
  match parts with
  | [] => []
  | AssistantText _ _ :: rest => readWireToolCalls rest
  | ToolCallPart toolCallId toolName args pm :: rest =>
      VObj (assign (wireToolCall toolCallId toolName args) (overlay pm))
        :: readWireToolCalls rest
  end.

Definition readWireToolResult (p : toolResultPart) : value :=
  match p with
  | ToolResultPart toolCallId _ result ppm =>
      VObj (assign [("role", VStr "tool");
                    ("tool_call_id", VStr toolCallId);
                    ("content", JSON_stringify result)]
              (overlay ppm))
  end.

Definition readWireMessage (m : message) : list value :=
  match m with
  | System content pm =>
      [VObj (assign [("role", VStr "system"); ("content", VStr content)]
               (overlay pm))]
  | User [TextPart text ppm] _ =>
      [VObj (assign [("role", VStr "user"); ("content", VStr text)]
               (overlay ppm))]
  | User parts pm =>
      [VObj (assign [("role", VStr "user");
                     ("content", VArr (map readWireUserPart parts))]
               (overlay pm))]
  | Assistant parts pm =>
      [VObj (assign [("role", VStr "assistant");
                     ("content", VStr (combinedText parts));
                     ("tool_calls",
                      match readWireToolCalls parts with
                      | [] => VUndef
                      | (_ :: _) as calls => VArr calls
                      end)]
               (overlay pm))]
  | Tool parts _ => map readWireToolResult parts
  end.



Definition hasFilePart (m : message) : bool :=
  match m with
  | User parts _ => existsb isFilePart parts
  | _ => false
  end.

End Prompt.

(** ** [embed] *)

Module Embed.

(** A number that may be [NaN]. *)
Inductive number : Type :=
| NaN
| Num (n : Z).

Inductive error : Type :=
| UnsupportedModelVersionError (version provider modelId : string)
| APICallError (isRetryable : bool) (message : string)
| AbortError
| Exception (e : exn).

(** How a promise settles. *)
Inductive settled (A : Type) : Type :=
| Fulfilled (a : A)
| Rejected (e : error).

Arguments Fulfilled {A} a.
Arguments Rejected {A} e.

(** An asynchronous computation over a state [W]: it settles and leaves a
    state behind. *)
Definition action (W A : Type) : Type := W -> settled A * W.

(** Modelled from the spec: the retry classification of the executor
    ([retryWithExponentialBackoff], behind [prepareRetries]) is not among
    the sources.  Section 4.2: only transient, network-classified failures
    are retried; validation failures (unsupported content, version
    mismatch) and cancellation never are. *)
Definition isRetryable (e : error) : bool :=
  match e with
  | APICallError retryable _ => retryable
  | _ => false
  end.

(** Modelled from the spec: [retry], the function [prepareRetries] returns,
    is not among the sources.  Section 4.2: the body is attempted, and
    after a transient failure attempted again, up to [maxRetries] more
    times; when the attempts are used up the last error propagates
    unchanged; any other failure propagates at once.  The delay between
    attempts is not modelled. *)
Fixpoint retry {W A : Type} (retriesLeft : nat) (body : action W A) : action W A :=
  fun w =>
    match body w with
    | (Fulfilled a, w') => (Fulfilled a, w')
    | (Rejected e, w') =>
        if isRetryable e then
          match retriesLeft with
          | O => (Rejected e, w')
          | S n => retry n body w'
          end
        else (Rejected e, w')
    end.

(** Modelled from the spec: [prepareRetries] is not among the sources.
    Section 4.2: [maxRetries] is a non-negative integer and defaults
    to 2.  Of the pair it returns this is [maxRetries]; the [retry] of the
    pair is [retry maxRetries]. *)
Definition prepareRetries (maxRetriesArg : option nat) : nat :=
  match maxRetriesArg with
  | Some n => n
  | None => 2
  end.

(** A body seen from outside: each invocation is counted next to the
    state it runs in. *)
Definition counted {W A : Type} (body : action W A) : action (W * nat) A :=
  fun wn =>
    match body (fst wn) with
    | (r, w') => (r, (w', S (snd wn)))
    end.

Section embed.

(** The types the call is generic in, and what the pipeline hands through
    untouched. *)
Variables VALUE EMBEDDING METADATA RESPONSE : Type.
Variables SIGNAL HEADERS OPTIONS TELEMETRY : Type.
(** The state of the provider behind the model. *)
Variable PROVIDER : Type.

Record usage : Type := { tokens : number }.

Record doEmbedOptions : Type := {
  values : list VALUE;
  abortSignal : option SIGNAL;
  headers : option HEADERS;
  providerOptions : option OPTIONS
}.

Record doEmbedResult : Type := {
  embeddings : list EMBEDDING;
  response_usage : option usage;
  response_providerMetadata : option METADATA;
  response_response : option RESPONSE
}.

Record EmbeddingModel : Type := {
  specificationVersion : string;
  provider : string;
  modelId : string;
  doEmbed : doEmbedOptions -> PROVIDER -> settled doEmbedResult * PROVIDER
}.

(** What the call does that an observer can see, in order. *)
Inductive event : Type :=
| RetriesPrepared (maxRetries : nat)
| SpanStarted (name : string)
| SpanAttributesSet (name : string)
| SpanEnded (name : string)
| DoEmbedCalled (options : doEmbedOptions).

Record world : Type := {
  provider_state : PROVIDER;
  trace : list event
}.

Definition async (A : Type) : Type := action world A.

Definition resolve {A : Type} (a : A) : async A := fun w => (Fulfilled a, w).

Definition reject {A : Type} (e : error) : async A := fun w => (Rejected e, w).

Definition await {A B : Type} (c : async A) (k : A -> async B) : async B :=
  fun w =>
    match c w with
    | (Fulfilled a, w') => k a w'
    | (Rejected e, w') => (Rejected e, w')
    end.

Definition record (ev : event) (w : world) : world :=
  {| provider_state := provider_state w; trace := (trace w ++ [ev])%list |}.

Definition emit (ev : event) : async unit := fun w => (Fulfilled tt, record ev w).

(** [model.doEmbed(options)]: the call is seen, and the provider moves. *)
Definition callDoEmbed (model : EmbeddingModel) (options : doEmbedOptions)
  : async doEmbedResult :=
  await (emit (DoEmbedCalled options)) (fun _ =>
  fun w =>
    let (r, p) := doEmbed model options (provider_state w) in
    (r, {| provider_state := p; trace := trace w |})).

(** Modelled from the spec: [recordSpan] is not among the sources.
    Section 4.2: the operation runs inside a span, which is started
    before it and ended after it, whether it fulfils or rejects.  The
    attributes and their lazy evaluation are not modelled. *)
Definition recordSpan {A : Type} (name : string) (fn : async A) : async A :=
  await (emit (SpanStarted name)) (fun _ =>
  fun w =>
    match fn w with
    | (r, w') => (r, record (SpanEnded name) w')
    end).

Record EmbedResult : Type := DefaultEmbedResult {
  value : VALUE;
  embedding : option EMBEDDING;
  result_usage : usage;
  providerMetadata : option METADATA;
  response : option RESPONSE
}.

(** What the inner span's function returns (lines 148-153). *)
Record doEmbedOutcome : Type := {
  outcome_embedding : option EMBEDDING;
  outcome_usage : usage;
  outcome_providerMetadata : option METADATA;
  outcome_response : option RESPONSE
}.

(** The function of the inner span (lines 122-154). *)
Definition doEmbedSpan (model : EmbeddingModel) (v : VALUE)
    (signal : option SIGNAL) (hdrs : option HEADERS) (opts : option OPTIONS)
  : async doEmbedOutcome :=
  await (callDoEmbed model
           {| values := [v]; abortSignal := signal; headers := hdrs;
              providerOptions := opts |})
    (fun modelResponse =>
  let embedding := hd_error (embeddings modelResponse) in
  let usage := match response_usage modelResponse with
               | Some u => u
               | None => {| tokens := NaN |}
               end in
  await (emit (SpanAttributesSet "ai.embed.doEmbed")) (fun _ =>
  resolve {| outcome_embedding := embedding;
             outcome_usage := usage;
             outcome_providerMetadata := response_providerMetadata modelResponse;
             outcome_response := response_response modelResponse |})).

(** One attempt: the inner span around the [doEmbed] call (lines
    107-155). *)
Definition attempt (model : EmbeddingModel) (v : VALUE)
    (signal : option SIGNAL) (hdrs : option HEADERS) (opts : option OPTIONS)
  : async doEmbedOutcome :=
  recordSpan "ai.embed.doEmbed" (doEmbedSpan model v signal hdrs opts).

Definition embed (model : EmbeddingModel) (v : VALUE)
    (opts : option OPTIONS) (maxRetriesArg : option nat)
    (signal : option SIGNAL) (hdrs : option HEADERS)
    (telemetry : option TELEMETRY)
  : async EmbedResult :=
  if negb (String.eqb (specificationVersion model) "v2") then
    reject (UnsupportedModelVersionError (specificationVersion model)
              (provider model) (modelId model))
  else
    let maxRetries := prepareRetries maxRetriesArg in
    await (emit (RetriesPrepared maxRetries)) (fun _ =>
    recordSpan "ai.embed"
      (await (retry maxRetries (attempt model v signal hdrs opts))
         (fun r =>
       await (emit (SpanAttributesSet "ai.embed")) (fun _ =>
       resolve (DefaultEmbedResult v (outcome_embedding r) (outcome_usage r)
                  (outcome_providerMetadata r) (outcome_response r)))))).

(** The result for the value [v] and the response [modelResponse], as
    the result assembler of the spec (section 4.3) builds it. *)
Definition assembled (v : VALUE) (modelResponse : doEmbedResult) : EmbedResult :=
  DefaultEmbedResult v
    (hd_error (embeddings modelResponse))
    match response_usage modelResponse with
    | Some u => u
    | None => {| tokens := NaN |}
    end
    (response_providerMetadata modelResponse)
    (response_response modelResponse).

(** Every [doEmbed] call among [events] was made with [request]. *)
Definition only_this_call (request : doEmbedOptions) (events : list event) : Prop :=
  forall options, In (DoEmbedCalled options) events -> options = request.

End embed.

Arguments values {VALUE SIGNAL HEADERS OPTIONS} d.
Arguments abortSignal {VALUE SIGNAL HEADERS OPTIONS} d.
Arguments headers {VALUE SIGNAL HEADERS OPTIONS} d.
Arguments providerOptions {VALUE SIGNAL HEADERS OPTIONS} d.
Arguments embeddings {EMBEDDING METADATA RESPONSE} d.
Arguments response_usage {EMBEDDING METADATA RESPONSE} d.
Arguments response_providerMetadata {EMBEDDING METADATA RESPONSE} d.
Arguments response_response {EMBEDDING METADATA RESPONSE} d.
Arguments specificationVersion {VALUE EMBEDDING METADATA RESPONSE SIGNAL HEADERS OPTIONS PROVIDER} e.
Arguments provider {VALUE EMBEDDING METADATA RESPONSE SIGNAL HEADERS OPTIONS PROVIDER} e.
Arguments modelId {VALUE EMBEDDING METADATA RESPONSE SIGNAL HEADERS OPTIONS PROVIDER} e.
Arguments doEmbed {VALUE EMBEDDING METADATA RESPONSE SIGNAL HEADERS OPTIONS PROVIDER} e.
Arguments RetriesPrepared {VALUE SIGNAL HEADERS OPTIONS} maxRetries.
Arguments SpanStarted {VALUE SIGNAL HEADERS OPTIONS} name.
Arguments SpanAttributesSet {VALUE SIGNAL HEADERS OPTIONS} name.
Arguments SpanEnded {VALUE SIGNAL HEADERS OPTIONS} name.
Arguments DoEmbedCalled {VALUE SIGNAL HEADERS OPTIONS} options.
Arguments provider_state {VALUE SIGNAL HEADERS OPTIONS PROVIDER} w.
Arguments trace {VALUE SIGNAL HEADERS OPTIONS PROVIDER} w.
Arguments record {VALUE SIGNAL HEADERS OPTIONS PROVIDER} ev w.
Arguments emit {VALUE SIGNAL HEADERS OPTIONS PROVIDER} ev.
Arguments resolve {VALUE SIGNAL HEADERS OPTIONS PROVIDER A} a.
Arguments reject {VALUE SIGNAL HEADERS OPTIONS PROVIDER A} e.
Arguments await {VALUE SIGNAL HEADERS OPTIONS PROVIDER A B} c k.
Arguments callDoEmbed {VALUE EMBEDDING METADATA RESPONSE SIGNAL HEADERS OPTIONS PROVIDER} model options.
Arguments recordSpan {VALUE SIGNAL HEADERS OPTIONS PROVIDER A} name fn.
Arguments DefaultEmbedResult {VALUE EMBEDDING METADATA RESPONSE} value embedding result_usage providerMetadata response.
Arguments value {VALUE EMBEDDING METADATA RESPONSE} e.
Arguments embedding {VALUE EMBEDDING METADATA RESPONSE} e.
Arguments result_usage {VALUE EMBEDDING METADATA RESPONSE} e.
Arguments providerMetadata {VALUE EMBEDDING METADATA RESPONSE} e.
Arguments response {VALUE EMBEDDING METADATA RESPONSE} e.
Arguments outcome_embedding {EMBEDDING METADATA RESPONSE} d.
Arguments outcome_usage {EMBEDDING METADATA RESPONSE} d.
Arguments outcome_providerMetadata {EMBEDDING METADATA RESPONSE} d.
Arguments outcome_response {EMBEDDING METADATA RESPONSE} d.
Arguments doEmbedSpan {VALUE EMBEDDING METADATA RESPONSE SIGNAL HEADERS OPTIONS PROVIDER} model v signal hdrs opts.
Arguments attempt {VALUE EMBEDDING METADATA RESPONSE SIGNAL HEADERS OPTIONS PROVIDER} model v signal hdrs opts.
Arguments assembled {VALUE EMBEDDING METADATA RESPONSE} v modelResponse.
Arguments only_this_call {VALUE SIGNAL HEADERS OPTIONS} request events.
Arguments embed {VALUE EMBEDDING METADATA RESPONSE SIGNAL HEADERS OPTIONS TELEMETRY PROVIDER} model v opts maxRetriesArg signal hdrs telemetry.

(** A body that counts in its own state: two transient failures, then a
    value. *)
Definition flaky : action nat string :=
  fun n =>
    if Nat.ltb n 2 then (Rejected (APICallError true "overloaded"), S n)
    else (Fulfilled "done", S n).

(** *** Two models to run [embed] on *)

Definition exampleWorld : world string unit unit unit nat :=
  {| provider_state := 0; trace := [] |}.

Definition legacyModel
  : EmbeddingModel string (list Z) unit unit unit unit unit nat :=
  {| specificationVersion := "v1";
     provider := "example";
     modelId := "embed-1";
     doEmbed := fun _ n => (Rejected AbortError, S n) |}.

(** Every value embeds to the same vector; the response has no usage. *)
Definition exampleModel
  : EmbeddingModel string (list Z) unit unit unit unit unit nat :=
  {| specificationVersion := "v2";
     provider := "example";
     modelId := "embed-2";
     doEmbed := fun options n =>
       (Fulfilled {| embeddings := map (fun _ => [1; 2; 3]%Z) (values options);
                     response_usage := None;
                     response_providerMetadata := None;
                     response_response := None |},
        S n) |}.

End Embed.

(** ** Comparing wire objects *)

Module Compare.
Import JS Prompt.

(** Two results with the same properties: the same value, or two objects in
    which every key reads the same (the order of the keys may differ, and a
    key that holds [undefined] reads as a key that is not there). *)
Definition same_properties (a c : value) : Prop :=
  match a, c with
  | VObj ps, VObj qs => forall k, get ps k = get qs k
  | _, _ => a = c
  end.

(** Two calls that end alike: the same exception, or results with the same
    properties. *)
Definition same_outcome (x y : outcome value) : Prop :=
  match x, y with
  | Returns a, Returns c => same_properties a c
  | _, _ => x = y
  end.

(** A value in which the keys of every object are distinct, as the keys of
    a JavaScript object are. *)
Fixpoint well_formed (v : value) : bool :=
  match v with
  | VObj ps =>
      distinct (map fst ps) && forallb (fun kv => well_formed (snd kv)) ps
  | VArr items => forallb well_formed items
  | _ => true
  end.

Definition values_formed (ps : props) : bool :=
  forallb (fun kv => well_formed (snd kv)) ps.

(** Two wire messages that are the same, or two user messages that differ
    only in the elements of their [content] arrays, which have the same
    properties. *)
Definition same_message (a c : value) : Prop :=
  a = c
  \/ exists rest xs ys,
       a = VObj (assign [("role", VStr "user"); ("content", VArr xs)] rest)
       /\ c = VObj (assign [("role", VStr "user"); ("content", VArr ys)] rest)
       /\ Forall2 same_properties xs ys.

(** Two conversions that end alike: the same exception, or wire messages
    that are the same in the sense of [same_message]. *)
Definition same_wire_messages (x y : outcome (list value)) : Prop :=
  match x, y with
  | Returns ws, Returns ws' => Forall2 same_message ws ws'
  | _, _ => x = y
  end.

(** *** The two converters side by side *)

(** Metadata with no namespace but the target one: the hoisting leaves no
    [providerMetadata] behind. *)
Definition targetOnly (pm : option metadata) : bool :=
  match foreign pm with
  | [] => true
  | _ :: _ => false
  end.

Definition noOverlay (pm : option metadata) : bool :=
  match overlay pm with
  | [] => true
  | _ :: _ => false
  end.

(** A message that gives the hoisting converter and the reading converter
    nothing to differ on: no namespace but the target one (on a text part of
    an assistant message any will do, both drop it), and no overlay on a
    message whose wire messages the reading converter builds from the parts
    alone (a user message of one text part, a tool message). *)
Definition sameInBoth (m : message) : bool :=
  targetOnly (messageMetadata m)
  && match m with
     | System _ _ => true
     | User [TextPart _ ppm] pm => targetOnly ppm && noOverlay pm
     | User parts _ => forallb (fun p => targetOnly (userPartMetadata p)) parts
     | Assistant parts _ =>
         forallb (fun p => match p with
                           | AssistantText _ _ => true
                           | ToolCallPart _ _ _ ppm => targetOnly ppm
                           end) parts
     | Tool parts pm =>
         noOverlay pm && forallb (fun p => targetOnly (toolResultMetadata p)) parts
     end.

(** Every key of the overlay of [pm] reads in [w] as the overlay has it
    (the keys of the overlay being distinct, as the keys of an object
    are). *)
Definition overlaid (pm : option metadata) (w : value) : Prop :=
  distinct (keys (overlay pm)) = true ->
  forall k v, lookup k (overlay pm) = Some v -> member w k = v.

(** The overlay that wins in the wire messages [ws] of the message [m], in
    the hoisting converter: the message's own, but the part's in a
    collapsed user message. *)
Definition hoistingOverlay (m : message) (ws : list value) : Prop :=
  match m with
  | User [TextPart _ ppm] _ => Forall (overlaid ppm) ws
  | _ => Forall (overlaid (messageMetadata m)) ws
  end.

(** The same for the reading converter, where the wire messages of a tool
    message take the overlay of their part. *)
Definition readingOverlay (m : message) (ws : list value) : Prop :=
  match m with
  | User [TextPart _ ppm] _ => Forall (overlaid ppm) ws
  | Tool parts _ =>
      Forall2 (fun p w => overlaid (toolResultMetadata p) w) parts ws
  | _ => Forall (overlaid (messageMetadata m)) ws
  end.

(** The overlays of a message and of its parts. *)
Definition overlaysOf (m : message) : list props :=
  overlay (messageMetadata m)
  :: match m with
     | System _ _ => []
     | User parts _ => map (fun p => overlay (userPartMetadata p)) parts
     | Assistant parts _ => map (fun p => overlay (assistantPartMetadata p)) parts
     | Tool parts _ => map (fun p => overlay (toolResultMetadata p)) parts
     end.

(** The number of wire messages of a message: one, and one per result for a
    tool message. *)
Definition wireCount (m : message) : nat :=
  match m with
  | Tool parts _ => List.length parts
  | _ => 1
  end.

(** *** Two prompts to run the converters on *)

(** A prompt with overlays for the target provider only. *)
Definition examplePrompt : list message :=
  [System "Be brief." (Some [("openaiCompatible", [("name", VStr "rules")])]);
   User [TextPart "Look:" None;
         ImagePart (ImageUrl "https://example.com/a.png") None
           (Some [("openaiCompatible", [("detail", VStr "low")])])]
     None;
   Assistant [AssistantText "Calling." None;
              ToolCallPart "1" "f" (VObj [("x", VNum 1)]) None]
     None;
   Tool [ToolResultPart "1" "f" (VNum 7)
           (Some [("openaiCompatible", [("cache", VBool true)])]);
         ToolResultPart "2" "g" (VStr "ok") None]
     None].

(** A prompt that carries another provider's namespace as well. *)
Definition foreignPrompt : list message :=
  [System "Be brief."
     (Some [("anthropic", [("cacheControl", VStr "ephemeral")]);
            ("openaiCompatible", [("name", VStr "rules")])]);
   User [TextPart "hi" (Some [("anthropic", [("cacheControl", VStr "ephemeral")])])]
     None].

End Compare.

(** ** Reading the trace of [embed] *)

Module EmbedTrace.
Import Embed.

Section trace.

Context {VALUE SIGNAL HEADERS OPTIONS : Type}.

Definition isDoEmbedCall (ev : event VALUE SIGNAL HEADERS OPTIONS) : bool :=
  match ev with
  | DoEmbedCalled _ => true
  | _ => false
  end.

(** How many times [doEmbed] was called. *)
Definition doEmbedCalls (events : list (event VALUE SIGNAL HEADERS OPTIONS)) : nat :=
  List.length (filter isDoEmbedCall events).

End trace.

(** A [v2] model whose provider is overloaded: every call is rejected with
    a transient error. *)
Definition overloadedModel
  : EmbeddingModel string (list Z) unit unit unit unit unit nat :=
  {| specificationVersion := "v2";
     provider := "example";
     modelId := "embed-2";
     doEmbed := fun _ n => (Rejected (APICallError true "overloaded"), S n) |}.

(** A [v2] model whose provider rejects the first two calls with a
    transient error and answers from the third on. *)
Definition flakyModel
  : EmbeddingModel string (list Z) unit unit unit unit unit nat :=
  {| specificationVersion := "v2";
     provider := "example";
     modelId := "embed-2";
     doEmbed := fun options n =>
       if Nat.ltb n 2 then (Rejected (APICallError true "overloaded"), S n)
       else
         (Fulfilled {| embeddings := map (fun _ => [1; 2; 3]%Z) (values options);
                       response_usage := Some {| tokens := Num 4 |};
                       response_providerMetadata := None;
                       response_response := None |},
          S n) |}.

End EmbedTrace.
(** ** Property lists over any kind of value *)

(** The operations of [JS] on property lists, for lists that hold references
    or located values instead of trees. *)
Module Props.
Section props.
Context {V : Type}.

Fixpoint lookup (k : string) (ps : list (string * V)) : option V :=
  match ps with
  | [] => None
  | (k', v) :: rest => if String.eqb k k' then Some v else lookup k rest
  end.

Definition get (undefined : V) (ps : list (string * V)) (k : string) : V :=
  match lookup k ps with
  | Some v => v
  | None => undefined
  end.

Fixpoint set (ps : list (string * V)) (k : string) (v : V) : list (string * V) :=
  match ps with
  | [] => [(k, v)]
  | (k', v') :: rest =>
      if String.eqb k k' then (k, v) :: rest else (k', v') :: set rest k v
  end.

Definition delete (k : string) (ps : list (string * V)) : list (string * V) :=
  filter (fun kv => negb (String.eqb k (fst kv))) ps.

Definition assign (target source : list (string * V)) : list (string * V) :=
  fold_left (fun acc kv => set acc (fst kv) (snd kv)) source target.

Fixpoint indexed_from (i : nat) (xs : list V) : list (string * V) :=
  match xs with
  | [] => []
  | x :: rest => (JS.string_of_nat i, x) :: indexed_from (S i) rest
  end.

Definition indexed (xs : list V) : list (string * V) := indexed_from 0 xs.

Definition values (ps : list (string * V)) : list V := map snd ps.

End props.

(** The same keys, each value seen through [f]. *)
Definition mapv {V W : Type} (f : V -> W) (ps : list (string * V))
  : list (string * W) :=
  map (fun kv => (fst kv, f (snd kv))) ps.

End Props.

(** ** The prompt in memory

    [findAndHoistMetadata] updates the objects of the prompt in place.  Here
    the objects live in a store and a value is a primitive or the address of
    an object, so that one object can be held by two properties: what the
    hoisting writes through one of them is seen through the other.  The
    trees of [Hoisting] are what this model gives when no object is shared
    ([StoreFacts.hoist_unshared]). *)

Module Store.
Import JS.

Definition addr := nat.

(** A value as a variable or a property holds it. *)
Inductive ref : Type :=
| RUndef
| RNull
| RBool (b : bool)
| RNum (n : Z)
| RStr (s : string)
| RObj (a : addr)
| RUrl (href : string)
| RBytes (bytes : list byte).

(** What an address holds: a plain object with its own properties in
    insertion order, or an array. *)
Inductive object : Type :=
| Obj (props : list (string * ref))
| Arr (items : list ref).

Definition store := list object.

(** The store with the object at [a] replaced. *)
Fixpoint update (a : addr) (o : object) (h : store) : store :=
  match h, a with
  | [], _ => []
  | _ :: rest, O => o :: rest
  | x :: rest, S a' => x :: update a' o rest
  end.

Definition truthy (r : ref) : bool :=
  match r with
  | RUndef | RNull => false
  | RBool b => b
  | RNum n => negb (Z.eqb n 0)
  | RStr s => negb (String.eqb s "")
  | _ => true
  end.

Definition nullish (r : ref) : bool :=
  match r with
  | RUndef | RNull => true
  | _ => false
  end.

Definition own_props (h : store) (r : ref) : list (string * ref) :=
  match r with
  | RObj a =>
      match nth_error h a with
      | Some (Obj ps) => ps
      | Some (Arr items) => Props.indexed items
      | None => []
      end
  | RStr s => Props.indexed (map RStr (chars s))
  | RBytes bs => Props.indexed (map (fun b => RNum (byte_num b)) bs)
  | _ => []
  end.

(** [r?.k] for a data key [k]. *)
Definition get (h : store) (r : ref) (k : string) : ref :=
  Props.get RUndef (own_props h r) k.

(** [Object.assign(obj, source)] for the own properties [source] of the
    source object: the object at the address of [obj] is updated. *)
Definition assign_to (obj : ref) (source : list (string * ref)) (h : store)
  : store :=
  match obj with
  | RObj a =>
      match nth_error h a with
      | Some (Obj ps) => update a (Obj (Props.assign ps source)) h
      | _ => h
      end
  | _ => h
  end.

(** [delete obj[k]]. *)
Definition delete_prop (obj : ref) (k : string) (h : store) : store :=
  match obj with
  | RObj a =>
      match nth_error h a with
      | Some (Obj ps) => update a (Obj (Props.delete k ps)) h
      | _ => h
      end
  | _ => h
  end.

(** Lines 10-16 of [findAndHoistMetadata], statement by statement.  Each
    [obj.providerMetadata] is read from the store as the statement before
    left it. *)
Definition hoist_here (obj : ref) (h : store) : outcome store :=
  let bag := get h (get h obj "providerMetadata") "openaiCompatible" in
  if truthy bag then
    (* Object.assign(obj, obj.providerMetadata.openaiCompatible) *)
    let h1 := assign_to obj (own_props h bag) h in
    (* delete obj.providerMetadata.openaiCompatible *)
    let metadata := get h1 obj "providerMetadata" in
    if nullish metadata then Throws TypeError
    else
      let h2 := delete_prop metadata "openaiCompatible" h1 in
      (* if (Object.keys(obj.providerMetadata).length === 0)
           delete obj.providerMetadata *)
      match own_props h2 (get h2 obj "providerMetadata") with
      | [] => Returns (delete_prop obj "providerMetadata" h2)
      | _ :: _ => Returns h2
      end
  else Returns h.

(** [findAndHoistMetadata] (lines 9-23), with the recursion bounded by
    [fuel].  [Object.values(obj)] is taken once, before the values are
    visited. *)
Fixpoint hoist (fuel : nat) (obj : ref) (h : store) : outcome store :=
  match fuel with
  | O => OutOfFuel
  | S fuel' =>
      do h1 <- hoist_here obj h;
      match obj with
      | RObj a =>
          match nth_error h1 a with
          | Some (Arr items) =>
              Hoisting.foldM (fun h' item => hoist fuel' item h') h1 items
          | Some (Obj ps) =>
              Hoisting.foldM (fun h' kv => hoist fuel' (snd kv) h') h1 ps
          | None => Returns h1
          end
      | _ => Returns h1
      end
  end.

(** The hoisting neither adds nor removes an object, and a path without a
    cycle visits no address twice, so this fuel runs out only when an object
    is reached from itself. *)
Definition findAndHoistMetadata (obj : ref) (h : store) : outcome store :=
  hoist (2 + List.length h) obj h.

(** Lines 32-34. *)
Definition hoistPrompt (prompt : list ref) (h : store) : outcome store :=
  Hoisting.foldM (fun h' message => findAndHoistMetadata message h') h prompt.

(** The value at [r] as a tree. *)
Fixpoint read (fuel : nat) (h : store) (r : ref) : outcome value :=
  match fuel with
  | O => OutOfFuel
  | S fuel' =>
      match r with
      | RUndef => Returns VUndef
      | RNull => Returns VNull
      | RBool b => Returns (VBool b)
      | RNum n => Returns (VNum n)
      | RStr s => Returns (VStr s)
      | RUrl href => Returns (VUrl href)
      | RBytes bs => Returns (VBytes bs)
      | RObj a =>
          match nth_error h a with
          | Some (Obj ps) =>
              do ps' <- mapM (fun kv => do v <- read fuel' h (snd kv);
                                        Returns (fst kv, v)) ps;
              Returns (VObj ps')
          | Some (Arr items) =>
              do items' <- mapM (read fuel' h) items;
              Returns (VArr items')
          | None => Returns VUndef
          end
      end
  end.

(** The call on a prompt in memory: the objects of the prompt are hoisted in
    place, and the loop of lines 37-162, which writes to no object of the
    prompt, converts the prompt as the hoisting left it.  The result is the
    wire messages, read as trees when the call returns, and the store the
    caller is left with. *)
Definition convertToOpenAICompatibleChatMessages (prompt : list ref) (h : store)
  : outcome (list value * store) :=
  do h' <- hoistPrompt prompt h;
  do hoisted <- mapM (read (2 + List.length h') h') prompt;
  do messages <- Hoisting.convertMessages hoisted;
  Returns (messages, h').

(** *** Values with their addresses *)

(** A tree in which every object and array is marked with the address it
    lives at. *)
#[warnings="-register-all"]
Inductive located : Type :=
| LUndef
| LNull
| LBool (b : bool)
| LNum (n : Z)
| LStr (s : string)
| LArr (a : addr) (items : list located)
| LObj (a : addr) (props : list (string * located))
| LUrl (href : string)
| LBytes (bytes : list byte).

Fixpoint value_of (l : located) : value :=
  match l with
  | LUndef => VUndef
  | LNull => VNull
  | LBool b => VBool b
  | LNum n => VNum n
  | LStr s => VStr s
  | LArr _ items => VArr (map value_of items)
  | LObj _ ps => VObj (map (fun kv => (fst kv, value_of (snd kv))) ps)
  | LUrl href => VUrl href
  | LBytes bs => VBytes bs
  end.

Definition ref_of (l : located) : ref :=
  match l with
  | LUndef => RUndef
  | LNull => RNull
  | LBool b => RBool b
  | LNum n => RNum n
  | LStr s => RStr s
  | LArr a _ => RObj a
  | LObj a _ => RObj a
  | LUrl href => RUrl href
  | LBytes bs => RBytes bs
  end.

Definition own (l : located) : list (string * located) :=
  match l with
  | LObj _ ps => ps
  | LArr _ items => Props.indexed items
  | LStr s => Props.indexed (map LStr (chars s))
  | LBytes bs => Props.indexed (map (fun b => LNum (byte_num b)) bs)
  | _ => []
  end.

(** [delete l[k]] on a located value. *)
Definition strip (k : string) (l : located) : located :=
  match l with
  | LObj a ps => LObj a (Props.delete k ps)
  | _ => l
  end.

(** [l] as lines 10-16 leave it when they run to their end: the located
    form of [Hoisting.hoist_here]. *)
Definition hoisted_here (l : located) : located :=
  match l with
  | LObj a ps =>
      let bag :=
        Props.get LUndef (own (Props.get LUndef ps "providerMetadata"))
          "openaiCompatible" in
      if JS.truthy (value_of bag) then
        let ps1 := Props.assign ps (own bag) in
        let metadata :=
          strip "openaiCompatible" (Props.get LUndef ps1 "providerMetadata") in
        match own metadata with
        | [] => LObj a (Props.delete "providerMetadata" ps1)
        | _ :: _ => LObj a (Props.set ps1 "providerMetadata" metadata)
        end
      else l
  | _ => l
  end.

(** The addresses of the objects and arrays of a located value, one entry
    for each place an address is written at. *)
Fixpoint addresses (l : located) : list addr :=
  match l with
  | LArr a items => a :: flat_map addresses items
  | LObj a ps => a :: flat_map (fun kv => addresses (snd kv)) ps
  | _ => []
  end.

Definition addresses_of (ps : list (string * located)) : list addr :=
  flat_map (fun kv => addresses (snd kv)) ps.

(** The store holds [l]: at each address of [l] it has the object or array
    written there. *)
Fixpoint holds (h : store) (l : located) : Prop :=
  match l with
  | LArr a items =>
      nth_error h a = Some (Arr (map ref_of items))
      /\ fold_right (fun x rest => holds h x /\ rest) True items
  | LObj a ps =>
      nth_error h a = Some (Obj (Props.mapv ref_of ps))
      /\ fold_right (fun kv rest => holds h (snd kv) /\ rest) True ps
  | _ => True
  end.

Fixpoint apart (xs : list addr) : bool :=
  match xs with
  | [] => true
  | x :: rest => negb (existsb (Nat.eqb x) rest) && apart rest
  end.

(** A prompt in memory in which nothing is shared: the store holds the
    messages [ls], no address is written at two places of them, and the keys
    of every object are distinct, as the keys of a JavaScript object are. *)
Definition unshared (h : store) (ls : list located) : Prop :=
  Forall (holds h) ls
  /\ apart (flat_map addresses ls) = true
  /\ forallb Compare.well_formed (map value_of ls) = true.

(** *** The hoisting of a tree and the hoisting in place *)

(** The hoisting of the trees of [ls], with outcome [tree], and the hoisting
    in the store [h], with outcome [run], end alike: both raise the same
    exception, or both return.  The store returned then holds located
    values with the returned trees at the addresses of [ls], no address
    written at more places than before, and it is [h] at every other
    address. *)
Definition all_alike (tree : outcome (list value)) (run : outcome store)
  (h : store) (ls : list located) : Prop :=
  match tree with
  | Returns ts =>
      exists h' ls',
        run = Returns h'
        /\ Forall (holds h') ls'
        /\ map value_of ls' = ts
        /\ map ref_of ls' = map ref_of ls
        /\ (forall x, count_occ Nat.eq_dec (flat_map addresses ls') x
                      <= count_occ Nat.eq_dec (flat_map addresses ls) x)
        /\ (forall x, ~ In x (flat_map addresses ls) ->
                      nth_error h' x = nth_error h x)
        /\ List.length h' = List.length h
  | Throws e => run = Throws e
  | OutOfFuel => run = OutOfFuel
  end.

(** The same for one value. *)
Definition alike (tree : outcome value) (run : outcome store)
  (h : store) (l : located) : Prop :=
  match tree with
  | Returns t =>
      exists h' l',
        run = Returns h'
        /\ holds h' l'
        /\ value_of l' = t
        /\ ref_of l' = ref_of l
        /\ (forall x, count_occ Nat.eq_dec (addresses l') x
                      <= count_occ Nat.eq_dec (addresses l) x)
        /\ (forall x, ~ In x (addresses l) -> nth_error h' x = nth_error h x)
        /\ List.length h' = List.length h
  | Throws e => run = Throws e
  | OutOfFuel => run = OutOfFuel
  end.

(** *** Laying a tree out *)

(** [v] with fresh addresses from [next] on, parents before children, and
    the next free address. *)
Fixpoint place (v : value) (next : addr) : located * addr :=
  match v with
  | VUndef => (LUndef, next)
  | VNull => (LNull, next)
  | VBool b => (LBool b, next)
  | VNum n => (LNum n, next)
  | VStr s => (LStr s, next)
  | VUrl href => (LUrl href, next)
  | VBytes bs => (LBytes bs, next)
  | VArr items =>
      let placed :=
        fold_left (fun acc x => let l := place x (snd acc) in
                                ((fst acc ++ [fst l])%list, snd l))
          items ([], S next) in
      (LArr next (fst placed), snd placed)
  | VObj ps =>
      let placed :=
        fold_left (fun acc kv => let l := place (snd kv) (snd acc) in
                                 ((fst acc ++ [(fst kv, fst l)])%list, snd l))
          ps ([], S next) in
      (LObj next (fst placed), snd placed)
  end.

(** The objects of a located value, parents before children. *)
Fixpoint cells (l : located) : store :=
  match l with
  | LArr _ items => Arr (map ref_of items) :: flat_map cells items
  | LObj _ ps =>
      Obj (Props.mapv ref_of ps) :: flat_map (fun kv => cells (snd kv)) ps
  | _ => []
  end.

(** A prompt of trees laid out from address 0 on, each tree in its own
    objects. *)
Definition place_prompt (prompt : list value) : list located :=
  fst (fold_left (fun acc v => let l := place v (snd acc) in
                               ((fst acc ++ [fst l])%list, snd l))
         prompt ([], 0)).

Definition store_of (ls : list located) : store := flat_map cells ls.

End Store.

(** * Theorems *)

(** ** The hoisting converter *)

Module HoistingFacts.
Import JS Hoisting Prompt.

Lemma mapM_out_of_fuel {A B} (f : A -> outcome B) xs :
  mapM f xs = OutOfFuel -> exists x, In x xs /\ f x = OutOfFuel.
Proof.
  induction xs as [|x xs IH]; simpl; [discriminate|].
  destruct (f x) eqn:E; simpl; try discriminate.
  - destruct (mapM f xs) eqn:E'; simpl; try discriminate.
    intros _. destruct (IH eq_refl) as (y & Hy & Hf). eauto.
  - intros _. eauto.
Qed.

Lemma depth_obj ps m : depth (VObj ps) <= S m <-> within m ps.
Proof.
  simpl. unfold within. rewrite <- Nat.succ_le_mono, list_max_le, Forall_map.
  reflexivity.
Qed.

Lemma within_weaken m m' ps : m <= m' -> within m ps -> within m' ps.
Proof.
  intros Hm. unfold within. apply Forall_impl. intros kv H. lia.
Qed.

Lemma within_lookup m ps k v : within m ps -> lookup k ps = Some v -> depth v <= m.
Proof.
  induction 1 as [|[k' v'] ps H _ IH]; simpl; [discriminate|].
  destruct (String.eqb k k'); [intros [= <-]; exact H | exact IH].
Qed.

Lemma within_get m ps k : within m ps -> depth (get ps k) <= m.
Proof.
  intros H. unfold get. destruct (lookup k ps) eqn:E.
  - eapply within_lookup; eauto.
  - simpl. lia.
Qed.

Lemma within_set m ps k v : within m ps -> depth v <= m -> within m (set ps k v).
Proof.
  intros H Hv. induction H as [|[k' v'] ps H Hps IH]; simpl.
  - repeat constructor. exact Hv.
  - destruct (String.eqb k k'); constructor; auto.
Qed.

Lemma within_assign m tgt src : within m tgt -> within m src -> within m (assign tgt src).
Proof.
  intros Ht Hs. revert tgt Ht. unfold assign.
  induction Hs as [|kv src H _ IH]; simpl; intros tgt Ht; [exact Ht|].
  apply IH. apply within_set; assumption.
Qed.

Lemma within_filter m f ps : within m ps -> within m (filter f ps).
Proof.
  unfold within. rewrite !Forall_forall. intros H kv Hin.
  apply filter_In in Hin. apply H, Hin.
Qed.

Lemma within_indexed_from m i xs :
  Forall (fun x => depth x <= m) xs -> within m (indexed_from i xs).
Proof.
  intros H. revert i.
  induction H as [|x xs Hx _ IH]; intros i; simpl; constructor.
  - exact Hx.
  - apply IH.
Qed.

Lemma within_own_props v : within (pred (depth v)) (own_props v).
Proof.
  destruct v; simpl; try constructor.
  - apply within_indexed_from, Forall_forall. intros x Hin.
    apply in_map_iff in Hin as (c & <- & _). simpl. lia.
  - apply within_indexed_from.
    apply (Forall_map depth (fun d => d <= _)), list_max_le. reflexivity.
  - apply (Forall_map (fun kv => depth (snd kv)) (fun d => d <= _)), list_max_le.
    reflexivity.
  - apply within_indexed_from, Forall_forall. intros x Hin.
    apply in_map_iff in Hin as (c & <- & _). simpl. lia.
Qed.

Lemma depth_member v k : depth (member v k) <= pred (depth v).
Proof.
  unfold member. destruct (lookup k (own_props v)) eqn:E.
  - eapply within_lookup; [apply within_own_props | exact E].
  - destruct (String.eqb k "length"); [destruct v|]; simpl; lia.
Qed.

Lemma hoist_here_depth obj obj1 :
  hoist_here obj = Returns obj1 -> depth obj1 <= depth obj.
Proof.
  unfold hoist_here.
  set (bag := member (member obj "providerMetadata") "openaiCompatible").
  destruct (truthy bag); [|intros [= <-]; lia].
  destruct obj as [| | | | | |ps| |]; try (intros [= <-]; lia).
  set (m := list_max (map (fun kv => depth (snd kv)) ps)).
  assert (Hps : within m ps) by (apply depth_obj; simpl; fold m; lia).
  assert (Hbag : within m (own_props bag)).
  { eapply within_weaken; [|apply within_own_props].
    pose proof (depth_member (member (VObj ps) "providerMetadata") "openaiCompatible").
    pose proof (depth_member (VObj ps) "providerMetadata").
    fold bag in H. simpl in H0. fold m in H0. lia. }
  pose proof (within_assign _ _ _ Hps Hbag) as H1.
  set (ps1 := assign ps (own_props bag)) in *.
  pose proof (within_get m ps1 "providerMetadata" H1) as Hpm.
  assert (Hdel : within m (delete "providerMetadata" ps1))
    by (apply within_filter, H1).
  change (depth (VObj ps)) with (S m).
  destruct (get ps1 "providerMetadata") as [| | | | | |pm| |] eqn:Eg;
    try discriminate.
  5:{ destruct (delete "openaiCompatible" pm) eqn:Ed; intros [= <-]; apply depth_obj.
      - exact Hdel.
      - apply within_set; [exact H1|].
        rewrite <- Ed. destruct m as [|m']; [simpl in Hpm; lia|].
        apply depth_obj, within_filter, depth_obj, Hpm. }
  all: match goal with
       | |- context [own_props ?v] =>
           destruct (own_props v); intros [= <-]; apply depth_obj; assumption
       end.
Qed.

Lemma hoist_here_fuel obj : hoist_here obj <> OutOfFuel.
Proof.
  unfold hoist_here.
  destruct (truthy _); [|discriminate].
  destruct obj; try discriminate.
  destruct (get _ _); try discriminate;
    try (destruct (own_props _); discriminate).
  destruct (delete _ _); discriminate.
Qed.

Theorem hoist_enough_fuel fuel obj : depth obj < fuel -> hoist fuel obj <> OutOfFuel.
Proof.
  revert obj. induction fuel as [|fuel IH]; intros obj Hd; [lia|].
  simpl. destruct (hoist_here obj) as [obj1| |] eqn:E; simpl;
    [|discriminate|exfalso; eapply hoist_here_fuel, E].
  apply hoist_here_depth in E.
  destruct obj1 as [| | | | |items|ps| |]; try discriminate.
  - destruct (mapM (hoist fuel) items) eqn:Em; simpl; try discriminate.
    apply mapM_out_of_fuel in Em as (x & Hin & Hx).
    exfalso. revert Hx. apply IH.
    assert (Forall (fun y => depth y <= pred (depth (VArr items))) items).
    { simpl. apply (Forall_map depth (fun d => d <= _)), list_max_le. reflexivity. }
    rewrite Forall_forall in H. specialize (H x Hin). simpl in *. lia.
  - destruct (mapM _ ps) eqn:Em; simpl; try discriminate.
    apply mapM_out_of_fuel in Em as ([k x] & Hin & Hx). simpl in Hx.
    destruct (hoist fuel x) eqn:Ex; simpl in Hx; try discriminate.
    exfalso. revert Ex. apply IH.
    assert (H : within (pred (depth (VObj ps))) ps) by apply (within_own_props (VObj ps)).
    unfold within in H. rewrite Forall_forall in H. specialize (H _ Hin).
    simpl in *. lia.
Qed.

Corollary findAndHoistMetadata_total obj : findAndHoistMetadata obj <> OutOfFuel.
Proof. apply hoist_enough_fuel. lia. Qed.

Lemma member_obj ps k : member (VObj ps) k = get ps k.
Proof.
  unfold member, get. simpl. destruct (lookup k ps); [reflexivity|].
  destruct (String.eqb k "length"); reflexivity.
Qed.

Lemma mapM_pointwise {A B} (f : A -> outcome B) (g : A -> B) xs :
  Forall (fun x => f x = OutOfFuel \/ f x = Returns (g x)) xs ->
  mapM f xs = OutOfFuel \/ mapM f xs = Returns (map g xs).
Proof.
  induction 1 as [|x xs [Hx|Hx] _ [IH|IH]]; simpl; auto; rewrite Hx; simpl; auto;
    rewrite IH; simpl; auto.
Qed.

Lemma mapM_Forall2 {A B} (f : A -> outcome B) xs ys :
  Forall2 (fun x y => f x = OutOfFuel \/ f x = Returns y) xs ys ->
  mapM f xs = OutOfFuel \/ mapM f xs = Returns ys.
Proof.
  induction 1 as [|x y xs ys [Hx|Hx] _ [IH|IH]]; simpl; auto; rewrite Hx; simpl; auto;
    rewrite IH; simpl; auto.
Qed.

Lemma hoists_to_total v r : hoists_to v r -> findAndHoistMetadata v = Returns r.
Proof.
  intros H. destruct (H (S (depth v))) as [E|E]; [|exact E].
  exfalso. eapply findAndHoistMetadata_total, E.
Qed.

Lemma string_of_uint_digit d : starts_with_digit (NilZero.string_of_uint d) = true.
Proof. destruct d; reflexivity. Qed.

Lemma string_of_nat_digit i : starts_with_digit (string_of_nat i) = true.
Proof.
  unfold string_of_nat, string_of_Z.
  destruct (Z.of_nat i) eqn:E; simpl;
    [reflexivity | apply string_of_uint_digit | lia].
Qed.

Lemma lookup_indexed_from k i xs :
  starts_with_digit k = false -> lookup k (indexed_from i xs) = None.
Proof.
  intros Hk. revert i. induction xs as [|x xs IH]; intros i; simpl; [reflexivity|].
  destruct (String.eqb_spec k (string_of_nat i)) as [->|_]; [|apply IH].
  rewrite string_of_nat_digit in Hk. discriminate.
Qed.

Lemma hoist_here_free v : hoist_free v = true -> hoist_here v = Returns v.
Proof.
  intros H. unfold hoist_here.
  destruct v; try (destruct (truthy _); reflexivity).
  rewrite member_obj. simpl in H. apply andb_prop in H as [H _].
  apply negb_true_iff in H. rewrite H. reflexivity.
Qed.

Lemma hoists_to_free v : hoist_free v = true -> hoists_to v v.
Proof.
  intros H fuel. revert v H. induction fuel as [|fuel IH]; intros v H; [auto|].
  simpl. rewrite (hoist_here_free v H). simpl.
  destruct v as [| | | | |items|ps| |]; auto; simpl in H.
  - destruct (mapM_pointwise (hoist fuel) (fun x => x) items) as [E|E].
    + rewrite forallb_forall in H. apply Forall_forall. intros x Hin.
      apply IH, H, Hin.
    + rewrite E. auto.
    + rewrite E, map_id. auto.
  - apply andb_prop in H as [_ H].
    destruct (mapM_pointwise
                (fun kv => do v <- hoist fuel (snd kv); Returns (fst kv, v))
                (fun kv => kv) ps) as [E|E].
    + rewrite forallb_forall in H. apply Forall_forall. intros [k x] Hin.
      simpl. destruct (IH x (H _ Hin)) as [E|E]; rewrite E; auto.
    + rewrite E. auto.
    + rewrite E, map_id. auto.
Qed.

(** Facts on property lists *)

Lemma lookup_app k ps qs :
  lookup k (ps ++ qs)%list
  = match lookup k ps with Some v => Some v | None => lookup k qs end.
Proof.
  induction ps as [|[k' v] ps IH]; simpl; [reflexivity|].
  destruct (String.eqb k k'); [reflexivity | exact IH].
Qed.

Lemma lookup_none_iff k ps : lookup k ps = None <-> ~ In k (keys ps).
Proof.
  induction ps as [|[k' v] ps IH]; simpl; [tauto|].
  destruct (String.eqb_spec k k') as [->|Hne].
  - split; [discriminate | intros H; exfalso; apply H; auto].
  - rewrite IH. split; [intros H [E|Hin]; [congruence | tauto] | tauto].
Qed.

Lemma set_absent ps k v : lookup k ps = None -> set ps k v = (ps ++ [(k, v)])%list.
Proof.
  induction ps as [|[k' v'] ps IH]; simpl; [reflexivity|].
  destruct (String.eqb k k'); [discriminate|].
  intros H. rewrite IH by exact H. reflexivity.
Qed.

Lemma set_app_absent ps qs k v :
  lookup k ps = None -> set (ps ++ qs)%list k v = (ps ++ set qs k v)%list.
Proof.
  induction ps as [|[k' v'] ps IH]; simpl; [reflexivity|].
  destruct (String.eqb k k'); [discriminate|].
  intros H. rewrite IH by exact H. reflexivity.
Qed.

Lemma existsb_eqb_in k ks : existsb (String.eqb k) ks = true <-> In k ks.
Proof.
  rewrite existsb_exists. split.
  - intros (x & Hin & E). apply String.eqb_eq in E. subst. exact Hin.
  - intros Hin. exists k. split; [exact Hin | apply String.eqb_refl].
Qed.

Lemma distinct_NoDup ks : distinct ks = true -> NoDup ks.
Proof.
  induction ks as [|k ks IH]; simpl; [constructor|].
  intros H. apply andb_prop in H as [H1 H2]. constructor; [|auto].
  intros Hin. apply existsb_eqb_in in Hin. rewrite Hin in H1. discriminate.
Qed.

Lemma assign_disjoint tgt src :
  NoDup (keys src) -> (forall k, In k (keys src) -> lookup k tgt = None) ->
  assign tgt src = (tgt ++ src)%list.
Proof.
  unfold assign. revert tgt.
  induction src as [|[k v] src IH]; intros tgt Hnd Hdis; simpl.
  - rewrite app_nil_r. reflexivity.
  - inversion Hnd as [|? ? Hk Hnd']; subst.
    rewrite set_absent by (apply Hdis; simpl; auto).
    rewrite IH; [rewrite <- app_assoc; reflexivity | exact Hnd' |].
    intros k' Hin. rewrite lookup_app, Hdis by (simpl; auto). simpl.
    destruct (String.eqb_spec k' k) as [->|_]; [contradiction | reflexivity].
Qed.

Lemma delete_absent k ps : lookup k ps = None -> delete k ps = ps.
Proof.
  induction ps as [|[k' v] ps IH]; simpl; [reflexivity|].
  destruct (String.eqb k k'); [discriminate|]. simpl.
  intros H. rewrite IH by exact H. reflexivity.
Qed.

Lemma delete_app k ps qs : delete k (ps ++ qs)%list = (delete k ps ++ delete k qs)%list.
Proof. apply filter_app. Qed.

Lemma rest_props_app taken ps qs :
  rest_props taken (ps ++ qs)%list = (rest_props taken ps ++ rest_props taken qs)%list.
Proof. apply filter_app. Qed.

Lemma rest_props_avoids taken ps : avoids taken ps = true -> rest_props taken ps = ps.
Proof.
  unfold avoids, rest_props. induction ps as [|kv ps IH]; simpl; [reflexivity|].
  intros H. apply andb_prop in H as [H1 H2]. rewrite H1, IH by exact H2.
  reflexivity.
Qed.

Lemma avoids_lookup names ps k :
  avoids names ps = true -> In k names -> lookup k ps = None.
Proof.
  intros H Hin. apply lookup_none_iff. intros Hk.
  apply in_map_iff in Hk as (kv & <- & Hkv).
  unfold avoids in H. rewrite forallb_forall in H. specialize (H _ Hkv).
  apply negb_true_iff in H.
  assert (existsb (String.eqb (fst kv)) names = true) by (apply existsb_eqb_in, Hin).
  congruence.
Qed.

Lemma avoids_incl names names' ps :
  incl names' names -> avoids names ps = true -> avoids names' ps = true.
Proof.
  intros Hi H. unfold avoids in *. rewrite forallb_forall in *. intros kv Hin.
  specialize (H _ Hin). apply negb_true_iff in H. apply negb_true_iff.
  destruct (existsb (String.eqb (fst kv)) names') eqn:E; [|reflexivity].
  apply existsb_eqb_in in E. apply Hi in E. apply existsb_eqb_in in E. congruence.
Qed.

(** Hoisting the objects of a prompt *)

Lemma lookup_namespaces k m v :
  lookup k (namespaces m) = Some v -> exists bag, v = VObj bag.
Proof.
  induction m as [|[ns bag] m IH]; simpl; [discriminate|].
  destruct (String.eqb k ns); [intros [= <-]; eauto | exact IH].
Qed.

Lemma safeMetadata_parts names pm :
  safeMetadata names pm = true ->
  NoDup (keys (overlay pm)) /\ avoids names (overlay pm) = true
  /\ forallb (fun kv => hoist_free (snd kv)) (overlay pm) = true
  /\ forallb (fun kv => hoist_free (snd kv)) (foreign pm) = true.
Proof.
  unfold safeMetadata. intros H.
  apply andb_prop in H as [H H3]. apply andb_prop in H as [H1 H2].
  rewrite forallb_app in H3. apply andb_prop in H3 as [H3 H4].
  auto using distinct_NoDup.
Qed.

Lemma target_bag fs pm :
  lookup "providerMetadata" fs = None ->
  member (member (object fs pm) "providerMetadata") "openaiCompatible"
  = match pm with
    | Some m => get (namespaces m) "openaiCompatible"
    | None => VUndef
    end.
Proof.
  intros Hnone. unfold object. rewrite member_obj. unfold get at 1.
  rewrite lookup_app, Hnone. destruct pm as [m|]; [|reflexivity].
  apply member_obj.
Qed.

Lemma disjoint_from_object names fs v b :
  incl (keys fs) names -> In "providerMetadata" names ->
  avoids names b = true ->
  forall k, In k (keys b) ->
  lookup k (fs ++ [("providerMetadata", v)])%list = None.
Proof.
  intros Hfs Hpm Hav k Hin. apply lookup_none_iff. intros Hk.
  apply in_map_iff in Hin as (kv & <- & Hin).
  unfold avoids in Hav. rewrite forallb_forall in Hav.
  specialize (Hav _ Hin). apply negb_true_iff in Hav.
  assert (In (fst kv) names) as Hn.
  { unfold keys in Hk. rewrite map_app in Hk. apply in_app_or in Hk as [Hk|Hk].
    - apply Hfs, Hk.
    - destruct Hk as [<-|[]]. exact Hpm. }
  apply existsb_eqb_in in Hn. congruence.
Qed.

Lemma hoist_here_object names fs pm :
  incl (keys fs) names -> In "providerMetadata" names ->
  lookup "providerMetadata" fs = None ->
  safeMetadata names pm = true ->
  hoist_here (object fs pm) = Returns (hoistedObject fs pm).
Proof.
  intros Hfs Hpm Hnone Hsafe.
  apply safeMetadata_parts in Hsafe as (Hnd & Hav & _ & _).
  unfold hoist_here. rewrite (target_bag fs pm Hnone).
  unfold hoistedObject, hoistedFields, object, foreign, overlay in *.
  destruct pm as [m|]; [|reflexivity].
  destruct (lookup "openaiCompatible" (namespaces m)) as [bag|] eqn:Eoc.
  2:{ unfold get. rewrite Eoc. cbn [truthy]. rewrite app_nil_r. reflexivity. }
  destruct (lookup_namespaces _ _ _ Eoc) as (b & ->).
  replace (get (namespaces m) "openaiCompatible") with (VObj b)
    by (unfold get; rewrite Eoc; reflexivity).
  cbn [truthy own_props metadataField] in *.
  rewrite assign_disjoint;
    [|exact Hnd | apply (disjoint_from_object names); assumption].
  pose proof (avoids_lookup _ _ _ Hav Hpm) as Hb.
  unfold get. rewrite !lookup_app, Hnone. cbn [lookup String.eqb Ascii.eqb Bool.eqb].
  destruct (delete "openaiCompatible" (namespaces m)) as [|ns others] eqn:Ed.
  - rewrite !delete_app, (delete_absent _ fs Hnone), (delete_absent _ b Hb).
    cbn. rewrite app_nil_r. reflexivity.
  - rewrite <- app_assoc, set_app_absent by exact Hnone.
    cbn. reflexivity.
Qed.

Lemma hoists_to_object names fs fs' pm :
  incl (keys fs) names -> In "providerMetadata" names ->
  lookup "providerMetadata" fs = None ->
  safeMetadata names pm = true ->
  Forall2 same_keys_hoisted fs fs' ->
  hoists_to (object fs pm) (hoistedObject fs' pm).
Proof.
  intros Hfs Hpm Hnone Hsafe Hch [|fuel]; [auto|].
  simpl. rewrite (hoist_here_object names) by assumption.
  unfold hoistedObject. simpl.
  apply safeMetadata_parts in Hsafe as (_ & _ & Ho & Hf).
  match goal with
  | |- context [mapM ?f ?l] =>
      destruct (mapM_Forall2 f l (fs' ++ hoistedFields pm)%list) as [E|E];
        [|rewrite E; auto | rewrite E; auto]
  end.
  apply Forall2_app.
  - eapply Forall2_impl; [|exact Hch].
    intros [k v] [k' v'] [Hk Hv]. simpl in *. subst k'.
    destruct (Hv fuel) as [E|E]; rewrite E; auto.
  - assert (Hall : forallb (fun kv => hoist_free (snd kv)) (hoistedFields pm) = true)
      by (unfold hoistedFields; rewrite forallb_app, Ho, Hf; reflexivity).
    rewrite forallb_forall in Hall.
    induction (hoistedFields pm) as [|[k v] l IH]; constructor.
    + simpl. destruct (hoists_to_free v (Hall _ (or_introl eq_refl)) fuel) as [E|E];
        rewrite E; auto.
    + apply IH. intros x Hx. apply Hall. right. exact Hx.
Qed.

Lemma fields_hoist_free fs :
  forallb (fun kv => hoist_free (snd kv)) fs = true ->
  Forall2 same_keys_hoisted fs fs.
Proof.
  intros H. rewrite forallb_forall in H.
  induction fs as [|kv fs IH]; constructor.
  - split; [reflexivity | apply hoists_to_free, H; left; reflexivity].
  - apply IH. intros x Hx. apply H. right. exact Hx.
Qed.

Lemma hoists_to_array xs ys :
  Forall2 hoists_to xs ys -> hoists_to (VArr xs) (VArr ys).
Proof.
  intros H [|fuel]; [auto|]. simpl.
  replace (hoist_here (VArr xs)) with (Returns (VArr xs))
    by (unfold hoist_here; destruct (truthy _); reflexivity).
  simpl. destruct (mapM_Forall2 (hoist fuel) xs ys) as [E|E]; [|rewrite E; auto..].
  eapply Forall2_impl; [|exact H]. intros x y Hxy. apply Hxy.
Qed.

Lemma hoists_to_userPart p :
  safeUserPart p = true -> hoists_to (encodeUserPart p) (hoistedUserPart p).
Proof.
  intros H. apply (hoists_to_object (userPartNames p)); try exact H.
  - destruct p as [t pm|image [mt|] pm|d mt pm]; simpl;
      intros k Hk; simpl in *; tauto.
  - destruct p; simpl; tauto.
  - destruct p as [t pm|image [mt|] pm|d mt pm]; reflexivity.
  - apply fields_hoist_free.
    destruct p as [t pm|[h|b] [mt|] pm|d mt pm]; reflexivity.
Qed.

Lemma hoists_to_assistantPart p :
  safeAssistantPart p = true ->
  hoists_to (encodeAssistantPart p) (hoistedAssistantPart p).
Proof.
  intros H. apply andb_prop in H as [H Hargs].
  apply (hoists_to_object (assistantPartNames p)); try exact H.
  - destruct p; simpl; intros k Hk; simpl in *; tauto.
  - destruct p; simpl; tauto.
  - destruct p; reflexivity.
  - apply fields_hoist_free. destruct p; simpl; [reflexivity|].
    rewrite Hargs. reflexivity.
Qed.

Lemma hoists_to_toolResult p :
  safeToolResult p = true -> hoists_to (encodeToolResult p) (hoistedToolResult p).
Proof.
  intros H. apply andb_prop in H as [H Hres].
  apply (hoists_to_object toolResultNames); try exact H.
  - destruct p; simpl; intros k Hk; simpl in *; tauto.
  - simpl; tauto.
  - destruct p; reflexivity.
  - apply fields_hoist_free. destruct p; simpl. rewrite Hres. reflexivity.
Qed.

Lemma Forall2_map_hoists {A} (enc hoisted : A -> value) (safe : A -> bool) xs :
  (forall x, safe x = true -> hoists_to (enc x) (hoisted x)) ->
  forallb safe xs = true ->
  Forall2 hoists_to (map enc xs) (map hoisted xs).
Proof.
  intros H Hall. rewrite forallb_forall in Hall.
  induction xs as [|x xs IH]; simpl; constructor.
  - apply H, Hall. left. reflexivity.
  - apply IH. intros y Hy. apply Hall. right. exact Hy.
Qed.

Theorem hoists_to_message m :
  safeMessage m = true -> hoists_to (encodeMessage m) (hoistedMessage m).
Proof.
  intros H. apply andb_prop in H as [H Hparts].
  unfold encodeMessage, hoistedMessage.
  apply (hoists_to_object messageNames); try exact H.
  - destruct m; simpl; intros k Hk; simpl in *; tauto.
  - simpl; tauto.
  - destruct m; reflexivity.
  - destruct m as [c pm|ps pm|ps pm|ps pm]; simpl;
      (constructor; [split; [reflexivity | apply hoists_to_free; reflexivity]|]);
      (constructor; [split; [reflexivity|] | constructor]).
    + apply hoists_to_free. reflexivity.
    + apply hoists_to_array.
      apply (Forall2_map_hoists _ _ safeUserPart); auto using hoists_to_userPart.
    + apply hoists_to_array.
      apply (Forall2_map_hoists _ _ safeAssistantPart);
        auto using hoists_to_assistantPart.
    + apply hoists_to_array.
      apply (Forall2_map_hoists _ _ safeToolResult); auto using hoists_to_toolResult.
Qed.

Theorem hoistPrompt_safe prompt :
  forallb safeMessage prompt = true ->
  hoistPrompt (encodePrompt prompt) = Returns (map hoistedMessage prompt).
Proof.
  unfold hoistPrompt, encodePrompt.
  induction prompt as [|m prompt IH]; simpl; intros H; [reflexivity|].
  apply andb_prop in H as [Hm H].
  rewrite (hoists_to_total _ _ (hoists_to_message m Hm)). simpl.
  rewrite IH by exact H. reflexivity.
Qed.

(** Converting the hoisted prompt *)

Lemma get_app_present k fs qs v :
  lookup k fs = Some v -> get (fs ++ qs)%list k = v.
Proof. intros H. unfold get. rewrite lookup_app, H. reflexivity. Qed.

Lemma foreign_keys pm kv : In kv (foreign pm) -> fst kv = "providerMetadata".
Proof.
  unfold foreign. destruct pm as [m|]; [|intros []].
  destruct (lookup _ _).
  - destruct (delete _ _); [intros [] | intros [<-|[]]; reflexivity].
  - intros [<-|[]]; reflexivity.
Qed.

Lemma hoistedFields_avoids names taken pm :
  incl taken names -> ~ In "providerMetadata" taken ->
  safeMetadata names pm = true ->
  avoids taken (hoistedFields pm) = true.
Proof.
  intros Hi Hpm Hsafe. apply safeMetadata_parts in Hsafe as (_ & Hav & _ & _).
  unfold avoids, hoistedFields. rewrite forallb_app. apply andb_true_intro. split.
  - apply forallb_forall. intros kv Hin. rewrite (foreign_keys _ _ Hin).
    apply negb_true_iff. destruct (existsb _ taken) eqn:E; [|reflexivity].
    apply existsb_eqb_in in E. contradiction.
  - apply (avoids_incl names); assumption.
Qed.

Lemma rest_props_hoisted names taken fs pm :
  incl taken names -> ~ In "providerMetadata" taken ->
  safeMetadata names pm = true ->
  rest_props taken (fs ++ hoistedFields pm)%list
  = (rest_props taken fs ++ hoistedFields pm)%list.
Proof.
  intros Hi Hpm Hsafe. rewrite rest_props_app. f_equal.
  apply rest_props_avoids. eapply hoistedFields_avoids; eassumption.
Qed.

Lemma get_hoisted_absent names k fs pm :
  In k names -> k <> "providerMetadata" -> lookup k fs = None ->
  safeMetadata names pm = true ->
  get (fs ++ hoistedFields pm)%list k = VUndef.
Proof.
  intros Hk Hne Hnone Hsafe. unfold get. rewrite lookup_app, Hnone.
  rewrite (avoids_lookup [k] (hoistedFields pm) k); [reflexivity| |left; reflexivity].
  apply (hoistedFields_avoids names); [|intros [E|[]]; congruence|exact Hsafe].
  intros x [<-|[]]. exact Hk.
Qed.

Ltac names_incl :=
  solve [ intros ? ?; simpl in *; tauto
        | simpl; intuition discriminate ].

Lemma convertUserPart_hoisted p :
  safeUserPart p = true ->
  convertUserPart (hoistedUserPart p)
  = if isFilePart p then Throws unsupportedFile else Returns (wireUserPart p).
Proof.
  intros Hsafe. unfold safeUserPart in Hsafe.
  unfold convertUserPart, hoistedUserPart, hoistedObject.
  cbn [destructure nullish own_props bind].
  destruct p as [t pm|image mt pm|d mt pm]; cbn [userPartFields userPartMetadata] in *.
  - rewrite (get_app_present "type" _ _ (VStr "text")) by reflexivity.
    cbn [isFilePart wireUserPart].
    rewrite (get_app_present "text" _ _ (VStr t)) by reflexivity.
    rewrite (rest_props_hoisted ["type"; "text"; "providerMetadata"])
      by first [exact Hsafe | names_incl].
    reflexivity.
  - rewrite (get_app_present "type" _ _ (VStr "image")) by reflexivity.
    cbn [isFilePart wireUserPart].
    rewrite (get_app_present "image" _ _ (encodeImage image)) by reflexivity.
    rewrite (rest_props_hoisted ["type"; "image"; "mimeType"; "providerMetadata"])
      by first [exact Hsafe | names_incl].
    destruct mt as [t|].
    + rewrite (get_app_present "mimeType" _ _ (VStr t)) by reflexivity.
      destruct image as [href|data]; reflexivity.
    + rewrite (get_hoisted_absent
                 ["type"; "image"; "mimeType"; "providerMetadata"] "mimeType")
        by first [exact Hsafe | reflexivity | discriminate | simpl; tauto].
      destruct image as [href|data]; reflexivity.
  - rewrite (get_app_present "type" _ _ (VStr "file")) by reflexivity.
    reflexivity.
Qed.

Lemma mapM_convertUserPart parts :
  forallb safeUserPart parts = true ->
  mapM convertUserPart (map hoistedUserPart parts)
  = if existsb isFilePart parts then Throws unsupportedFile
    else Returns (map wireUserPart parts).
Proof.
  induction parts as [|p parts IH]; simpl; intros H; [reflexivity|].
  apply andb_prop in H as [Hp H].
  rewrite (convertUserPart_hoisted p Hp).
  destruct (isFilePart p); [reflexivity|]. simpl.
  rewrite IH by exact H. destruct (existsb isFilePart parts); reflexivity.
Qed.

Lemma member_length_array items :
  member (VArr items) "length" = VNum (Z.of_nat (List.length items)).
Proof.
  unfold member. simpl own_props. unfold indexed.
  rewrite lookup_indexed_from by reflexivity. reflexivity.
Qed.

Lemma isSingleTextPart_hoisted parts :
  isSingleTextPart (VArr (map hoistedUserPart parts))
  = Returns match parts with
            | [TextPart _ _] => true
            | _ => false
            end.
Proof.
  unfold isSingleTextPart, read. cbn [nullish bind].
  rewrite member_length_array, length_map.
  destruct parts as [|p [|q rest]].
  - reflexivity.
  - destruct p; reflexivity.
  - cbn [List.length]. rewrite !Nat2Z.inj_succ.
    destruct (Z.of_nat (List.length rest)) eqn:E; try lia.
    + destruct p; reflexivity.
    + replace (Z.succ (Z.succ (Z.pos p0))) with (Z.pos (p0 + 2)) by lia.
      destruct (p0 + 2)%positive eqn:E'; try lia; destruct p; reflexivity.
Qed.

Lemma append_assoc (a b c : string) : (a ++ b) ++ c = a ++ (b ++ c).
Proof. induction a as [|ch a IH]; simpl; [reflexivity | rewrite IH; reflexivity]. Qed.

Lemma append_empty_r (a : string) : a ++ EmptyString = a.
Proof. induction a as [|ch a IH]; simpl; [reflexivity | rewrite IH; reflexivity]. Qed.

Lemma convertAssistantPart_hoisted text calls p :
  safeAssistantPart p = true ->
  convertAssistantPart (text, calls) (hoistedAssistantPart p)
  = Returns (text ++ combinedText [p], (calls ++ wireToolCalls [p])%list).
Proof.
  intros Hsafe. apply andb_prop in Hsafe as [Hsafe _].
  unfold convertAssistantPart, read, hoistedAssistantPart, hoistedObject.
  cbn [nullish bind]. rewrite !member_obj.
  destruct p as [t pm|id name args pm];
    cbn [assistantPartFields assistantPartMetadata assistantPartNames
         own_props combinedText wireToolCalls] in *.
  - rewrite (get_app_present "type" _ _ (VStr "text")) by reflexivity.
    cbn match. rewrite (get_app_present "text" _ _ (VStr t)) by reflexivity.
    rewrite app_nil_r, append_empty_r. reflexivity.
  - rewrite (get_app_present "type" _ _ (VStr "tool-call")) by reflexivity.
    cbn match.
    rewrite (get_app_present "toolCallId" _ _ (VStr id)) by reflexivity.
    rewrite (get_app_present "toolName" _ _ (VStr name)) by reflexivity.
    rewrite (get_app_present "args" _ _ args) by reflexivity.
    rewrite (rest_props_hoisted
               ["type"; "toolCallId"; "toolName"; "args"; "providerMetadata"])
      by first [exact Hsafe | names_incl].
    rewrite append_empty_r. reflexivity.
Qed.

Lemma combinedText_cons p parts :
  combinedText (p :: parts) = combinedText [p] ++ combinedText parts.
Proof. destruct p; simpl; [rewrite append_empty_r|]; reflexivity. Qed.

Lemma wireToolCalls_cons p parts :
  wireToolCalls (p :: parts) = (wireToolCalls [p] ++ wireToolCalls parts)%list.
Proof. destruct p; reflexivity. Qed.

Lemma foldM_convertAssistantPart parts : forall text calls,
  forallb safeAssistantPart parts = true ->
  foldM convertAssistantPart (text, calls) (map hoistedAssistantPart parts)
  = Returns (text ++ combinedText parts, (calls ++ wireToolCalls parts)%list).
Proof.
  induction parts as [|p parts IH]; intros text calls H.
  - simpl. rewrite append_empty_r, app_nil_r. reflexivity.
  - simpl in H. apply andb_prop in H as [Hp H].
    cbn [map foldM]. rewrite (convertAssistantPart_hoisted _ _ _ Hp).
    cbn [bind]. rewrite IH by exact H.
    rewrite (combinedText_cons p parts), (wireToolCalls_cons p parts).
    rewrite append_assoc, <- app_assoc. reflexivity.
Qed.

Lemma convertToolResponse_hoisted pm p :
  safeToolResult p = true ->
  convertToolResponse (hoistedFields pm) (hoistedToolResult p)
  = Returns (wireToolResult pm p).
Proof.
  intros Hsafe. apply andb_prop in Hsafe as [Hsafe _].
  destruct p as [id name result ppm].
  unfold convertToolResponse, hoistedToolResult, hoistedObject, wireToolResult.
  cbn [destructure nullish own_props bind toolResultFields toolResultMetadata] in *.
  rewrite (get_app_present "toolCallId" _ _ (VStr id)) by reflexivity.
  rewrite (get_app_present "result" _ _ result) by reflexivity.
  rewrite (rest_props_hoisted toolResultNames)
    by first [exact Hsafe | names_incl].
  reflexivity.
Qed.

Ltac drop_taken pm :=
  match goal with
  | |- context [(rest_props ?t ?l ++ hoistedFields pm)%list] =>
      change (rest_props t l ++ hoistedFields pm)%list with (hoistedFields pm)
  end.

Theorem convertMessage_hoisted m :
  safeMessage m = true ->
  convertMessage (hoistedMessage m)
  = if hasFilePart m then Throws unsupportedFile else Returns (wireMessage m).
Proof.
  intros Hsafe. apply andb_prop in Hsafe as [Hsafe Hparts].
  unfold convertMessage, hoistedMessage, hoistedObject.
  cbn [destructure nullish own_props bind].
  destruct m as [c pm|parts pm|parts pm|parts pm];
    cbn [messageMetadata hasFilePart wireMessage] in *.
  - rewrite (get_app_present "role" _ _ (VStr "system")) by reflexivity.
    rewrite (get_app_present "content" _ _ (VStr c)) by reflexivity.
    rewrite (rest_props_hoisted messageNames) by first [exact Hsafe | names_incl].
    reflexivity.
  - rewrite (get_app_present "role" _ _ (VStr "user")) by reflexivity.
    rewrite (get_app_present "content" _ _ (VArr (map hoistedUserPart parts)))
      by reflexivity.
    rewrite (rest_props_hoisted messageNames) by first [exact Hsafe | names_incl].
    drop_taken pm.
    cbn match. rewrite isSingleTextPart_hoisted. cbn [bind].
    assert (Hmulti :
      (do parts' <- array_map convertUserPart (VArr (map hoistedUserPart parts));
       Returns [VObj (assign [("role", VStr "user"); ("content", parts')]
                        (hoistedFields pm))])
      = if existsb isFilePart parts then Throws unsupportedFile
        else Returns [VObj (assign [("role", VStr "user");
                                    ("content", VArr (map wireUserPart parts))]
                              (hoistedFields pm))]).
    { unfold array_map. rewrite (mapM_convertUserPart parts Hparts).
      destruct (existsb isFilePart parts); reflexivity. }
    destruct parts as [|[t ppm|image mt ppm|d mt ppm] [|q rest]];
      try exact Hmulti.
    clear Hmulti. cbn [map]. unfold member. cbn [own_props indexed indexed_from].
    replace (lookup "0" [(string_of_nat 0, hoistedUserPart (TextPart t ppm))])
      with (Some (hoistedUserPart (TextPart t ppm))) by reflexivity.
    unfold hoistedUserPart, hoistedObject.
    cbn [own_props userPartFields userPartMetadata existsb isFilePart orb].
    rewrite (get_app_present "text" _ _ (VStr t)) by reflexivity.
    simpl in Hparts. rewrite andb_true_r in Hparts.
    rewrite (rest_props_hoisted ["type"; "text"; "providerMetadata"])
      by first [exact Hparts | names_incl].
    reflexivity.
  - rewrite (get_app_present "role" _ _ (VStr "assistant")) by reflexivity.
    rewrite (get_app_present "content" _ _ (VArr (map hoistedAssistantPart parts)))
      by reflexivity.
    rewrite (rest_props_hoisted messageNames) by first [exact Hsafe | names_incl].
    cbn [iterate bind]. cbn match.
    cbn [iterate bind].
    rewrite (foldM_convertAssistantPart parts EmptyString [] Hparts).
    cbn [bind String.append app].
    destruct (wireToolCalls parts); reflexivity.
  - rewrite (get_app_present "role" _ _ (VStr "tool")) by reflexivity.
    rewrite (get_app_present "content" _ _ (VArr (map hoistedToolResult parts)))
      by reflexivity.
    rewrite (rest_props_hoisted messageNames) by first [exact Hsafe | names_incl].
    drop_taken pm. cbn match. cbn [iterate bind].
    clear Hsafe. induction parts as [|p parts IH]; [reflexivity|].
    simpl in Hparts. apply andb_prop in Hparts as [Hp Hparts].
    cbn [map mapM].
    rewrite (convertToolResponse_hoisted pm p Hp). cbn [bind].
    rewrite (IH Hparts). reflexivity.
Qed.

Lemma convertMessages_hoisted prompt :
  forallb safeMessage prompt = true ->
  convertMessages (map hoistedMessage prompt)
  = if existsb hasFilePart prompt then Throws unsupportedFile
    else Returns (flat_map wireMessage prompt).
Proof.
  unfold convertMessages.
  induction prompt as [|m prompt IH]; simpl; intros H; [reflexivity|].
  apply andb_prop in H as [Hm H]. specialize (IH H).
  rewrite (convertMessage_hoisted m Hm).
  destruct (hasFilePart m); [reflexivity|]. simpl.
  destruct (mapM convertMessage (map hoistedMessage prompt)) as [out| |];
    simpl in *; destruct (existsb hasFilePart prompt); try discriminate.
  - injection IH as ->. reflexivity.
  - exact IH.
Qed.

(** The converter on a well-formed prompt whose overlays are safe: it fails
    on the first file part and otherwise returns the wire messages of the
    spec. *)
Theorem convert_safe_prompt prompt :
  forallb safeMessage prompt = true ->
  convertToOpenAICompatibleChatMessages (encodePrompt prompt)
  = if existsb hasFilePart prompt then Throws unsupportedFile
    else Returns (flat_map wireMessage prompt).
Proof.
  intros H. unfold convertToOpenAICompatibleChatMessages.
  rewrite (hoistPrompt_safe prompt H). simpl.
  apply convertMessages_hoisted, H.
Qed.

(** Reading a merged object *)

Lemma lookup_set k ps k' v :
  lookup k (set ps k' v) = if String.eqb k k' then Some v else lookup k ps.
Proof.
  induction ps as [|[k0 v0] ps IH]; simpl.
  - destruct (String.eqb k k'); reflexivity.
  - destruct (String.eqb_spec k' k0) as [->|Hne]; simpl.
    + destruct (String.eqb k k0); reflexivity.
    + destruct (String.eqb_spec k k0) as [->|Hne'].
      * destruct (String.eqb_spec k0 k') as [E|_]; [congruence | reflexivity].
      * exact IH.
Qed.

Lemma lookup_assign_absent k base ext :
  lookup k ext = None -> lookup k (assign base ext) = lookup k base.
Proof.
  unfold assign. revert base.
  induction ext as [|[k' v] ext IH]; intros base; simpl; [reflexivity|].
  destruct (String.eqb_spec k k') as [->|Hne]; [discriminate|].
  intros H. rewrite IH by exact H. rewrite lookup_set.
  destruct (String.eqb_spec k k'); [contradiction | reflexivity].
Qed.

Lemma lookup_assign_present k v base ext :
  NoDup (keys ext) -> lookup k ext = Some v ->
  lookup k (assign base ext) = Some v.
Proof.
  unfold assign. revert base.
  induction ext as [|[k' v'] ext IH]; intros base Hnd; simpl; [discriminate|].
  inversion Hnd as [|? ? Hk Hnd']; subst.
  destruct (String.eqb_spec k k') as [->|Hne].
  - intros [= ->].
    change (lookup k' (assign (set base k' v) ext) = Some v).
    rewrite lookup_assign_absent by (apply lookup_none_iff; exact Hk).
    rewrite lookup_set, String.eqb_refl. reflexivity.
  - intros H. apply IH; assumption.
Qed.

Lemma member_assign_absent k base ext :
  lookup k ext = None -> member (VObj (assign base ext)) k = get base k.
Proof.
  intros H. rewrite member_obj. unfold get.
  rewrite lookup_assign_absent by exact H. reflexivity.
Qed.

Lemma member_assign_present k v base ext :
  NoDup (keys ext) -> lookup k ext = Some v ->
  member (VObj (assign base ext)) k = v.
Proof.
  intros Hnd H. rewrite member_obj. unfold get.
  rewrite (lookup_assign_present k v) by assumption. reflexivity.
Qed.

Lemma hoistedFields_NoDup names pm :
  In "providerMetadata" names -> safeMetadata names pm = true ->
  NoDup (keys (hoistedFields pm)).
Proof.
  intros Hpm Hsafe. apply safeMetadata_parts in Hsafe as (Hnd & Hav & _ & _).
  pose proof (avoids_lookup _ _ _ Hav Hpm) as Hnone.
  apply lookup_none_iff in Hnone.
  unfold hoistedFields, keys. rewrite map_app.
  assert (Hf : map fst (foreign pm) = [] \/ map fst (foreign pm) = ["providerMetadata"]).
  { unfold foreign. destruct pm as [m|]; [|auto].
    destruct (lookup _ _); [destruct (delete _ _)|]; auto. }
  destruct Hf as [-> | ->]; simpl; [exact Hnd|].
  constructor; assumption.
Qed.


Lemma lookup_hoistedFields_overlay pm k :
  k <> "providerMetadata" ->
  lookup k (hoistedFields pm) = lookup k (overlay pm).
Proof.
  intros Hne. unfold hoistedFields. rewrite lookup_app.
  replace (lookup k (foreign pm)) with (@None value); [reflexivity|].
  symmetry. apply lookup_none_iff. intros Hin.
  apply in_map_iff in Hin as (kv & <- & Hin).
  apply foreign_keys in Hin. contradiction.
Qed.




(** ** The claims on the hoisting converter *)

Lemma hoistPrompt_hoist_free prompt :
  forallb hoist_free prompt = true -> hoistPrompt prompt = Returns prompt.
Proof.
  unfold hoistPrompt.
  induction prompt as [|m prompt IH]; simpl; intros H; [reflexivity|].
  apply andb_prop in H as [Hm H].
  rewrite (hoists_to_total _ _ (hoists_to_free m Hm)). simpl.
  rewrite IH by exact H. reflexivity.
Qed.

(** C1: the call leaves the caller's prompt changed.  [hoistPrompt] is the
    prompt as the call leaves it: for a user message that carries an
    [openaiCompatible] overlay it differs from the prompt passed in (the
    overlay's key now sits on the message, [providerMetadata] is gone),
    while the call itself returns normally. *)
Theorem hoisting_rewrites_the_callers_prompt :
  let part := VObj [("type", VStr "text"); ("text", VStr "hi")] in
  let prompt :=
    [VObj [("role", VStr "user");
           ("content", VArr [part]);
           ("providerMetadata",
            VObj [("openaiCompatible", VObj [("name", VStr "alice")])])]] in
  let after :=
    [VObj [("role", VStr "user");
           ("content", VArr [part]);
           ("name", VStr "alice")]] in
  convertToOpenAICompatibleChatMessages prompt
  = Returns [VObj [("role", VStr "user"); ("content", VStr "hi");
                   ("name", VStr "alice")]]
  /\ hoistPrompt prompt = Returns after
  /\ after <> prompt.
Proof.
  cbv zeta. split; [reflexivity|]. split; [reflexivity|]. discriminate.
Qed.

(** C2: in a tool message whose part and message overlays both set
    [priority], the wire message gets the message's value, not the
    part's.  The user path with one text part, on the same two overlays,
    gives the part's value, and so does the converter that reads the
    metadata, on the same tool message. *)
Theorem tool_message_overlay_overrides_part_overlay :
  let overlay n :=
    ("providerMetadata", VObj [("openaiCompatible", VObj [("priority", VNum n)])]) in
  let toolMessage :=
    VObj [("role", VStr "tool");
          ("content",
           VArr [VObj [("type", VStr "tool-result"); ("toolCallId", VStr "call-1");
                       ("toolName", VStr "f"); ("result", VObj [("x", VNum 1)]);
                       overlay 2%Z]]);
          overlay 1%Z] in
  let userMessage :=
    VObj [("role", VStr "user");
          ("content",
           VArr [VObj [("type", VStr "text"); ("text", VStr "hi"); overlay 2%Z]]);
          overlay 1%Z] in
  convertToOpenAICompatibleChatMessages [toolMessage]
  = Returns [VObj [("role", VStr "tool"); ("tool_call_id", VStr "call-1");
                   ("content", JSON_stringify (VObj [("x", VNum 1)]));
                   ("priority", VNum 1)]]
  /\ convertToOpenAICompatibleChatMessages [userMessage]
     = Returns [VObj [("role", VStr "user"); ("content", VStr "hi");
                      ("priority", VNum 2)]]
  /\ Reading.convertToOpenAICompatibleChatMessages [toolMessage]
     = Returns [VObj [("role", VStr "tool"); ("tool_call_id", VStr "call-1");
                      ("content", JSON_stringify (VObj [("x", VNum 1)]));
                      ("priority", VNum 2)]].
Proof. cbv zeta. split; [|split]; reflexivity. Qed.

(** C3: a single text part whose overlay has a key [text] loses its text:
    the wire message's content is the overlay's value, and the overlay's
    key is not merged.  The converter that reads the metadata gives the
    collapsed form merged with the overlay. *)
Theorem single_text_part_overlay_replaces_the_text :
  let prompt :=
    [VObj [("role", VStr "user");
           ("content",
            VArr [VObj [("type", VStr "text"); ("text", VStr "hi");
                        ("providerMetadata",
                         VObj [("openaiCompatible",
                                VObj [("text", VStr "X")])])]])]] in
  convertToOpenAICompatibleChatMessages prompt
  = Returns [VObj [("role", VStr "user"); ("content", VStr "X")]]
  /\ Reading.convertToOpenAICompatibleChatMessages prompt
     = Returns [VObj [("role", VStr "user"); ("content", VStr "hi");
                      ("text", VStr "X")]].
Proof. cbv zeta. split; reflexivity. Qed.

(** C6: a file part whose overlay has a key [type] is not refused: the
    hoisting overwrites the part's own [type], and the call returns a wire
    message.  The converter that reads the metadata refuses the part. *)
Theorem file_part_with_type_overlay_is_converted :
  let prompt :=
    [VObj [("role", VStr "user");
           ("content",
            VArr [VObj [("type", VStr "file"); ("data", VStr "JVBERi0=");
                        ("mimeType", VStr "application/pdf");
                        ("providerMetadata",
                         VObj [("openaiCompatible",
                                VObj [("type", VStr "text")])])]])]] in
  convertToOpenAICompatibleChatMessages prompt
  = Returns [VObj [("role", VStr "user"); ("content", VUndef);
                   ("data", VStr "JVBERi0=");
                   ("mimeType", VStr "application/pdf")]]
  /\ Reading.convertToOpenAICompatibleChatMessages prompt
     = Throws unsupportedFile.
Proof. cbv zeta. split; reflexivity. Qed.

(** *** What holds of the tool, single-text and file cases when the
    overlays are safe *)

(** On the tree of a tool message with N parts: N wire messages in part
    order, each the part's [role]/[tool_call_id]/[content] merged with what
    the part carries and then with what the message carries. *)
Lemma tool_message_fans_out parts pm :
  safeMessage (Tool parts pm) = true ->
  convertToOpenAICompatibleChatMessages (encodePrompt [Tool parts pm])
  = Returns (map (wireToolResult pm) parts)
  /\ List.length (map (wireToolResult pm) parts) = List.length parts.
Proof.
  intros H. split; [|apply length_map].
  rewrite convert_safe_prompt by (simpl; rewrite H; reflexivity).
  simpl. rewrite app_nil_r. reflexivity.
Qed.

(** On the trees of a prompt, a user message of one text part collapses to
    a string content, merged with what the message carries and then with
    what the part carries: a key of the part's overlay wins over the same
    key of the message's. *)
Lemma single_text_part_collapses before after text ppm pm :
  let m := User [TextPart text ppm] pm in
  forallb safeMessage (before ++ m :: after) = true ->
  existsb hasFilePart (before ++ after) = false ->
  let w := VObj (assign
                   (assign [("role", VStr "user"); ("content", VStr text)]
                      (hoistedFields pm))
                   (hoistedFields ppm)) in
  convertToOpenAICompatibleChatMessages (encodePrompt (before ++ m :: after))
  = Returns (flat_map wireMessage before ++ w :: flat_map wireMessage after)%list
  /\ (forall k v, lookup k (overlay ppm) = Some v -> member w k = v)
  /\ (forall k v, lookup k (overlay pm) = Some v ->
                  lookup k (overlay ppm) = None -> member w k = v).
Proof.
  intros m Hsafe Hfile w. split; [|split].
  - rewrite convert_safe_prompt by exact Hsafe.
    rewrite existsb_app in *. simpl.
    apply orb_false_iff in Hfile as [-> ->]. simpl.
    rewrite flat_map_app. reflexivity.
  - rewrite forallb_app in Hsafe. apply andb_prop in Hsafe as [_ Hsafe].
    simpl in Hsafe. apply andb_prop in Hsafe as [Hm _].
    apply andb_prop in Hm as [_ Hp]. simpl in Hp. rewrite andb_true_r in Hp.
    unfold safeUserPart in Hp. cbn [userPartMetadata userPartNames] in Hp.
    intros k v Hk. unfold w.
    assert (Hne : k <> "providerMetadata").
    { intros ->. apply safeMetadata_parts in Hp as (_ & Hav & _ & _).
      rewrite (avoids_lookup _ _ "providerMetadata" Hav) in Hk
        by (simpl; tauto). discriminate. }
    apply member_assign_present.
    + apply (hoistedFields_NoDup ["type"; "text"; "providerMetadata"]);
        [simpl; tauto | exact Hp].
    + rewrite lookup_hoistedFields_overlay by exact Hne. exact Hk.
  - rewrite forallb_app in Hsafe. apply andb_prop in Hsafe as [_ Hsafe].
    simpl in Hsafe. apply andb_prop in Hsafe as [Hm _].
    apply andb_prop in Hm as [Hpm _]. unfold m in Hpm. cbn [messageMetadata] in Hpm.
    intros k v Hk Hnone. unfold w.
    assert (Hne : k <> "providerMetadata").
    { intros ->. apply safeMetadata_parts in Hpm as (_ & Hav & _ & _).
      rewrite (avoids_lookup _ _ "providerMetadata" Hav) in Hk
        by (simpl; tauto). discriminate. }
    rewrite member_assign_absent
      by (rewrite lookup_hoistedFields_overlay by exact Hne; exact Hnone).
    unfold get. rewrite (lookup_assign_present k v); [reflexivity| |].
    + apply (hoistedFields_NoDup messageNames); [simpl; tauto | exact Hpm].
    + rewrite lookup_hoistedFields_overlay by exact Hne. exact Hk.
Qed.

(** A conversation with a file part in a user message is refused. *)
Theorem file_part_is_refused prompt :
  forallb safeMessage prompt = true ->
  existsb hasFilePart prompt = true ->
  convertToOpenAICompatibleChatMessages (encodePrompt prompt)
  = Throws unsupportedFile
  /\ Embed.isRetryable (Embed.Exception unsupportedFile) = false.
Proof.
  intros Hsafe Hfile. rewrite convert_safe_prompt by exact Hsafe.
  rewrite Hfile. split; reflexivity.
Qed.

(** *** Assistant messages *)






(** *** User messages of several parts *)



(** *** Namespaces other than the target one *)






(** *** More on the converter *)

Lemma file_part_is_refused_witness :
  let prompt :=
    [System "be brief" None;
     User [TextPart "see" None; FilePart "JVBERi0=" "application/pdf" None] None] in
  forallb safeMessage prompt = true
  /\ existsb hasFilePart prompt = true
  /\ convertToOpenAICompatibleChatMessages (encodePrompt prompt)
     = Throws unsupportedFile.
Proof.
  cbv zeta. split; [reflexivity|]. split; [reflexivity|].
  refine (proj1 (file_part_is_refused
                   [System "be brief" None;
                    User [TextPart "see" None;
                          FilePart "JVBERi0=" "application/pdf" None] None]
                   _ _)); reflexivity.
Defined.

Lemma hoistPrompt_hoist_free_witness :
  let prompt :=
    [VObj [("role", VStr "user");
           ("content", VArr [VObj [("type", VStr "text"); ("text", VStr "hi")]]);
           ("providerMetadata",
            VObj [("anthropic", VObj [("cacheControl", VStr "ephemeral")])])]] in
  forallb hoist_free prompt = true
  /\ hoistPrompt prompt = Returns prompt.
Proof.
  cbv zeta. split; [reflexivity|]. apply hoistPrompt_hoist_free. reflexivity.
Defined.

(** [findAndHoistMetadata] returns or raises on every value: the fuel it is
    given is enough. *)
Theorem findAndHoistMetadata_terminates obj :
  exists r, findAndHoistMetadata obj = Returns r
            \/ findAndHoistMetadata obj = Throws TypeError.
Proof.
  pose proof (findAndHoistMetadata_total obj) as H.
  unfold findAndHoistMetadata in *.
  assert (Hexn : forall fuel v e, hoist fuel v = Throws e -> e = TypeError).
  { induction fuel as [|fuel IH]; intros v e; simpl; [discriminate|].
    assert (Hhere : forall e', hoist_here v = Throws e' -> e' = TypeError).
    { unfold hoist_here. intros e'. destruct (truthy _); [|discriminate].
      destruct v; try discriminate.
      destruct (get _ _); try (intros [= <-]; reflexivity);
        try (destruct (own_props _); discriminate).
      destruct (delete _ _); discriminate. }
    destruct (hoist_here v) as [v1|e1|] eqn:E; simpl;
      [|intros [= <-]; apply Hhere; reflexivity | discriminate].
    assert (HmapM : forall (l : list value) e0,
              mapM (hoist fuel) l = Throws e0 -> e0 = TypeError).
    { induction l as [|x l IHl]; simpl; intros e0; [discriminate|].
      destruct (hoist fuel x) eqn:Ex; simpl;
        [|intros [= <-]; eapply IH; exact Ex | discriminate].
      destruct (mapM (hoist fuel) l) eqn:El; simpl; try discriminate.
      intros [= <-]. apply IHl. reflexivity. }
    assert (HmapP : forall (l : props) e0,
              mapM (fun kv => do x <- hoist fuel (snd kv); Returns (fst kv, x)) l
              = Throws e0 -> e0 = TypeError).
    { induction l as [|[k x] l IHl]; simpl; intros e0; [discriminate|].
      destruct (hoist fuel x) eqn:Ex; simpl;
        [|intros [= <-]; eapply IH; exact Ex | discriminate].
      destruct (mapM _ l) eqn:El; simpl; try discriminate.
      intros [= <-]. apply IHl. reflexivity. }
    destruct v1; try discriminate.
    - destruct (mapM (hoist fuel) items) eqn:Em; simpl; try discriminate.
      intros [= <-]. eapply HmapM. exact Em.
    - destruct (mapM _ props0) eqn:Em; simpl; try discriminate.
      intros [= <-]. eapply HmapP. exact Em. }
  destruct (hoist (S (depth obj)) obj) as [r|e|] eqn:E.
  - exists r. left. reflexivity.
  - exists obj. right. rewrite (Hexn _ _ _ E). reflexivity.
  - contradiction.
Qed.

End HoistingFacts.

(** ** The converter that reads the metadata *)

Module ReadingFacts.
Import JS Prompt.
Import HoistingFacts.

Lemma member_field k v fs pm :
  lookup k fs = Some v -> member (object fs pm) k = v.
Proof.
  intros H. unfold object. rewrite member_obj. apply get_app_present, H.
Qed.

Lemma getOpenAIMetadata_object fs pm :
  lookup "providerMetadata" fs = None ->
  own_props (Reading.getOpenAIMetadata (object fs pm)) = overlay pm.
Proof.
  intros Hnone. unfold Reading.getOpenAIMetadata.
  rewrite (target_bag fs pm Hnone). unfold overlay.
  destruct pm as [m|]; [|reflexivity].
  unfold get. destruct (lookup "openaiCompatible" (namespaces m)) as [bag|] eqn:E;
    [|reflexivity].
  destruct (lookup_namespaces _ _ _ E) as (b & ->). reflexivity.
Qed.

Lemma object_not_nullish fs pm : nullish (object fs pm) = false.
Proof. reflexivity. Qed.

Lemma convertUserPart_reads p :
  Reading.convertUserPart (encodeUserPart p)
  = if isFilePart p then Throws Hoisting.unsupportedFile
    else Returns (readWireUserPart p).
Proof.
  unfold Reading.convertUserPart, encodeUserPart, read.
  rewrite object_not_nullish. cbn [bind].
  destruct p as [t pm|image mt pm|d mt pm];
    cbn [userPartFields userPartMetadata isFilePart readWireUserPart].
  - rewrite (member_field "type" (VStr "text")) by reflexivity.
    rewrite (member_field "text" (VStr t)) by reflexivity.
    rewrite getOpenAIMetadata_object by reflexivity. reflexivity.
  - rewrite (member_field "type" (VStr "image")) by reflexivity.
    rewrite (member_field "image" (encodeImage image)) by reflexivity.
    rewrite getOpenAIMetadata_object by (destruct mt; reflexivity).
    destruct mt as [t|].
    + rewrite (member_field "mimeType" (VStr t)) by reflexivity.
      destruct image; reflexivity.
    + replace (member (object _ pm) "mimeType") with VUndef;
        [destruct image; reflexivity|].
      unfold object. rewrite member_obj. unfold get. rewrite lookup_app.
      destruct pm; reflexivity.
  - rewrite (member_field "type" (VStr "file")) by reflexivity. reflexivity.
Qed.

Lemma mapM_convertUserPart_reads parts :
  mapM Reading.convertUserPart (map encodeUserPart parts)
  = if existsb isFilePart parts then Throws Hoisting.unsupportedFile
    else Returns (map readWireUserPart parts).
Proof.
  induction parts as [|p parts IH]; simpl; [reflexivity|].
  rewrite convertUserPart_reads. destruct (isFilePart p); [reflexivity|]. simpl.
  rewrite IH. destruct (existsb isFilePart parts); reflexivity.
Qed.

Lemma isSingleTextPart_encoded parts :
  Hoisting.isSingleTextPart (VArr (map encodeUserPart parts))
  = Returns match parts with
            | [TextPart _ _] => true
            | _ => false
            end.
Proof.
  unfold Hoisting.isSingleTextPart, read. cbn [nullish bind].
  rewrite member_length_array, length_map.
  destruct parts as [|p [|q rest]].
  - reflexivity.
  - destruct p as [t pm|image [mt|] pm|d mt pm]; reflexivity.
  - cbn [List.length]. rewrite !Nat2Z.inj_succ.
    destruct (Z.of_nat (List.length rest)) eqn:E; try lia.
    + destruct p; reflexivity.
    + replace (Z.succ (Z.succ (Z.pos p0))) with (Z.pos (p0 + 2)) by lia.
      destruct (p0 + 2)%positive eqn:E'; try lia; destruct p; reflexivity.
Qed.

Lemma convertAssistantPart_reads text calls p :
  Reading.convertAssistantPart (text, calls) (encodeAssistantPart p)
  = Returns (text ++ combinedText [p], (calls ++ readWireToolCalls [p])%list).
Proof.
  unfold Reading.convertAssistantPart, encodeAssistantPart, read.
  rewrite object_not_nullish. cbn [bind].
  rewrite getOpenAIMetadata_object by (destruct p; reflexivity).
  destruct p as [t pm|id name args pm];
    cbn [assistantPartFields assistantPartMetadata combinedText readWireToolCalls].
  - rewrite (member_field "type" (VStr "text")) by reflexivity.
    rewrite (member_field "text" (VStr t)) by reflexivity.
    cbn match. rewrite app_nil_r, append_empty_r. reflexivity.
  - rewrite (member_field "type" (VStr "tool-call")) by reflexivity.
    rewrite (member_field "toolCallId" (VStr id)) by reflexivity.
    rewrite (member_field "toolName" (VStr name)) by reflexivity.
    rewrite (member_field "args" args) by reflexivity.
    cbn match. rewrite append_empty_r. reflexivity.
Qed.

Lemma readWireToolCalls_cons p parts :
  readWireToolCalls (p :: parts)
  = (readWireToolCalls [p] ++ readWireToolCalls parts)%list.
Proof. destruct p; reflexivity. Qed.

Lemma foldM_convertAssistantPart_reads parts : forall text calls,
  Hoisting.foldM Reading.convertAssistantPart (text, calls)
    (map encodeAssistantPart parts)
  = Returns (text ++ combinedText parts, (calls ++ readWireToolCalls parts)%list).
Proof.
  induction parts as [|p parts IH]; intros text calls.
  - simpl. rewrite append_empty_r, app_nil_r. reflexivity.
  - cbn [map Hoisting.foldM]. rewrite convertAssistantPart_reads.
    cbn [bind]. rewrite IH.
    rewrite (combinedText_cons p parts), (readWireToolCalls_cons p parts).
    rewrite append_assoc, <- app_assoc. reflexivity.
Qed.

Lemma convertToolResponse_reads p :
  Reading.convertToolResponse (encodeToolResult p)
  = Returns (readWireToolResult p).
Proof.
  destruct p as [id name result pm].
  unfold Reading.convertToolResponse, encodeToolResult, destructure.
  rewrite object_not_nullish. cbn [bind].
  rewrite getOpenAIMetadata_object by reflexivity.
  unfold object. cbn [own_props toolResultFields toolResultMetadata].
  rewrite (get_app_present "toolCallId" _ _ (VStr id)) by reflexivity.
  rewrite (get_app_present "result" _ _ result) by reflexivity.
  reflexivity.
Qed.

Theorem convertMessage_reads m :
  Reading.convertMessage (encodeMessage m)
  = if hasFilePart m then Throws Hoisting.unsupportedFile
    else Returns (readWireMessage m).
Proof.
  unfold Reading.convertMessage, encodeMessage, destructure.
  rewrite object_not_nullish. cbn [bind].
  rewrite getOpenAIMetadata_object by (destruct m; reflexivity).
  unfold object. cbn [own_props].
  destruct m as [c pm|parts pm|parts pm|parts pm];
    cbn [messageFields messageMetadata hasFilePart readWireMessage].
  - rewrite (get_app_present "role" _ _ (VStr "system")) by reflexivity.
    rewrite (get_app_present "content" _ _ (VStr c)) by reflexivity.
    reflexivity.
  - rewrite (get_app_present "role" _ _ (VStr "user")) by reflexivity.
    rewrite (get_app_present "content" _ _ (VArr (map encodeUserPart parts)))
      by reflexivity.
    cbn match. rewrite isSingleTextPart_encoded. cbn [bind].
    assert (Hmulti :
      (do parts' <- Hoisting.array_map Reading.convertUserPart
                      (VArr (map encodeUserPart parts));
       Returns [VObj (assign [("role", VStr "user"); ("content", parts')]
                        (overlay pm))])
      = if existsb isFilePart parts then Throws Hoisting.unsupportedFile
        else Returns [VObj (assign [("role", VStr "user");
                                    ("content", VArr (map readWireUserPart parts))]
                              (overlay pm))]).
    { unfold Hoisting.array_map. rewrite mapM_convertUserPart_reads.
      destruct (existsb isFilePart parts); reflexivity. }
    destruct parts as [|[t ppm|image mt ppm|d mt ppm] [|q rest]];
      try exact Hmulti.
    clear Hmulti. cbn [map].
    replace (member (VArr [encodeUserPart (TextPart t ppm)]) "0")
      with (encodeUserPart (TextPart t ppm)) by reflexivity.
    unfold encodeUserPart. cbn [userPartFields userPartMetadata].
    rewrite (member_field "text" (VStr t)) by reflexivity.
    rewrite getOpenAIMetadata_object by reflexivity. reflexivity.
  - rewrite (get_app_present "role" _ _ (VStr "assistant")) by reflexivity.
    rewrite (get_app_present "content" _ _ (VArr (map encodeAssistantPart parts)))
      by reflexivity.
    cbn match. cbn [Hoisting.iterate bind].
    rewrite (foldM_convertAssistantPart_reads parts EmptyString []).
    cbn [bind String.append app].
    destruct (readWireToolCalls parts); reflexivity.
  - rewrite (get_app_present "role" _ _ (VStr "tool")) by reflexivity.
    rewrite (get_app_present "content" _ _ (VArr (map encodeToolResult parts)))
      by reflexivity.
    cbn match. cbn [Hoisting.iterate bind].
    induction parts as [|p parts IH]; [reflexivity|].
    cbn [map mapM]. rewrite convertToolResponse_reads. cbn [bind].
    rewrite IH. reflexivity.
Qed.

(** The converter that reads the metadata, on every prompt of the prompt
    types: it fails on the first file part and otherwise returns the wire
    messages above.  No condition on the overlays is needed. *)
Theorem convert_reads prompt :
  Reading.convertToOpenAICompatibleChatMessages (encodePrompt prompt)
  = if existsb hasFilePart prompt then Throws Hoisting.unsupportedFile
    else Returns (flat_map readWireMessage prompt).
Proof.
  unfold Reading.convertToOpenAICompatibleChatMessages, encodePrompt.
  induction prompt as [|m prompt IH]; simpl; [reflexivity|].
  rewrite convertMessage_reads.
  destruct (hasFilePart m); [reflexivity|]. simpl.
  destruct (mapM Reading.convertMessage (map encodeMessage prompt)) as [out| |];
    simpl in *; destruct (existsb hasFilePart prompt); try discriminate.
  - injection IH as ->. reflexivity.
  - exact IH.
Qed.

(** In this variant a file part in a user message is refused whatever the
    overlays. *)
Corollary file_part_is_refused_reading prompt :
  existsb hasFilePart prompt = true ->
  Reading.convertToOpenAICompatibleChatMessages (encodePrompt prompt)
  = Throws Hoisting.unsupportedFile.
Proof. intros H. rewrite convert_reads, H. reflexivity. Qed.

Lemma file_part_is_refused_reading_witness :
  let prompt :=
    [User [FilePart "JVBERi0=" "application/pdf"
             (Some [("openaiCompatible", [("type", VStr "text")])])] None] in
  existsb hasFilePart prompt = true
  /\ Reading.convertToOpenAICompatibleChatMessages (encodePrompt prompt)
     = Throws Hoisting.unsupportedFile.
Proof.
  cbv zeta. split; [reflexivity|].
  apply file_part_is_refused_reading. reflexivity.
Defined.

(** The converter that reads the metadata returns, for a prompt without
    file parts, one wire message per system, user and assistant message
    and one per tool result, with only the [openaiCompatible] bag merged
    in. *)
Theorem reading_converter_on_prompts prompt :
  Reading.convertToOpenAICompatibleChatMessages (encodePrompt prompt)
  = if existsb hasFilePart prompt then Throws Hoisting.unsupportedFile
    else Returns (flat_map readWireMessage prompt).
Proof. exact (convert_reads prompt). Qed.

End ReadingFacts.

(** ** The claims on [embed] *)

Module EmbedFacts.
Import Embed.

Section facts.

Context {VALUE EMBEDDING METADATA RESPONSE : Type}.
Context {SIGNAL HEADERS OPTIONS TELEMETRY PROVIDER : Type}.

Let Model :=
  EmbeddingModel VALUE EMBEDDING METADATA RESPONSE SIGNAL HEADERS OPTIONS PROVIDER.
Let World := world VALUE SIGNAL HEADERS OPTIONS PROVIDER.
Let Result := EmbedResult VALUE EMBEDDING METADATA RESPONSE.

(** C8: for a model whose [specificationVersion] is not [v2], [embed]
    rejects with [UnsupportedModelVersionError] and leaves the world as it
    was: no event is recorded (no retries prepared, no span started,
    [doEmbed] not called) and the provider has not moved. *)
Theorem embed_rejects_other_versions
    (model : Model) (v : VALUE) (opts : option OPTIONS)
    (maxRetriesArg : option nat) (signal : option SIGNAL)
    (hdrs : option HEADERS) (telemetry : option TELEMETRY) (w : World) :
  specificationVersion model <> "v2" ->
  embed model v opts maxRetriesArg signal hdrs telemetry w
  = (Rejected (UnsupportedModelVersionError (specificationVersion model)
                 (provider model) (modelId model)),
     w).
Proof.
  intros Hv. unfold embed.
  destruct (String.eqb_spec (specificationVersion model) "v2") as [E|_];
    [contradiction | reflexivity].
Qed.

(** The retry executor on a body that is rejected with a transient error
    on its first [K] invocations, going through the states [ws 0], [ws 1],
    ..., and fulfils on the next one. *)
Section retries.

Context {W A : Type}.
Variable body : action W A.
Variable K : nat.
Variable ws : nat -> W.
Variable errs : nat -> error.
Variable a : A.
Variable w' : W.
Hypothesis fails :
  forall i, i < K ->
    body (ws i) = (Rejected (errs i), ws (S i)) /\ isRetryable (errs i) = true.
Hypothesis succeeds : body (ws K) = (Fulfilled a, w').

Lemma retry_reaches_success n : forall j c,
  j + n = K ->
  retry n (counted body) (ws j, c) = (Fulfilled a, (w', c + n + 1)).
Proof.
  induction n as [|n IH]; intros j c Hj.
  - replace j with K by lia. simpl. unfold counted. simpl.
    rewrite succeeds. f_equal. f_equal. lia.
  - destruct (fails j) as [Hb Hr]; [lia|].
    simpl. unfold counted at 1. simpl. rewrite Hb, Hr.
    rewrite IH by lia. f_equal. f_equal. lia.
Qed.

Lemma retry_runs_out n : forall j c,
  j + n + 1 = K ->
  retry n (counted body) (ws j, c)
  = (Rejected (errs (K - 1)), (ws K, c + n + 1)).
Proof.
  induction n as [|n IH]; intros j c Hj.
  - destruct (fails j) as [Hb Hr]; [lia|].
    simpl. unfold counted. simpl. rewrite Hb, Hr.
    replace (K - 1) with j by lia. replace K with (S j) by lia.
    f_equal. f_equal. lia.
  - destruct (fails j) as [Hb Hr]; [lia|].
    simpl. unfold counted at 1. simpl. rewrite Hb, Hr.
    rewrite IH by lia. f_equal. f_equal. lia.
Qed.

End retries.

(** C9: a body that is rejected with a transient error [K] times and then
    fulfils.  With [maxRetries = K] the operation fulfils and the body has
    been invoked [K + 1] times; with [maxRetries = K - 1] the operation is
    rejected with the error of the last attempt, as the body raised it,
    after [K] invocations. *)
Theorem retry_budget {W A : Type} (body : action W A) (K : nat)
    (ws : nat -> W) (errs : nat -> error) (a : A) (w' : W) :
  (forall i, i < K ->
     body (ws i) = (Rejected (errs i), ws (S i)) /\ isRetryable (errs i) = true) ->
  body (ws K) = (Fulfilled a, w') ->
  retry (prepareRetries (Some K)) (counted body) (ws 0, 0)
  = (Fulfilled a, (w', K + 1))
  /\ (0 < K ->
      retry (prepareRetries (Some (K - 1))) (counted body) (ws 0, 0)
      = (Rejected (errs (K - 1)), (ws K, K))).
Proof.
  intros Hfails Hok. cbn [prepareRetries]. split.
  - rewrite (retry_reaches_success body K ws errs a w' Hfails Hok K 0 0)
      by reflexivity.
    reflexivity.
  - intros HK.
    rewrite (retry_runs_out body K ws errs Hfails (K - 1) 0 0) by lia.
    f_equal. f_equal. lia.
Qed.

(** The inner span around one [doEmbed] call. *)
Section inner.

Variable model : Model.
Variable v : VALUE.
Variable signal : option SIGNAL.
Variable hdrs : option HEADERS.
Variable opts : option OPTIONS.

Let request : doEmbedOptions VALUE SIGNAL HEADERS OPTIONS :=
  {| values := [v]; abortSignal := signal; headers := hdrs;
     providerOptions := opts |}.

Lemma attempt_runs (w : World) :
  attempt model v signal hdrs opts w
  = match doEmbed model request (provider_state w) with
    | (Fulfilled modelResponse, p) =>
        (Fulfilled
           {| outcome_embedding := hd_error (embeddings modelResponse);
              outcome_usage := match response_usage modelResponse with
                               | Some u => u
                               | None => {| tokens := NaN |}
                               end;
              outcome_providerMetadata := response_providerMetadata modelResponse;
              outcome_response := response_response modelResponse |},
         {| provider_state := p;
            trace := (trace w ++
                        [SpanStarted "ai.embed.doEmbed";
                         DoEmbedCalled request;
                         SpanAttributesSet "ai.embed.doEmbed";
                         SpanEnded "ai.embed.doEmbed"])%list |})
    | (Rejected e, p) =>
        (Rejected e,
         {| provider_state := p;
            trace := (trace w ++
                        [SpanStarted "ai.embed.doEmbed";
                         DoEmbedCalled request;
                         SpanEnded "ai.embed.doEmbed"])%list |})
    end.
Proof.
  unfold attempt, recordSpan, doEmbedSpan, callDoEmbed, await, emit, record,
    resolve.
  cbn. fold request.
  destruct (doEmbed model request (provider_state w)) as [[resp|e] p]; cbn;
    rewrite <- !app_assoc; reflexivity.
Qed.

Lemma retry_attempts n : forall (w : World) r w1,
  retry n (attempt model v signal hdrs opts) w = (r, w1) ->
  exists events,
    trace w1 = (trace w ++ events)%list
    /\ only_this_call request events
    /\ forall o, r = Fulfilled o ->
         exists modelResponse s s',
           doEmbed model request s = (Fulfilled modelResponse, s')
           /\ DefaultEmbedResult v (outcome_embedding o) (outcome_usage o)
                (outcome_providerMetadata o) (outcome_response o)
              = assembled v modelResponse.
Proof.
  assert (Hcall : forall tail,
            (forall o, In (DoEmbedCalled o) tail -> o = request) ->
            only_this_call request
              (SpanStarted "ai.embed.doEmbed" :: DoEmbedCalled request :: tail)).
  { intros tail Ht o [H|[H|H]]; [discriminate | congruence | auto]. }
  induction n as [|n IH]; intros w r w1; simpl; rewrite attempt_runs;
    destruct (doEmbed model request (provider_state w)) as [[resp|e] p] eqn:E.
  - intros [= <- <-]. eexists. split; [reflexivity|]. split.
    + apply Hcall. intros o [H|[H|[]]]; discriminate.
    + intros o [= <-]. eauto.
  - destruct (isRetryable e); intros [= <- <-];
      (eexists; split; [reflexivity|]; split;
       [apply Hcall; intros o [H|[]]; discriminate | discriminate]).
  - intros [= <- <-]. eexists. split; [reflexivity|]. split.
    + apply Hcall. intros o [H|[H|[]]]; discriminate.
    + intros o [= <-]. eauto.
  - destruct (isRetryable e).
    + intros H. apply IH in H as (events & Ht & Hev & Hr).
      cbn in Ht. rewrite <- app_assoc in Ht.
      eexists. split; [exact Ht|]. split; [|exact Hr].
      intros o Hin. apply in_app_or in Hin as [Hin|Hin]; [|auto].
      destruct Hin as [H|[H|[H|[]]]]; [discriminate | congruence | discriminate].
    + intros [= <- <-]. eexists. split; [reflexivity|]. split;
        [apply Hcall; intros o [H|[]]; discriminate | discriminate].
Qed.

End inner.

(** C10: for a [v2] model, every [doEmbed] call that [embed] makes gets the
    one value as a singleton batch; when [embed] fulfils, its result
    holds the value, the first of the embeddings of a response [doEmbed]
    gave, and that response's usage, or [{tokens: NaN}] when the response
    has none; and when the first [doEmbed] call fulfils, [embed] fulfils
    after that one call. *)
Theorem embed_sends_a_singleton_batch
    (model : Model) (v : VALUE) (opts : option OPTIONS)
    (maxRetriesArg : option nat) (signal : option SIGNAL)
    (hdrs : option HEADERS) (telemetry : option TELEMETRY) (w : World) :
  specificationVersion model = "v2" ->
  let request :=
    {| values := [v]; abortSignal := signal; headers := hdrs;
       providerOptions := opts |} in
  let usageOf (modelResponse : doEmbedResult EMBEDDING METADATA RESPONSE) :=
    match response_usage modelResponse with
    | Some u => u
    | None => {| tokens := NaN |}
    end in
  (forall r w1,
     embed model v opts maxRetriesArg signal hdrs telemetry w = (r, w1) ->
     exists events,
       trace w1 = (trace w ++ events)%list
       /\ (forall options, In (DoEmbedCalled options) events -> options = request)
       /\ forall result : Result, r = Fulfilled result ->
            exists modelResponse s s',
              doEmbed model request s = (Fulfilled modelResponse, s')
              /\ result
                 = DefaultEmbedResult v
                     (hd_error (embeddings modelResponse))
                     (usageOf modelResponse)
                     (response_providerMetadata modelResponse)
                     (response_response modelResponse))
  /\ (forall modelResponse p,
        doEmbed model request (provider_state w) = (Fulfilled modelResponse, p) ->
        embed model v opts maxRetriesArg signal hdrs telemetry w
        = (Fulfilled (DefaultEmbedResult v
                        (hd_error (embeddings modelResponse))
                        (usageOf modelResponse)
                        (response_providerMetadata modelResponse)
                        (response_response modelResponse)),
           {| provider_state := p;
              trace := (trace w ++
                          [RetriesPrepared (prepareRetries maxRetriesArg);
                           SpanStarted "ai.embed";
                           SpanStarted "ai.embed.doEmbed";
                           DoEmbedCalled request;
                           SpanAttributesSet "ai.embed.doEmbed";
                           SpanEnded "ai.embed.doEmbed";
                           SpanAttributesSet "ai.embed";
                           SpanEnded "ai.embed"])%list |})).
Proof.
  intros Hv request usageOf.
  unfold embed. rewrite Hv. cbn [String.eqb Ascii.eqb Bool.eqb negb].
  unfold await at 1, emit at 1. split.
  - intros r w1. unfold recordSpan, await at 1, emit at 1.
    unfold await at 1.
    destruct (retry (prepareRetries maxRetriesArg) (attempt model v signal hdrs opts)
                (record (SpanStarted "ai.embed")
                   (record (RetriesPrepared (prepareRetries maxRetriesArg)) w)))
      as [[o|e] w2] eqn:E;
      apply retry_attempts in E as (events & Ht & Hev & Hr); cbn in Ht;
      rewrite <- !app_assoc in Ht; cbn in Ht.
    + unfold await, emit, resolve, record. cbn. intros [= <- <-]. cbn.
      rewrite Ht, <- !app_assoc. cbn.
      eexists. split; [reflexivity|]. split.
      * intros options [H|[H|Hin]]; try discriminate.
        apply in_app_or in Hin as [Hin|[H|[H|[]]]]; try discriminate.
        apply Hev, Hin.
      * intros result [= <-]. destruct (Hr o eq_refl) as (resp & s & s' & Hd & Ha).
        exists resp, s, s'. split; [exact Hd | exact Ha].
    + unfold record. cbn. intros [= <- <-]. cbn.
      rewrite Ht, <- !app_assoc. cbn.
      eexists. split; [reflexivity|]. split; [|discriminate].
      intros options [H|[H|Hin]]; try discriminate.
      apply in_app_or in Hin as [Hin|[H|[]]]; try discriminate.
      apply Hev, Hin.
  - intros resp p Hd.
    destruct (prepareRetries maxRetriesArg) as [|n]; cbn [retry];
      unfold recordSpan, await, emit, resolve; cbv beta iota;
      rewrite attempt_runs; cbn [provider_state record]; fold request;
      rewrite Hd; unfold record; cbn;
      rewrite <- !app_assoc; reflexivity.
Qed.

End facts.

Lemma embed_rejects_other_versions_witness :
  specificationVersion legacyModel <> "v2"
  /\ embed legacyModel "hello" None None None None (@None unit) exampleWorld
     = (Rejected (UnsupportedModelVersionError "v1" "example" "embed-1"),
        exampleWorld).
Proof.
  split; [discriminate|].
  apply (embed_rejects_other_versions legacyModel). discriminate.
Defined.

Lemma embed_sends_a_singleton_batch_witness :
  specificationVersion exampleModel = "v2"
  /\ embed exampleModel "hello" None None None None (@None unit) exampleWorld
     = (Fulfilled (DefaultEmbedResult "hello" (Some [1; 2; 3]%Z)
                     {| tokens := NaN |} None None),
        {| provider_state := 1;
           trace :=
             [RetriesPrepared 2;
              SpanStarted "ai.embed";
              SpanStarted "ai.embed.doEmbed";
              DoEmbedCalled {| values := ["hello"]; abortSignal := None;
                               headers := None; providerOptions := None |};
              SpanAttributesSet "ai.embed.doEmbed";
              SpanEnded "ai.embed.doEmbed";
              SpanAttributesSet "ai.embed";
              SpanEnded "ai.embed"] |}).
Proof.
  split; [reflexivity|].
  exact (proj2 (embed_sends_a_singleton_batch exampleModel "hello" None None None
                  None (@None unit) exampleWorld eq_refl)
           _ _ eq_refl).
Defined.

Lemma retry_budget_witness :
  (forall i, i < 2 ->
     flaky i = (Rejected (APICallError true "overloaded"), S i)
     /\ isRetryable (APICallError true "overloaded") = true)
  /\ flaky 2 = (Fulfilled "done", 3)
  /\ retry (prepareRetries (Some 2)) (counted flaky) (0, 0)
     = (Fulfilled "done", (3, 2 + 1))
  /\ (0 < 2 ->
      retry (prepareRetries (Some (2 - 1))) (counted flaky) (0, 0)
      = (Rejected (APICallError true "overloaded"), (2, 2))).
Proof.
  assert (H : forall i, i < 2 ->
     flaky i = (Rejected (APICallError true "overloaded"), S i)
     /\ isRetryable (APICallError true "overloaded") = true).
  { intros i Hi. destruct i as [|[|i]]; [split; reflexivity..|lia]. }
  split; [exact H|]. split; [reflexivity|].
  exact (retry_budget flaky 2 (fun i => i)
           (fun _ => APICallError true "overloaded") "done" 3 H eq_refl).
Defined.

End EmbedFacts.

(** ** The copy of the hoisting converter that does not log *)

Module CopyFacts.
Import JS Prompt Compare.
Import HoistingFacts.

(** Case analysis on a string that a [match] compares with literals. *)
Ltac string_cases :=
  repeat match goal with
         | |- context [match ?s with EmptyString => _ | String _ _ => _ end] =>
             is_var s; destruct s
         | |- context [match ?a with Ascii _ _ _ _ _ _ _ _ => _ end] =>
             is_var a; destruct a
         | |- context [match ?b with true => _ | false => _ end] =>
             is_var b; destruct b
         end.

Lemma member_get v k : k <> "length" -> member v k = get (own_props v) k.
Proof.
  intros Hk. unfold member, get. destruct (lookup k (own_props v)); [reflexivity|].
  destruct (String.eqb_spec k "length"); [contradiction | reflexivity].
Qed.

Lemma value_eq_text (v : value) : v = VStr "text" \/ v <> VStr "text".
Proof.
  destruct v; try (right; discriminate).
  destruct (String.eqb_spec s "text") as [->|H]; [left; reflexivity|].
  right. intros [= E]. contradiction.
Qed.

(** The two callbacks are the same on every part that is not a text
    part. *)
Lemma convertUserPart_other part :
  member part "type" <> VStr "text" ->
  HoistingCopy.convertUserPart part = Hoisting.convertUserPart part.
Proof.
  intros Htype.
  unfold HoistingCopy.convertUserPart, Hoisting.convertUserPart, read, destructure.
  destruct (nullish part); [reflexivity|]. cbn [bind].
  rewrite member_get in * by discriminate.
  destruct (get (own_props part) "type") as [| | | |s| | | |]; try reflexivity.
  revert Htype. string_cases; intros Htype; try reflexivity.
  exfalso. apply Htype. reflexivity.
Qed.

Lemma lookup_rest_props k taken ps :
  lookup k (rest_props taken ps)
  = if existsb (String.eqb k) taken then None else lookup k ps.
Proof.
  unfold rest_props. induction ps as [|[k' v] ps IH]; simpl.
  - destruct (existsb _ taken); reflexivity.
  - destruct (existsb (String.eqb k') taken) eqn:Ek'; simpl.
    + destruct (String.eqb_spec k k') as [->|_]; [|exact IH].
      rewrite IH, Ek'. reflexivity.
    + destruct (String.eqb_spec k k') as [->|_]; [|exact IH].
      rewrite Ek'. reflexivity.
Qed.

Lemma NoDup_keys_rest_props taken ps :
  NoDup (keys ps) -> NoDup (keys (rest_props taken ps)).
Proof.
  unfold rest_props, keys. induction ps as [|[k v] ps IH]; simpl; intros H;
    [constructor|].
  inversion H as [|? ? Hk Hnd]; subst.
  destruct (existsb _ taken); simpl; [auto|].
  constructor; [|auto].
  intros Hin. apply Hk. apply in_map_iff in Hin as (kv & E & Hin).
  apply filter_In in Hin as [Hin _]. apply in_map_iff. eauto.
Qed.

(** Reading a key of a merged object whose second half has distinct keys. *)
Lemma get_assign base ext k :
  NoDup (keys ext) ->
  get (assign base ext) k
  = match lookup k ext with
    | Some v => v
    | None => get base k
    end.
Proof.
  intros Hnd. unfold get. destruct (lookup k ext) as [v|] eqn:E.
  - rewrite (lookup_assign_present k v) by assumption. reflexivity.
  - rewrite lookup_assign_absent by exact E. reflexivity.
Qed.

(** A text part: the named converter writes [type] and [text] first, the
    copy keeps the part's own order. *)
Lemma text_part_same_properties ps :
  NoDup (keys ps) ->
  forall k,
    get (assign [("type", get ps "type"); ("text", get ps "text")]
           (rest_props ["type"; "text"] ps)) k
    = get (literal ps) k.
Proof.
  intros Hnd k. unfold literal.
  rewrite !get_assign by auto using NoDup_keys_rest_props.
  rewrite lookup_rest_props. cbn [existsb].
  destruct (String.eqb_spec k "type") as [->|Htype]; [reflexivity|].
  destruct (String.eqb_spec k "text") as [->|Htext]; [reflexivity|].
  cbn [orb]. destruct (lookup k ps) eqn:E; [reflexivity|].
  unfold get. cbn [lookup].
  destruct (String.eqb_spec k "type"); [contradiction|].
  destruct (String.eqb_spec k "text"); [contradiction|]. reflexivity.
Qed.

End CopyFacts.

(** ** More on the hoisting: a second call, and the payloads *)

Module HoistingLaws.
Import JS Hoisting Prompt Compare.
Import HoistingFacts CopyFacts.

Lemma hoistPrompt_Forall2 xs ys :
  Forall2 hoists_to xs ys -> hoistPrompt xs = Returns ys.
Proof.
  unfold hoistPrompt. induction 1 as [|x y xs ys Hxy _ IH]; simpl; [reflexivity|].
  rewrite (hoists_to_total _ _ Hxy). simpl. rewrite IH. reflexivity.
Qed.

Lemma lookup_delete_same k ps : lookup k (delete k ps) = None.
Proof.
  induction ps as [|[k' v] ps IH]; simpl; [reflexivity|].
  destruct (String.eqb_spec k k') as [->|Hne]; simpl; [exact IH|].
  destruct (String.eqb_spec k k'); [contradiction | exact IH].
Qed.

(** What the hoisting leaves on an object holds no target metadata. *)
Lemma hoistedObject_free names fs pm :
  In "providerMetadata" names ->
  lookup "providerMetadata" fs = None ->
  safeMetadata names pm = true ->
  forallb (fun kv => hoist_free (snd kv)) fs = true ->
  hoist_free (hoistedObject fs pm) = true.
Proof.
  intros Hpm Hnone Hsafe Hfs.
  apply safeMetadata_parts in Hsafe as (_ & Hav & Ho & Hf).
  pose proof (avoids_lookup _ _ _ Hav Hpm) as Hb.
  unfold hoistedObject, hoistedFields. cbn [hoist_free].
  rewrite !forallb_app, Hfs, Ho, Hf. rewrite andb_true_r.
  apply negb_true_iff.
  unfold get. rewrite !lookup_app, Hnone.
  unfold foreign, overlay in *. destruct pm as [m|]; [|reflexivity].
  destruct (lookup "openaiCompatible" (namespaces m)) as [bag|] eqn:Eoc.
  - destruct (delete "openaiCompatible" (namespaces m)) as [|ns others] eqn:Ed.
    + cbn [lookup]. rewrite Hb. reflexivity.
    + cbn [lookup String.eqb Ascii.eqb Bool.eqb]. rewrite member_obj.
      unfold get. rewrite <- Ed, lookup_delete_same. reflexivity.
  - cbn [metadataField lookup String.eqb Ascii.eqb Bool.eqb]. rewrite member_obj.
    unfold get. rewrite Eoc. reflexivity.
Qed.

Lemma hoistedUserPart_free p :
  safeUserPart p = true -> hoist_free (hoistedUserPart p) = true.
Proof.
  intros H. apply (hoistedObject_free (userPartNames p)); try exact H.
  - destruct p; simpl; tauto.
  - destruct p as [t pm|image [mt|] pm|d mt pm]; reflexivity.
  - destruct p as [t pm|[h|b] [mt|] pm|d mt pm]; reflexivity.
Qed.

Lemma hoistedAssistantPart_free p :
  safeAssistantPart p = true -> hoist_free (hoistedAssistantPart p) = true.
Proof.
  intros H. apply andb_prop in H as [H Hargs].
  apply (hoistedObject_free (assistantPartNames p)); try exact H.
  - destruct p; simpl; tauto.
  - destruct p; reflexivity.
  - destruct p; simpl; [reflexivity|]. rewrite Hargs. reflexivity.
Qed.

Lemma hoistedToolResult_free p :
  safeToolResult p = true -> hoist_free (hoistedToolResult p) = true.
Proof.
  intros H. apply andb_prop in H as [H Hres].
  apply (hoistedObject_free toolResultNames); try exact H.
  - simpl; tauto.
  - destruct p; reflexivity.
  - destruct p; simpl. rewrite Hres. reflexivity.
Qed.

Lemma forallb_map_free {A} (hoisted : A -> value) (safe : A -> bool) xs :
  (forall x, safe x = true -> hoist_free (hoisted x) = true) ->
  forallb safe xs = true ->
  forallb hoist_free (map hoisted xs) = true.
Proof.
  intros H Hall. rewrite forallb_forall in *. intros v Hv.
  apply in_map_iff in Hv as (x & <- & Hx). auto.
Qed.

Lemma hoistedMessage_free m :
  safeMessage m = true -> hoist_free (hoistedMessage m) = true.
Proof.
  intros H. apply andb_prop in H as [H Hparts].
  unfold hoistedMessage.
  apply (hoistedObject_free messageNames); try exact H.
  - simpl; tauto.
  - destruct m; reflexivity.
  - destruct m as [c pm|ps pm|ps pm|ps pm]; cbn [forallb snd hoist_free andb].
    + reflexivity.
    + rewrite (forallb_map_free _ safeUserPart); auto using hoistedUserPart_free.
    + rewrite (forallb_map_free _ safeAssistantPart);
        auto using hoistedAssistantPart_free.
    + rewrite (forallb_map_free _ safeToolResult); auto using hoistedToolResult_free.
Qed.

(** A second call on the prompt that a first call left behind: the prompt
    is not changed again, and the wire messages are those of the first
    call. *)
Theorem second_call_changes_nothing prompt :
  forallb safeMessage prompt = true ->
  exists after,
    hoistPrompt (encodePrompt prompt) = Returns after
    /\ hoistPrompt after = Returns after
    /\ convertToOpenAICompatibleChatMessages after
       = convertToOpenAICompatibleChatMessages (encodePrompt prompt).
Proof.
  intros Hsafe. exists (map hoistedMessage prompt).
  assert (Hfix : hoistPrompt (map hoistedMessage prompt)
                 = Returns (map hoistedMessage prompt)).
  { apply hoistPrompt_Forall2. rewrite forallb_forall in Hsafe.
    induction prompt as [|m prompt IH]; simpl; constructor.
    - apply hoists_to_free, hoistedMessage_free, Hsafe. left. reflexivity.
    - apply IH. intros x Hx. apply Hsafe. right. exact Hx. }
  split; [apply hoistPrompt_safe, Hsafe|]. split; [exact Hfix|].
  unfold convertToOpenAICompatibleChatMessages.
  rewrite Hfix, (hoistPrompt_safe prompt Hsafe). reflexivity.
Qed.

(** More fuel does not change what [hoist] gives. *)
Lemma mapM_more_fuel {A B} (f g : A -> outcome B) xs o :
  (forall x o', In x xs -> f x = o' -> o' <> OutOfFuel -> g x = o') ->
  mapM f xs = o -> o <> OutOfFuel -> mapM g xs = o.
Proof.
  revert o. induction xs as [|x xs IH]; simpl; intros o Hfg Ho Hne; [exact Ho|].
  destruct (f x) as [y| |] eqn:Ex.
  - rewrite (Hfg x (Returns y)) by (auto; discriminate). simpl in *.
    destruct (mapM f xs) as [ys| |] eqn:Exs.
    + rewrite (IH (Returns ys)) by (auto; discriminate). exact Ho.
    + rewrite (IH (Throws e)) by (auto; discriminate). exact Ho.
    + simpl in Ho. congruence.
  - rewrite (Hfg x (Throws e)) by (auto; discriminate). exact Ho.
  - simpl in Ho. congruence.
Qed.

Lemma hoist_S fuel obj :
  hoist (S fuel) obj
  = do obj1 <- hoist_here obj;
    match obj1 with
    | VArr items => do items' <- mapM (hoist fuel) items; Returns (VArr items')
    | VObj ps =>
        do ps' <- mapM (fun kv => do v <- hoist fuel (snd kv); Returns (fst kv, v)) ps;
        Returns (VObj ps')
    | _ => Returns obj1
    end.
Proof. reflexivity. Qed.

Lemma hoist_more_fuel fuel : forall obj o,
  hoist fuel obj = o -> o <> OutOfFuel -> hoist (S fuel) obj = o.
Proof.
  induction fuel as [|fuel IH]; intros obj o Ho Hne; [simpl in Ho; congruence|].
  rewrite hoist_S in *.
  destruct (hoist_here obj) as [obj1| |]; cbn [bind] in *; try exact Ho.
  destruct obj1 as [| | | | |items|ps| |]; try exact Ho.
  - destruct (mapM (hoist fuel) items) as [ys| |] eqn:E.
    + rewrite (mapM_more_fuel (hoist fuel) _ items (Returns ys)); auto; discriminate.
    + rewrite (mapM_more_fuel (hoist fuel) _ items (Throws e)); auto; discriminate.
    + simpl in Ho. congruence.
  - match type of Ho with
    | bind (mapM ?f ps) _ = _ =>
        assert (Hstep : forall o', mapM f ps = o' -> o' <> OutOfFuel ->
                  mapM (fun kv => do v <- hoist (S fuel) (snd kv); Returns (fst kv, v)) ps
                  = o');
          [|destruct (mapM f ps) as [ys| |] eqn:E]
    end.
    + intros o'. apply mapM_more_fuel. intros [k x] o2 _. cbn [fst snd].
      destruct (hoist fuel x) as [y| |] eqn:Ex; cbn [bind]; intros <- Hne2.
      * rewrite (IH x (Returns y)); auto; discriminate.
      * rewrite (IH x (Throws e)); auto; discriminate.
      * congruence.
    + rewrite (Hstep (Returns ys)); auto; discriminate.
    + rewrite (Hstep (Throws e)); auto; discriminate.
    + simpl in Ho. congruence.
Qed.

Lemma hoist_fuel_le fuel fuel' obj o :
  fuel <= fuel' -> hoist fuel obj = o -> o <> OutOfFuel -> hoist fuel' obj = o.
Proof.
  induction 1 as [|fuel' _ IH]; [auto|].
  intros Ho Hne. apply hoist_more_fuel; auto.
Qed.





(** *** What the overlay does to the object that carries it *)




(** *** Values the converter has no case for *)

Lemma convert_hoist_free prompt :
  forallb hoist_free prompt = true ->
  convertToOpenAICompatibleChatMessages prompt = convertMessages prompt.
Proof.
  intros H. unfold convertToOpenAICompatibleChatMessages.
  rewrite (hoistPrompt_Forall2 prompt prompt); [reflexivity|].
  rewrite forallb_forall in H.
  induction prompt as [|m prompt IH]; constructor.
  - apply hoists_to_free, H. left. reflexivity.
  - apply IH. intros x Hx. apply H. right. exact Hx.
Qed.

Lemma mapM_app_throws {A B} (f : A -> outcome B) xs y zs ys e :
  mapM f xs = Returns ys -> f y = Throws e ->
  mapM f (xs ++ y :: zs)%list = Throws e.
Proof.
  revert ys. induction xs as [|x xs IH]; simpl; intros ys Hxs Hy.
  - rewrite Hy. reflexivity.
  - destruct (f x) as [b| |]; simpl in *; try discriminate.
    destruct (mapM f xs) as [bs| |]; simpl in *; try discriminate.
    rewrite (IH bs eq_refl Hy). reflexivity.
Qed.

Lemma convertMessages_returns prompt ws :
  convertMessages prompt = Returns ws ->
  exists pushed, mapM convertMessage prompt = Returns pushed.
Proof.
  unfold convertMessages. destruct (mapM convertMessage prompt) as [pushed| |];
    simpl; try discriminate.
  eauto.
Qed.

Lemma convertMessage_unknown_role ps :
  (forall r, In r ["system"; "user"; "assistant"; "tool"] ->
             get ps "role" <> VStr r) ->
  convertMessage (VObj ps)
  = Throws (Error ("Unsupported role: " ++ to_string (get ps "role"))).
Proof.
  unfold convertMessage. cbn [destructure nullish own_props bind].
  destruct (get ps "role") as [| | | |s| | | |]; try reflexivity.
  string_cases; intros H; try reflexivity;
    exfalso; (eapply H; [|reflexivity]); simpl; tauto.
Qed.

(** A message whose [role] is none of the four roles: the converter raises
    [Error] with the role in its message, also when the messages before it
    convert, and returns no wire message. *)
Theorem unknown_role_is_refused before ps after ws :
  forallb hoist_free (before ++ VObj ps :: after)%list = true ->
  convertToOpenAICompatibleChatMessages before = Returns ws ->
  (forall r, In r ["system"; "user"; "assistant"; "tool"] ->
             get ps "role" <> VStr r) ->
  convertToOpenAICompatibleChatMessages (before ++ VObj ps :: after)%list
  = Throws (Error ("Unsupported role: " ++ to_string (get ps "role"))).
Proof.
  intros Hfree Hbefore Hrole.
  rewrite convert_hoist_free by exact Hfree.
  rewrite forallb_app in Hfree. apply andb_prop in Hfree as [Hfree _].
  rewrite convert_hoist_free in Hbefore by exact Hfree.
  apply convertMessages_returns in Hbefore as (pushed & Hpushed).
  unfold convertMessages.
  rewrite (mapM_app_throws _ _ _ _ _ _ Hpushed (convertMessage_unknown_role ps Hrole)).
  reflexivity.
Qed.

Lemma unknown_role_is_refused_witness :
  let before := [VObj [("role", VStr "system"); ("content", VStr "Be brief.")]] in
  let ps := [("role", VStr "developer"); ("content", VStr "hi")] in
  forallb hoist_free (before ++ [VObj ps])%list = true
  /\ convertToOpenAICompatibleChatMessages before = Returns before
  /\ convertToOpenAICompatibleChatMessages (before ++ [VObj ps])%list
     = Throws (Error "Unsupported role: developer").
Proof.
  cbv zeta. split; [reflexivity|]. split; [reflexivity|].
  refine (unknown_role_is_refused
            [VObj [("role", VStr "system"); ("content", VStr "Be brief.")]]
            [("role", VStr "developer"); ("content", VStr "hi")] [] _ _ _ _).
  - reflexivity.
  - reflexivity.
  - intros r [<-|[<-|[<-|[<-|[]]]]]; discriminate.
Defined.

Lemma foldM_app_throws {A B} (f : A -> B -> outcome A) xs y zs :
  forall acc acc' e,
    foldM f acc xs = Returns acc' -> f acc' y = Throws e ->
    foldM f acc (xs ++ y :: zs)%list = Throws e.
Proof.
  induction xs as [|x xs IH]; simpl; intros acc acc' e Hxs Hy.
  - injection Hxs as ->. rewrite Hy. reflexivity.
  - destruct (f acc x) as [a| |]; simpl in *; try discriminate.
    apply (IH a acc'); assumption.
Qed.

Lemma convertAssistantPart_unknown acc bad :
  get bad "type" <> VStr "text" -> get bad "type" <> VStr "tool-call" ->
  convertAssistantPart acc (VObj bad)
  = Throws (Error "Unsupported part: [object Object]").
Proof.
  unfold convertAssistantPart, read. destruct acc as [text toolCalls].
  cbn [nullish bind]. rewrite member_obj.
  destruct (get bad "type") as [| | | |s| | | |]; try reflexivity.
  string_cases; intros Htext Hcall; try reflexivity; exfalso;
    solve [apply Htext; reflexivity | apply Hcall; reflexivity].
Qed.

(** An assistant message with a part that is neither a text nor a tool
    call: the converter raises [Error], and its message does not name the
    part, which the template literal prints as [[object Object]]. *)
Theorem unknown_assistant_part_is_refused good bad rest more ws :
  let message content :=
    VObj (("role", VStr "assistant") :: ("content", VArr content) :: more) in
  forallb hoist_free [message (good ++ VObj bad :: rest)%list] = true ->
  convertToOpenAICompatibleChatMessages [message good] = Returns ws ->
  get bad "type" <> VStr "text" -> get bad "type" <> VStr "tool-call" ->
  convertToOpenAICompatibleChatMessages [message (good ++ VObj bad :: rest)%list]
  = Throws (Error "Unsupported part: [object Object]").
Proof.
  intros message Hfree Hgood Htext Hcall.
  rewrite convert_hoist_free by exact Hfree.
  assert (Hfree' : forallb hoist_free [message good] = true).
  { revert Hfree. unfold message. cbn [forallb hoist_free snd].
    assert (Hpm : forall content,
              get (("role", VStr "assistant") :: ("content", VArr content) :: more)
                "providerMetadata"
              = get more "providerMetadata") by reflexivity.
    rewrite !Hpm, !andb_true_r, forallb_app. cbn [andb].
    intros H. apply andb_prop in H as [H1 H2]. rewrite H1.
    apply andb_prop in H2 as [H2 H3]. apply andb_prop in H2 as [H2 _].
    rewrite H2, H3. reflexivity. }
  rewrite convert_hoist_free in Hgood by exact Hfree'.
  revert Hgood. unfold convertMessages, message.
  cbn [mapM convertMessage destructure nullish own_props bind get lookup String.eqb
         Ascii.eqb Bool.eqb iterate].
  destruct (foldM convertAssistantPart (EmptyString, []) good) as [acc| |] eqn:E;
    cbn [bind]; try discriminate.
  intros _.
  rewrite (foldM_app_throws _ _ _ _ _ _ _ E
             (convertAssistantPart_unknown acc bad Htext Hcall)).
  reflexivity.
Qed.

Lemma unknown_assistant_part_is_refused_witness :
  let message content :=
    VObj [("role", VStr "assistant"); ("content", VArr content)] in
  let good := [VObj [("type", VStr "text"); ("text", VStr "A")]] in
  let bad := [("type", VStr "reasoning"); ("text", VStr "B")] in
  convertToOpenAICompatibleChatMessages [message good]
  = Returns [VObj [("role", VStr "assistant"); ("content", VStr "A");
                   ("tool_calls", VUndef)]]
  /\ convertToOpenAICompatibleChatMessages [message (good ++ [VObj bad])%list]
     = Throws (Error "Unsupported part: [object Object]").
Proof.
  cbv zeta. split; [reflexivity|].
  refine (unknown_assistant_part_is_refused
            [VObj [("type", VStr "text"); ("text", VStr "A")]]
            [("type", VStr "reasoning"); ("text", VStr "B")] [] [] _ _ _ _ _);
    [reflexivity | reflexivity | discriminate | discriminate].
Defined.

(** An overlay that sets [providerMetadata] to [null] or [undefined]: the
    hoisting writes the overlay on the object and then deletes from its
    [providerMetadata], which raises [TypeError]; nothing is converted,
    whatever the other messages are. *)
Theorem null_metadata_in_the_overlay_raises before ps pm bag after :
  forallb hoist_free before = true ->
  get ps "providerMetadata" = VObj pm ->
  get pm "openaiCompatible" = VObj bag ->
  distinct (keys bag) = true ->
  nullish (get bag "providerMetadata") = true ->
  In "providerMetadata" (keys bag) ->
  convertToOpenAICompatibleChatMessages (before ++ VObj ps :: after)%list
  = Throws TypeError.
Proof.
  intros Hfree Hpm Hoc Hd Hnull Hin.
  assert (Hhere : hoist_here (VObj ps) = Throws TypeError).
  { unfold hoist_here. rewrite !member_obj, Hpm, member_obj, Hoc.
    cbn [truthy own_props].
    destruct (lookup "providerMetadata" bag) as [v|] eqn:E;
      [|apply lookup_none_iff in E; contradiction].
    unfold get in Hnull |- *. rewrite E in Hnull.
    rewrite (lookup_assign_present "providerMetadata" v)
      by (auto using distinct_NoDup).
    destruct v; try discriminate; reflexivity. }
  unfold convertToOpenAICompatibleChatMessages, hoistPrompt.
  rewrite (mapM_app_throws _ before (VObj ps) after before TypeError);
    [reflexivity | |].
  - change (hoistPrompt before = Returns before).
    apply hoistPrompt_Forall2. rewrite forallb_forall in Hfree.
    clear -Hfree. induction before as [|m before IH]; constructor.
    + apply hoists_to_free, Hfree. left. reflexivity.
    + apply IH. intros x Hx. apply Hfree. right. exact Hx.
  - unfold findAndHoistMetadata. rewrite hoist_S, Hhere. reflexivity.
Qed.

Lemma null_metadata_in_the_overlay_raises_witness :
  let bag := [("providerMetadata", VNull)] in
  let pm := [("openaiCompatible", VObj bag)] in
  let ps := [("role", VStr "system"); ("content", VStr "Be brief.");
             ("providerMetadata", VObj pm)] in
  nullish (get bag "providerMetadata") = true
  /\ convertToOpenAICompatibleChatMessages [VObj ps] = Throws TypeError.
Proof.
  cbv zeta. split; [reflexivity|].
  refine (null_metadata_in_the_overlay_raises []
            [("role", VStr "system"); ("content", VStr "Be brief.");
             ("providerMetadata",
              VObj [("openaiCompatible", VObj [("providerMetadata", VNull)])])]
            [("openaiCompatible", VObj [("providerMetadata", VNull)])]
            [("providerMetadata", VNull)] [] _ _ _ _ _ _);
    try reflexivity.
  left. reflexivity.
Defined.

Lemma second_call_changes_nothing_witness :
  forallb safeMessage examplePrompt = true
  /\ exists after,
       hoistPrompt (encodePrompt examplePrompt) = Returns after
       /\ hoistPrompt after = Returns after
       /\ convertToOpenAICompatibleChatMessages after
          = convertToOpenAICompatibleChatMessages (encodePrompt examplePrompt).
Proof.
  split; [reflexivity|].
  apply (second_call_changes_nothing examplePrompt). reflexivity.
Defined.

End HoistingLaws.

(** ** The two copies of the hoisting converter on any prompt *)

Module CopyAgreement.
Import JS Hoisting Prompt Compare.
Import HoistingFacts CopyFacts.

(** *** The hoisting keeps the keys of every object distinct *)

Lemma distinct_iff ks : distinct ks = true <-> NoDup ks.
Proof.
  split; [apply distinct_NoDup|].
  induction 1 as [|k ks Hk _ IH]; simpl; [reflexivity|].
  rewrite IH, andb_true_r. apply negb_true_iff.
  destruct (existsb (String.eqb k) ks) eqn:E; [|reflexivity].
  apply existsb_eqb_in in E. contradiction.
Qed.

Lemma values_formed_indexed_from i xs :
  values_formed (indexed_from i xs) = forallb well_formed xs.
Proof.
  revert i. induction xs as [|x xs IH]; intros i; simpl; [reflexivity|].
  unfold values_formed in IH. rewrite IH. reflexivity.
Qed.

Lemma values_formed_own_props v :
  well_formed v = true -> values_formed (own_props v) = true.
Proof.
  destruct v as [| | | |s|items|ps| |bs]; simpl; intros H; try reflexivity.
  - unfold indexed. rewrite values_formed_indexed_from.
    apply forallb_forall. intros x Hx. apply in_map_iff in Hx as (c & <- & _).
    reflexivity.
  - unfold indexed. rewrite values_formed_indexed_from. exact H.
  - apply andb_prop in H as [_ H]. exact H.
  - unfold indexed. rewrite values_formed_indexed_from.
    apply forallb_forall. intros x Hx. apply in_map_iff in Hx as (c & <- & _).
    reflexivity.
Qed.

Lemma well_formed_lookup ps k v :
  values_formed ps = true -> lookup k ps = Some v -> well_formed v = true.
Proof.
  unfold values_formed. induction ps as [|[k' v'] ps IH]; simpl; [discriminate|].
  intros H. apply andb_prop in H as [Hv H].
  destruct (String.eqb k k'); [intros [= <-]; exact Hv | auto].
Qed.

Lemma well_formed_get ps k :
  values_formed ps = true -> well_formed (get ps k) = true.
Proof.
  intros H. unfold get. destruct (lookup k ps) eqn:E; [|reflexivity].
  eapply well_formed_lookup; eassumption.
Qed.

Lemma well_formed_member v k : well_formed v = true -> well_formed (member v k) = true.
Proof.
  intros H. unfold member.
  destruct (lookup k (own_props v)) eqn:E.
  - eapply well_formed_lookup; [apply values_formed_own_props, H | exact E].
  - destruct (String.eqb k "length"); [destruct v|]; reflexivity.
Qed.

Lemma values_formed_set ps k v :
  values_formed ps = true -> well_formed v = true -> values_formed (set ps k v) = true.
Proof.
  unfold values_formed. induction ps as [|[k' v'] ps IH]; simpl; intros H Hv.
  - rewrite Hv. reflexivity.
  - apply andb_prop in H as [Hv' H].
    destruct (String.eqb k k'); simpl; [rewrite Hv, H | rewrite Hv', IH];
      auto.
Qed.

Lemma values_formed_assign tgt src :
  values_formed tgt = true -> values_formed src = true ->
  values_formed (assign tgt src) = true.
Proof.
  unfold assign. revert tgt.
  induction src as [|[k v] src IH]; simpl; intros tgt Ht Hs; [exact Ht|].
  unfold values_formed in Hs. simpl in Hs. apply andb_prop in Hs as [Hv Hs].
  apply IH; [apply values_formed_set; assumption | exact Hs].
Qed.

Lemma values_formed_filter f ps :
  values_formed ps = true -> values_formed (filter f ps) = true.
Proof.
  unfold values_formed. intros H. rewrite forallb_forall in *.
  intros x Hx. apply filter_In in Hx as [Hx _]. auto.
Qed.

Lemma keys_set ps k v :
  keys (set ps k v)
  = match lookup k ps with
    | Some _ => keys ps
    | None => (keys ps ++ [k])%list
    end.
Proof.
  induction ps as [|[k' v'] ps IH]; simpl; [reflexivity|].
  destruct (String.eqb_spec k k') as [->|Hne]; simpl; [reflexivity|].
  rewrite IH. destruct (lookup k ps); reflexivity.
Qed.

Lemma NoDup_keys_set ps k v : NoDup (keys ps) -> NoDup (keys (set ps k v)).
Proof.
  intros H. rewrite keys_set. destruct (lookup k ps) eqn:E; [exact H|].
  apply lookup_none_iff in E.
  apply NoDup_app; [exact H | constructor; [intros []|constructor] |].
  intros x Hx [<-|[]]. contradiction.
Qed.

Lemma NoDup_keys_assign tgt src : NoDup (keys tgt) -> NoDup (keys (assign tgt src)).
Proof.
  unfold assign. revert tgt.
  induction src as [|[k v] src IH]; simpl; intros tgt Ht; [exact Ht|].
  apply IH, NoDup_keys_set, Ht.
Qed.

Lemma NoDup_keys_filter f (ps : props) : NoDup (keys ps) -> NoDup (keys (filter f ps)).
Proof.
  unfold keys. induction ps as [|[k v] ps IH]; simpl; intros H; [constructor|].
  inversion H as [|? ? Hk Hnd]; subst.
  destruct (f (k, v)); simpl; [|auto].
  constructor; [|auto].
  intros Hin. apply Hk. apply in_map_iff in Hin as (kv & E & Hin).
  apply filter_In in Hin as [Hin _]. apply in_map_iff. eauto.
Qed.

Lemma well_formed_obj ps :
  well_formed (VObj ps) = true <-> NoDup (keys ps) /\ values_formed ps = true.
Proof.
  simpl. rewrite andb_true_iff, distinct_iff. reflexivity.
Qed.

Lemma hoist_here_well_formed obj obj1 :
  well_formed obj = true -> hoist_here obj = Returns obj1 ->
  well_formed obj1 = true.
Proof.
  intros Hwf. unfold hoist_here.
  set (bag := member (member obj "providerMetadata") "openaiCompatible").
  assert (Hbag : values_formed (own_props bag) = true)
    by (apply values_formed_own_props; unfold bag; auto using well_formed_member).
  destruct (truthy bag); [|intros [= <-]; exact Hwf].
  destruct obj as [| | | | | |ps| |]; try (intros [= <-]; exact Hwf).
  apply well_formed_obj in Hwf as [Hnd Hvs].
  pose proof (NoDup_keys_assign ps (own_props bag) Hnd) as Hnd1.
  pose proof (values_formed_assign ps (own_props bag) Hvs Hbag) as Hvs1.
  set (ps1 := assign ps (own_props bag)) in *.
  pose proof (well_formed_get ps1 "providerMetadata" Hvs1) as Hpm.
  assert (Hdel : well_formed (VObj (delete "providerMetadata" ps1)) = true).
  { apply well_formed_obj. unfold delete.
    split; [apply NoDup_keys_filter, Hnd1 | apply values_formed_filter, Hvs1]. }
  assert (Hsame : well_formed (VObj ps1) = true)
    by (apply well_formed_obj; auto).
  destruct (get ps1 "providerMetadata") as [| | | |s|items|pm| |bs];
    try discriminate;
    try (match goal with
         | |- match own_props ?o with _ => _ end = _ -> _ =>
             destruct (own_props o); intros [= <-]; assumption
         end).
  apply well_formed_obj in Hpm as [Hpn Hpv].
  destruct (delete "openaiCompatible" pm) as [|x pm'] eqn:Ed;
    intros [= <-]; [exact Hdel|].
  apply well_formed_obj. split; [apply NoDup_keys_set, Hnd1|].
  apply values_formed_set; [exact Hvs1|].
  rewrite <- Ed. apply well_formed_obj. unfold delete.
  split; [apply NoDup_keys_filter, Hpn | apply values_formed_filter, Hpv].
Qed.

Lemma mapM_preserves {A} (P : A -> Prop) (f : A -> outcome A) xs ys :
  (forall x y, In x xs -> P x -> f x = Returns y -> P y) ->
  Forall P xs -> mapM f xs = Returns ys -> Forall P ys.
Proof.
  revert ys. induction xs as [|x xs IH]; simpl; intros ys Hf Hall.
  - intros [= <-]. constructor.
  - inversion Hall as [|? ? Hx Hxs]; subst.
    destruct (f x) as [y| |] eqn:Ex; simpl; try discriminate.
    destruct (mapM f xs) as [ys'| |] eqn:Exs; simpl; try discriminate.
    intros [= <-]. constructor; [eapply Hf; eauto|].
    apply IH; auto. intros x0 y0 Hin. apply Hf. right. exact Hin.
Qed.

Lemma mapM_keys fuel (ps ps' : props) :
  mapM (fun kv => do v <- hoist fuel (snd kv); Returns (fst kv, v)) ps = Returns ps' ->
  keys ps' = keys ps.
Proof.
  revert ps'. induction ps as [|[k x] ps IH]; simpl; intros ps'.
  - intros [= <-]. reflexivity.
  - destruct (hoist fuel x) as [y| |]; simpl; try discriminate.
    destruct (mapM _ ps) as [qs| |]; simpl; try discriminate.
    intros [= <-]. simpl. rewrite (IH qs eq_refl). reflexivity.
Qed.

Lemma hoist_well_formed fuel : forall obj r,
  well_formed obj = true -> hoist fuel obj = Returns r -> well_formed r = true.
Proof.
  induction fuel as [|fuel IH]; intros obj r Hwf; [discriminate|].
  rewrite HoistingLaws.hoist_S.
  destruct (hoist_here obj) as [obj1| |] eqn:E; cbn [bind]; try discriminate.
  pose proof (hoist_here_well_formed obj obj1 Hwf E) as Hwf1.
  destruct obj1 as [| | | | |items|ps| |]; try (intros [= <-]; exact Hwf1).
  - destruct (mapM (hoist fuel) items) as [ys| |] eqn:Em; cbn [bind];
      try discriminate.
    intros [= <-]. simpl in *. apply forallb_forall. apply Forall_forall.
    apply (mapM_preserves (fun v => well_formed v = true) (hoist fuel) items ys);
      [|apply Forall_forall, forallb_forall, Hwf1 | exact Em].
    intros x y _. apply IH.
  - destruct (mapM _ ps) as [ps'| |] eqn:Em; cbn [bind]; try discriminate.
    intros [= <-]. apply well_formed_obj in Hwf1 as [Hnd Hvs].
    apply well_formed_obj. split.
    + rewrite (mapM_keys _ _ _ Em). exact Hnd.
    + unfold values_formed in *. apply forallb_forall. apply Forall_forall.
      refine (mapM_preserves (fun kv => well_formed (snd kv) = true) _ ps ps'
                _ _ Em); [|apply Forall_forall, forallb_forall, Hvs].
      intros [k x] [k' y] _ Hx. cbn [fst snd] in *.
      destruct (hoist fuel x) as [y0| |] eqn:Ex; cbn [bind]; try discriminate.
      intros [= <- <-]. eapply IH; eauto.
Qed.

(** *** The two copies on any prompt *)

Lemma member_type_indexed xs : lookup "type" (indexed xs) = None.
Proof. apply lookup_indexed_from. reflexivity. Qed.

Lemma callbacks_same part :
  well_formed part = true ->
  same_outcome (Hoisting.convertUserPart part) (HoistingCopy.convertUserPart part).
Proof.
  intros Hwf.
  assert (Hother : member part "type" <> VStr "text" ->
            same_outcome (Hoisting.convertUserPart part)
              (HoistingCopy.convertUserPart part)).
  { intros H. rewrite (convertUserPart_other part H). unfold same_outcome.
    destruct (Hoisting.convertUserPart part) as [[]| |]; try reflexivity.
    intros k. reflexivity. }
  destruct part as [| | | |s|items|ps| |bs];
    try (apply Hother; unfold member; cbn [own_props];
         rewrite ?member_type_indexed; discriminate).
  apply well_formed_obj in Hwf as [Hnd _].
  destruct (value_eq_text (member (VObj ps) "type")) as [Htext|Hne]; [|auto].
  rewrite member_obj in Htext.
  unfold HoistingCopy.convertUserPart, Hoisting.convertUserPart, read, destructure.
  cbn [nullish bind own_props]. rewrite member_obj, Htext.
  cbn. intros k. rewrite <- Htext. apply text_part_same_properties, Hnd.
Qed.

Lemma mapM_same (f g : value -> outcome value) xs :
  Forall (fun x => same_outcome (f x) (g x)) xs ->
  match mapM f xs, mapM g xs with
  | Returns ys, Returns zs => Forall2 same_properties ys zs
  | a, c => a = c
  end.
Proof.
  induction 1 as [|x xs Hx _ IH]; simpl; [constructor|].
  unfold same_outcome in Hx.
  destruct (f x) as [y| |], (g x) as [z| |]; simpl; try discriminate;
    try reflexivity; try (injection Hx as ->; reflexivity).
  destruct (mapM f xs) as [ys| |], (mapM g xs) as [zs| |]; simpl;
    try discriminate; try reflexivity;
    try (injection IH as ->; reflexivity).
  constructor; assumption.
Qed.

Lemma same_message_refl ws : Forall2 same_message ws ws.
Proof. induction ws; constructor; [left; reflexivity | assumption]. Qed.

(** The two sides are the same call. *)
Ltac same_call :=
  match goal with
  | |- match ?x with _ => _ end =>
      let o := fresh "o" in
      generalize x; intros o; destruct o;
      [apply same_message_refl | reflexivity | reflexivity]
  end.

Lemma convertMessage_same message :
  well_formed message = true ->
  same_wire_messages (Hoisting.convertMessage message)
    (HoistingCopy.convertMessage message).
Proof.
  intros Hwf.
  unfold same_wire_messages, HoistingCopy.convertMessage, Hoisting.convertMessage, destructure.
  destruct (nullish message); [reflexivity|]. cbn [bind].
  pose proof (well_formed_get _ "content" (values_formed_own_props _ Hwf)) as Hc.
  destruct (get (own_props message) "role") as [| | | |s| | | |];
    try reflexivity.
  string_cases; try solve [same_call | apply same_message_refl | reflexivity].
  destruct (isSingleTextPart _) as [[|]| |];
    try solve [same_call | apply same_message_refl | reflexivity].
  cbn [bind].
  destruct (get (own_props message) "content") as [| | | | |items| | |bs];
    try solve [same_call | apply same_message_refl | reflexivity].
  - unfold array_map.
    assert (H : Forall (fun x => same_outcome (Hoisting.convertUserPart x)
                                   (HoistingCopy.convertUserPart x)) items).
    { apply Forall_forall. intros x Hx. apply callbacks_same.
      simpl in Hc. rewrite forallb_forall in Hc. apply Hc, Hx. }
    apply mapM_same in H.
    destruct (mapM Hoisting.convertUserPart items) as [ys| |],
      (mapM HoistingCopy.convertUserPart items) as [zs| |]; cbn [bind];
      try discriminate; try exact H.
    constructor; [|constructor]. right.
    eexists _, ys, zs. split; [reflexivity|]. split; [reflexivity | exact H].
  - unfold array_map.
    change (fun b => HoistingCopy.convertUserPart (VNum (byte_num b)))
      with (fun b => Hoisting.convertUserPart (VNum (byte_num b))).
    same_call.
Qed.

Lemma convertMessages_same hoisted :
  Forall (fun m => well_formed m = true) hoisted ->
  same_wire_messages
    (do pushed <- mapM Hoisting.convertMessage hoisted; Returns (concat pushed))
    (do pushed <- mapM HoistingCopy.convertMessage hoisted; Returns (concat pushed)).
Proof.
  unfold same_wire_messages.
  induction 1 as [|m hoisted Hm _ IH]; cbn [mapM bind concat]; [constructor|].
  pose proof (convertMessage_same m Hm) as H. unfold same_wire_messages in H.
  destruct (Hoisting.convertMessage m) as [ws| |],
    (HoistingCopy.convertMessage m) as [ws'| |]; cbn [bind];
    try discriminate; try exact H.
  destruct (mapM Hoisting.convertMessage hoisted) as [p| |],
    (mapM HoistingCopy.convertMessage hoisted) as [p'| |]; cbn [bind] in *;
    try discriminate; try exact IH.
  cbn [concat]. apply Forall2_app; assumption.
Qed.

(** The copy without the logging and the named converter, on any prompt
    whose objects have distinct keys: they raise the same exception, or
    they return wire messages that are the same but for the elements of the
    [content] array of a user message, which have the same properties (the
    named converter writes [type] and [text] first in a text part, the copy
    keeps the part's order). *)
Theorem copies_agree prompt :
  forallb well_formed prompt = true ->
  same_wire_messages
    (Hoisting.convertToOpenAICompatibleChatMessages prompt)
    (HoistingCopy.convertToOpenAICompatibleChatMessages prompt).
Proof.
  intros Hwf.
  unfold same_wire_messages, HoistingCopy.convertToOpenAICompatibleChatMessages,
    Hoisting.convertToOpenAICompatibleChatMessages, Hoisting.convertMessages.
  change (HoistingCopy.hoistPrompt prompt) with (Hoisting.hoistPrompt prompt).
  destruct (hoistPrompt prompt) as [hoisted| |] eqn:E; cbn [bind];
    [|reflexivity..].
  apply convertMessages_same.
  refine (mapM_preserves (fun m => well_formed m = true) _ prompt hoisted _ _ E);
    [|apply Forall_forall, forallb_forall, Hwf].
  intros x y _ Hx. apply hoist_well_formed, Hx.
Qed.

Lemma copies_agree_witness :
  let prompt :=
    [VObj [("role", VStr "user");
           ("content",
            VArr [VObj [("text", VStr "Look:"); ("type", VStr "text");
                        ("providerMetadata",
                         VObj [("openaiCompatible", VObj [("cache", VBool true)])])];
                  VObj [("type", VStr "image");
                        ("image", VUrl "https://example.com/a.png")]])]] in
  forallb well_formed prompt = true
  /\ Hoisting.convertToOpenAICompatibleChatMessages prompt
     = Returns
         [VObj [("role", VStr "user");
                ("content",
                 VArr [VObj [("type", VStr "text"); ("text", VStr "Look:");
                             ("cache", VBool true)];
                       VObj [("type", VStr "image_url");
                             ("image_url",
                              VObj [("url", VStr "https://example.com/a.png")])]])]]
  /\ HoistingCopy.convertToOpenAICompatibleChatMessages prompt
     = Returns
         [VObj [("role", VStr "user");
                ("content",
                 VArr [VObj [("text", VStr "Look:"); ("type", VStr "text");
                             ("cache", VBool true)];
                       VObj [("type", VStr "image_url");
                             ("image_url",
                              VObj [("url", VStr "https://example.com/a.png")])]])]]
  /\ same_wire_messages
       (Hoisting.convertToOpenAICompatibleChatMessages prompt)
       (HoistingCopy.convertToOpenAICompatibleChatMessages prompt).
Proof.
  cbv zeta. split; [reflexivity|]. split; [reflexivity|]. split; [reflexivity|].
  apply copies_agree. reflexivity.
Defined.

End CopyAgreement.

(** ** The hoisting converter and the reading converter side by side *)

Module VariantFacts.
Import JS Prompt Compare.
Import HoistingFacts.

Lemma hoistedFields_targetOnly pm :
  targetOnly pm = true -> hoistedFields pm = overlay pm.
Proof.
  unfold targetOnly, hoistedFields. destruct (foreign pm); [reflexivity|discriminate].
Qed.

Lemma overlay_noOverlay pm : noOverlay pm = true -> overlay pm = [].
Proof. unfold noOverlay. destruct (overlay pm); [reflexivity|discriminate]. Qed.

Lemma wireUserPart_reading p :
  targetOnly (userPartMetadata p) = true -> wireUserPart p = readWireUserPart p.
Proof.
  destruct p as [t pm|image mt pm|d mt pm]; simpl; intros H;
    rewrite ?(hoistedFields_targetOnly pm H); reflexivity.
Qed.

Lemma wireToolCalls_reading parts :
  forallb (fun p => match p with
                    | AssistantText _ _ => true
                    | ToolCallPart _ _ _ ppm => targetOnly ppm
                    end) parts = true ->
  wireToolCalls parts = readWireToolCalls parts.
Proof.
  induction parts as [|[t pm|id name args pm] parts IH]; simpl; intros H;
    [reflexivity | auto |].
  apply andb_prop in H as [Hp H].
  rewrite (hoistedFields_targetOnly pm Hp), (IH H). reflexivity.
Qed.

Lemma wireMessage_reading m :
  sameInBoth m = true -> wireMessage m = readWireMessage m.
Proof.
  unfold sameInBoth. intros H. apply andb_prop in H as [Hm H].
  pose proof (hoistedFields_targetOnly _ Hm) as Hhf.
  destruct m as [c pm|parts pm|parts pm|parts pm]; cbn [messageMetadata] in *.
  - simpl. rewrite Hhf. reflexivity.
  - assert (Hmulti :
      forallb (fun p => targetOnly (userPartMetadata p)) parts = true ->
      [VObj (assign [("role", VStr "user");
                     ("content", VArr (map wireUserPart parts))]
               (hoistedFields pm))]
      = [VObj (assign [("role", VStr "user");
                       ("content", VArr (map readWireUserPart parts))]
                 (overlay pm))]).
    { intros Hparts. rewrite Hhf.
      replace (map wireUserPart parts) with (map readWireUserPart parts);
        [reflexivity|].
      symmetry. apply map_ext_in. intros p Hp. apply wireUserPart_reading.
      rewrite forallb_forall in Hparts. apply Hparts, Hp. }
    destruct parts as [|[t ppm|image mt ppm|d mt ppm] [|q rest]];
      try exact (Hmulti H).
    apply andb_prop in H as [Hp Hno]. simpl.
    rewrite Hhf, (overlay_noOverlay pm Hno), (hoistedFields_targetOnly ppm Hp).
    reflexivity.
  - simpl. rewrite Hhf, (wireToolCalls_reading parts H). reflexivity.
  - apply andb_prop in H as [Hno H]. simpl.
    apply map_ext_in. intros [id name result ppm] Hp. simpl.
    rewrite forallb_forall in H. specialize (H _ Hp). simpl in H.
    rewrite Hhf, (overlay_noOverlay pm Hno), (hoistedFields_targetOnly ppm H).
    reflexivity.
Qed.

(** Where the two converters agree on the trees of a prompt: with safe
    overlays, no namespace but the target one, and no overlay on a message
    whose wire messages the reading converter builds from the parts alone,
    the hoisting converter and the reading converter return the same wire
    messages, or both refuse a file part. *)
Lemma converters_agree prompt :
  forallb safeMessage prompt = true ->
  forallb sameInBoth prompt = true ->
  Hoisting.convertToOpenAICompatibleChatMessages (encodePrompt prompt)
  = Reading.convertToOpenAICompatibleChatMessages (encodePrompt prompt).
Proof.
  intros Hsafe Hsame.
  rewrite (convert_safe_prompt prompt Hsafe), ReadingFacts.convert_reads.
  destruct (existsb hasFilePart prompt); [reflexivity|]. f_equal.
  clear Hsafe. induction prompt as [|m prompt IH]; [reflexivity|].
  simpl in Hsame. apply andb_prop in Hsame as [Hm Hsame].
  simpl. rewrite (wireMessage_reading m Hm), (IH Hsame). reflexivity.
Qed.

Lemma overlaid_assign base pm :
  overlaid pm (VObj (assign base (overlay pm))).
Proof.
  intros Hd k v Hk. apply member_assign_present; [|exact Hk].
  apply distinct_NoDup, Hd.
Qed.

Lemma overlaid_hoisted names base pm :
  In "providerMetadata" names -> safeMetadata names pm = true ->
  overlaid pm (VObj (assign base (hoistedFields pm))).
Proof.
  intros Hpm Hsafe _ k v Hk.
  apply member_assign_present; [apply (hoistedFields_NoDup names); assumption|].
  rewrite lookup_hoistedFields_overlay; [exact Hk|].
  intros ->. apply safeMetadata_parts in Hsafe as (_ & Hav & _ & _).
  rewrite (avoids_lookup _ _ _ Hav Hpm) in Hk. discriminate.
Qed.

Lemma Forall2_map_r {A B} (R : A -> B -> Prop) (f : A -> B) xs :
  (forall x, In x xs -> R x (f x)) -> Forall2 R xs (map f xs).
Proof.
  induction xs as [|x xs IH]; simpl; intros H; constructor; auto.
Qed.

Lemma readingOverlay_wire m : readingOverlay m (readWireMessage m).
Proof.
  destruct m as [c pm|parts pm|parts pm|parts pm].
  - repeat constructor. apply overlaid_assign.
  - destruct parts as [|[t ppm|image mt ppm|d mt ppm] [|q rest]];
      repeat constructor; apply overlaid_assign.
  - repeat constructor. apply overlaid_assign.
  - apply Forall2_map_r. intros [id name result ppm] _. apply overlaid_assign.
Qed.

(** In the reading converter the overlay wins over what the converter
    writes itself: every key of the overlay that a wire message takes (the
    message's; the part's for a collapsed user message and for the wire
    messages of a tool message) reads in the wire message as the overlay
    has it, [role] and [content] included. *)
Theorem reading_overlay_wins prompt :
  existsb hasFilePart prompt = false ->
  exists wss,
    Reading.convertToOpenAICompatibleChatMessages (encodePrompt prompt)
    = Returns (concat wss)
    /\ Forall2 readingOverlay prompt wss.
Proof.
  intros Hfile. exists (map readWireMessage prompt). split.
  - rewrite ReadingFacts.convert_reads, Hfile, flat_map_concat_map. reflexivity.
  - apply Forall2_map_r. intros m _. apply readingOverlay_wire.
Qed.

Lemma hoistingOverlay_wire m :
  safeMessage m = true -> hoistingOverlay m (wireMessage m).
Proof.
  intros Hsafe. apply andb_prop in Hsafe as [Hsafe Hparts].
  assert (Hin : In "providerMetadata" messageNames) by (simpl; tauto).
  destruct m as [c pm|parts pm|parts pm|parts pm]; cbn [messageMetadata] in *.
  - repeat constructor. apply (overlaid_hoisted messageNames); assumption.
  - destruct parts as [|[t ppm|image mt ppm|d mt ppm] [|q rest]];
      repeat constructor;
      try (apply (overlaid_hoisted messageNames); assumption).
    simpl in Hparts. rewrite andb_true_r in Hparts.
    apply (overlaid_hoisted ["type"; "text"; "providerMetadata"]);
      [simpl; tauto | exact Hparts].
  - repeat constructor. apply (overlaid_hoisted messageNames); assumption.
  - simpl. apply Forall_forall. intros w Hw.
    apply in_map_iff in Hw as ([id name result ppm] & <- & _).
    apply (overlaid_hoisted messageNames); assumption.
Qed.

(** In the hoisting converter, on the trees of a prompt, the overlay of the
    message wins over what the converter writes itself and over the
    overlays of the parts: every key of it reads in every wire message of
    the message as the overlay has it; a collapsed user message reads the
    keys of its part's overlay so. *)
Lemma hoisting_overlay_wins prompt :
  forallb safeMessage prompt = true ->
  existsb hasFilePart prompt = false ->
  exists wss,
    Hoisting.convertToOpenAICompatibleChatMessages (encodePrompt prompt)
    = Returns (concat wss)
    /\ Forall2 hoistingOverlay prompt wss.
Proof.
  intros Hsafe Hfile. exists (map wireMessage prompt). split.
  - rewrite (convert_safe_prompt prompt Hsafe), Hfile, flat_map_concat_map.
    reflexivity.
  - apply Forall2_map_r. intros m Hm. apply hoistingOverlay_wire.
    rewrite forallb_forall in Hsafe. apply Hsafe, Hm.
Qed.

Lemma readWireMessage_no_metadata m :
  forallb (avoids ["providerMetadata"]) (overlaysOf m) = true ->
  Forall (fun w => member w "providerMetadata" = VUndef) (readWireMessage m).
Proof.
  intros H. rewrite forallb_forall in H.
  assert (Hw : forall base bag,
            In bag (overlaysOf m) -> get base "providerMetadata" = VUndef ->
            member (VObj (assign base bag)) "providerMetadata" = VUndef).
  { intros base bag Hin Hbase. rewrite member_assign_absent; [exact Hbase|].
    apply (avoids_lookup ["providerMetadata"]); [apply H, Hin | left; reflexivity]. }
  destruct m as [c pm|parts pm|parts pm|parts pm]; cbn [overlaysOf messageMetadata] in *.
  - repeat constructor. apply Hw; [left; reflexivity | reflexivity].
  - destruct parts as [|[t ppm|image mt ppm|d mt ppm] [|q rest]];
      repeat constructor;
      (apply Hw; [simpl; tauto | reflexivity]).
  - repeat constructor. apply Hw; [left; reflexivity | reflexivity].
  - simpl. apply Forall_forall. intros w Hin.
    apply in_map_iff in Hin as ([id name result ppm] & <- & Hp). simpl.
    apply Hw; [|reflexivity]. right. apply in_map_iff.
    exists (ToolResultPart id name result ppm). auto.
Qed.

(** The reading converter sends nothing of the other namespaces: unless an
    overlay brings a [providerMetadata] key of its own, no wire message has
    one. *)
Theorem reading_drops_other_namespaces prompt :
  existsb hasFilePart prompt = false ->
  forallb (fun m => forallb (avoids ["providerMetadata"]) (overlaysOf m)) prompt
  = true ->
  exists ws,
    Reading.convertToOpenAICompatibleChatMessages (encodePrompt prompt)
    = Returns ws
    /\ Forall (fun w => member w "providerMetadata" = VUndef) ws.
Proof.
  intros Hfile Hav. eexists.
  split; [rewrite ReadingFacts.convert_reads, Hfile; reflexivity|].
  rewrite forallb_forall in Hav.
  apply Forall_forall. intros w Hw.
  apply in_flat_map in Hw as (m & Hm & Hw).
  pose proof (readWireMessage_no_metadata m (Hav m Hm)) as H.
  rewrite Forall_forall in H. apply H, Hw.
Qed.

Lemma length_flat_map_count {A} (f : A -> list value) (count : A -> nat) xs :
  (forall x, List.length (f x) = count x) ->
  List.length (flat_map f xs) = list_sum (map count xs).
Proof.
  intros H. induction xs as [|x xs IH]; simpl; [reflexivity|].
  rewrite length_app, H, IH. reflexivity.
Qed.

Lemma length_wireMessage m : List.length (wireMessage m) = wireCount m.
Proof.
  destruct m as [c pm|parts pm|parts pm|parts pm]; simpl;
    [reflexivity | | reflexivity | apply length_map].
  destruct parts as [|[] [|]]; reflexivity.
Qed.

Lemma length_readWireMessage m : List.length (readWireMessage m) = wireCount m.
Proof.
  destruct m as [c pm|parts pm|parts pm|parts pm]; simpl;
    [reflexivity | | reflexivity | apply length_map].
  destruct parts as [|[] [|]]; reflexivity.
Qed.

(** How many wire messages come back, for a prompt without file parts: one
    for each system, user and assistant message, and one for each result of
    a tool message, so that a tool message without results leaves no wire
    message.  The reading converter does so on every prompt, the hoisting
    converter when the overlays are safe. *)
Theorem wire_message_count prompt :
  existsb hasFilePart prompt = false ->
  (exists ws,
     Reading.convertToOpenAICompatibleChatMessages (encodePrompt prompt)
     = Returns ws
     /\ List.length ws = list_sum (map wireCount prompt))
  /\ (forallb safeMessage prompt = true ->
      exists ws,
        Hoisting.convertToOpenAICompatibleChatMessages (encodePrompt prompt)
        = Returns ws
        /\ List.length ws = list_sum (map wireCount prompt)).
Proof.
  intros Hfile. split.
  - eexists. split; [rewrite ReadingFacts.convert_reads, Hfile; reflexivity|].
    apply length_flat_map_count, length_readWireMessage.
  - intros Hsafe. eexists.
    split; [rewrite (convert_safe_prompt prompt Hsafe), Hfile; reflexivity|].
    apply length_flat_map_count, length_wireMessage.
Qed.

Lemma reading_overlay_wins_witness :
  existsb hasFilePart examplePrompt = false
  /\ exists wss,
       Reading.convertToOpenAICompatibleChatMessages (encodePrompt examplePrompt)
       = Returns (concat wss)
       /\ Forall2 readingOverlay examplePrompt wss.
Proof.
  split; [reflexivity|].
  apply (reading_overlay_wins examplePrompt). reflexivity.
Defined.

Lemma reading_drops_other_namespaces_witness :
  existsb hasFilePart foreignPrompt = false
  /\ forallb (fun m => forallb (avoids ["providerMetadata"]) (overlaysOf m))
       foreignPrompt = true
  /\ exists ws,
       Reading.convertToOpenAICompatibleChatMessages (encodePrompt foreignPrompt)
       = Returns ws
       /\ Forall (fun w => member w "providerMetadata" = VUndef) ws.
Proof.
  split; [reflexivity|]. split; [reflexivity|].
  apply (reading_drops_other_namespaces foreignPrompt); reflexivity.
Defined.

Lemma wire_message_count_witness :
  existsb hasFilePart examplePrompt = false
  /\ (exists ws,
        Reading.convertToOpenAICompatibleChatMessages (encodePrompt examplePrompt)
        = Returns ws
        /\ List.length ws = 5)
  /\ (forallb safeMessage examplePrompt = true ->
      exists ws,
        Hoisting.convertToOpenAICompatibleChatMessages (encodePrompt examplePrompt)
        = Returns ws
        /\ List.length ws = 5).
Proof.
  split; [reflexivity|].
  exact (wire_message_count examplePrompt eq_refl).
Defined.

End VariantFacts.

(** ** The retry budget of [embed] *)

Module EmbedLaws.
Import Embed EmbedTrace.

Section laws.

Context {VALUE EMBEDDING METADATA RESPONSE : Type}.
Context {SIGNAL HEADERS OPTIONS TELEMETRY PROVIDER : Type}.

Variable model :
  EmbeddingModel VALUE EMBEDDING METADATA RESPONSE SIGNAL HEADERS OPTIONS PROVIDER.
Variable v : VALUE.
Variable signal : option SIGNAL.
Variable hdrs : option HEADERS.
Variable opts : option OPTIONS.

Let request : doEmbedOptions VALUE SIGNAL HEADERS OPTIONS :=
  {| values := [v]; abortSignal := signal; headers := hdrs;
     providerOptions := opts |}.

Lemma doEmbedCalls_app (xs ys : list (event VALUE SIGNAL HEADERS OPTIONS)) :
  doEmbedCalls (xs ++ ys) = doEmbedCalls xs + doEmbedCalls ys.
Proof. unfold doEmbedCalls. rewrite filter_app, length_app. reflexivity. Qed.

Lemma retry_attempts_budget n :
  forall (w : world VALUE SIGNAL HEADERS OPTIONS PROVIDER) r w1,
    retry n (attempt model v signal hdrs opts) w = (r, w1) ->
    exists attempts,
      trace w1 = (trace w ++ attempts)%list
      /\ 1 <= doEmbedCalls attempts <= n + 1
      /\ forall e, r = Rejected e ->
           exists s s', doEmbed model request s = (Rejected e, s').
Proof.
  induction n as [|n IH]; intros w r w1; simpl;
    rewrite EmbedFacts.attempt_runs; fold request;
    destruct (doEmbed model request (provider_state w)) as [[resp|e] p] eqn:E.
  - intros [= <- <-]. eexists. split; [reflexivity|].
    split; [cbn; lia | discriminate].
  - destruct (isRetryable e); intros [= <- <-];
      (eexists; split; [reflexivity|]; split; [cbn; lia|]);
      intros e' [= <-]; eauto.
  - intros [= <- <-]. eexists. split; [reflexivity|].
    split; [cbn; lia | discriminate].
  - destruct (isRetryable e).
    + intros H. apply IH in H as (attempts & Ht & Hc & Hr).
      cbn in Ht. rewrite <- app_assoc in Ht.
      eexists. split; [exact Ht|]. split; [|exact Hr].
      rewrite doEmbedCalls_app. cbn. lia.
    + intros [= <- <-]. eexists. split; [reflexivity|]. split; [cbn; lia|].
      intros e' [= <-]. eauto.
Qed.

(** [embed] on a [v2] model, whatever the provider does: the outer span is
    opened after the retries are prepared and closed whether the call
    fulfils or is rejected; in between [doEmbed] is called at least once and
    at most [maxRetries + 1] times; the attributes of the outer span are
    set only when the call fulfils; and a rejection of [embed] is a
    rejection of [doEmbed], passed on as it was. *)
Theorem embed_stays_within_the_retry_budget
    (maxRetriesArg : option nat) (telemetry : option TELEMETRY)
    (w : world VALUE SIGNAL HEADERS OPTIONS PROVIDER) r w1 :
  specificationVersion model = "v2" ->
  embed model v opts maxRetriesArg signal hdrs telemetry w = (r, w1) ->
  exists attempts,
    trace w1
    = (trace w
         ++ RetriesPrepared (prepareRetries maxRetriesArg)
         :: SpanStarted "ai.embed"
         :: attempts
         ++ match r with
            | Fulfilled _ => [SpanAttributesSet "ai.embed"]
            | Rejected _ => []
            end
         ++ [SpanEnded "ai.embed"])%list
    /\ 1 <= doEmbedCalls attempts <= prepareRetries maxRetriesArg + 1
    /\ forall e, r = Rejected e ->
         exists s s', doEmbed model request s = (Rejected e, s').
Proof.
  intros Hv. unfold embed. rewrite Hv. cbn [String.eqb Ascii.eqb Bool.eqb negb].
  unfold await at 1, emit at 1, recordSpan, await at 1, emit at 1, await at 1.
  destruct (retry (prepareRetries maxRetriesArg) (attempt model v signal hdrs opts)
              (record (SpanStarted "ai.embed")
                 (record (RetriesPrepared (prepareRetries maxRetriesArg)) w)))
    as [[o|e] w2] eqn:E;
    apply retry_attempts_budget in E as (attempts & Ht & Hc & Hr); cbn in Ht.
  - unfold await, emit, resolve, record. cbn. intros [= <- <-]. cbn.
    exists attempts. rewrite Ht, <- !app_assoc. cbn.
    split; [reflexivity|]. split; [exact Hc | discriminate].
  - unfold record. cbn. intros [= <- <-]. cbn.
    exists attempts. rewrite Ht, <- !app_assoc. cbn.
    split; [reflexivity|]. split; [exact Hc|].
    intros e' [= <-]. apply Hr. reflexivity.
Qed.

(** A provider that rejects [doEmbed] with a transient error [K] times,
    going through the states [ps 0], [ps 1], ..., and then answers. *)
Section flaky_provider.

Variable K : nat.
Variable ps : nat -> PROVIDER.
Variable errs : nat -> error.
Variable modelResponse : doEmbedResult EMBEDDING METADATA RESPONSE.
Variable p' : PROVIDER.
Hypothesis fails :
  forall i, i < K ->
    doEmbed model request (ps i) = (Rejected (errs i), ps (S i))
    /\ isRetryable (errs i) = true.
Hypothesis answers : doEmbed model request (ps K) = (Fulfilled modelResponse, p').

Lemma retry_attempt_answers m :
  forall n j (w : world VALUE SIGNAL HEADERS OPTIONS PROVIDER),
    j + m = K -> m <= n -> provider_state w = ps j ->
    exists attempts,
      retry n (attempt model v signal hdrs opts) w
      = (Fulfilled
           {| outcome_embedding := hd_error (embeddings modelResponse);
              outcome_usage := match response_usage modelResponse with
                               | Some u => u
                               | None => {| tokens := NaN |}
                               end;
              outcome_providerMetadata := response_providerMetadata modelResponse;
              outcome_response := response_response modelResponse |},
         {| provider_state := p'; trace := (trace w ++ attempts)%list |})
      /\ doEmbedCalls attempts = m + 1.
Proof.
  induction m as [|m IH]; intros n j w Hj Hn Hw.
  - replace j with K in Hw by lia.
    exists [SpanStarted "ai.embed.doEmbed"; DoEmbedCalled request;
            SpanAttributesSet "ai.embed.doEmbed"; SpanEnded "ai.embed.doEmbed"].
    split; [|reflexivity].
    destruct n; simpl; rewrite EmbedFacts.attempt_runs; fold request;
      rewrite Hw, answers; reflexivity.
  - destruct n as [|n]; [lia|].
    destruct (fails j) as [Hfail Hretry]; [lia|].
    simpl. rewrite EmbedFacts.attempt_runs. fold request.
    rewrite Hw, Hfail, Hretry.
    destruct (IH n (S j)
                {| provider_state := ps (S j);
                   trace := (trace w ++
                               [SpanStarted "ai.embed.doEmbed";
                                DoEmbedCalled request;
                                SpanEnded "ai.embed.doEmbed"])%list |})
      as (attempts & Hrun & Hcalls); [lia | lia | reflexivity|].
    rewrite Hrun. cbn [trace]. rewrite <- app_assoc.
    eexists. split; [reflexivity|].
    rewrite doEmbedCalls_app, Hcalls. reflexivity.
Qed.

Lemma retry_attempt_gives_up n :
  forall j (w : world VALUE SIGNAL HEADERS OPTIONS PROVIDER),
    j + n < K -> provider_state w = ps j ->
    exists attempts,
      retry n (attempt model v signal hdrs opts) w
      = (Rejected (errs (j + n)),
         {| provider_state := ps (S (j + n));
            trace := (trace w ++ attempts)%list |})
      /\ doEmbedCalls attempts = n + 1.
Proof.
  induction n as [|n IH]; intros j w Hj Hw;
    (destruct (fails j) as [Hfail Hretry]; [lia|]);
    simpl; rewrite EmbedFacts.attempt_runs; fold request;
    rewrite Hw, Hfail, Hretry.
  - rewrite Nat.add_0_r. eexists. split; reflexivity.
  - destruct (IH (S j)
                {| provider_state := ps (S j);
                   trace := (trace w ++
                               [SpanStarted "ai.embed.doEmbed";
                                DoEmbedCalled request;
                                SpanEnded "ai.embed.doEmbed"])%list |})
      as (attempts & Hrun & Hcalls); [lia | reflexivity|].
    rewrite Hrun. cbn [trace]. rewrite <- app_assoc.
    replace (S j + n) with (j + S n) by lia.
    eexists. split; [reflexivity|].
    rewrite doEmbedCalls_app, Hcalls. reflexivity.
Qed.

(** [embed] against a provider that rejects [doEmbed] with a transient
    error [K] times and then answers.  When [maxRetries] is at least [K],
    [embed] fulfils with the result assembled from the answer, after
    [K + 1] calls of [doEmbed]; when it is less, [embed] is rejected with
    the error of the call number [maxRetries + 1], after that many
    calls. *)
Theorem embed_retries_doEmbed
    (maxRetriesArg : option nat) (telemetry : option TELEMETRY)
    (w : world VALUE SIGNAL HEADERS OPTIONS PROVIDER) :
  specificationVersion model = "v2" ->
  provider_state w = ps 0 ->
  let maxRetries := prepareRetries maxRetriesArg in
  exists attempts,
    embed model v opts maxRetriesArg signal hdrs telemetry w
    = (if Nat.leb K maxRetries
       then Fulfilled (assembled v modelResponse)
       else Rejected (errs maxRetries),
       {| provider_state := if Nat.leb K maxRetries then p' else ps (S maxRetries);
          trace :=
            (trace w
               ++ RetriesPrepared maxRetries :: SpanStarted "ai.embed" :: attempts
               ++ (if Nat.leb K maxRetries
                   then [SpanAttributesSet "ai.embed"]
                   else [])
               ++ [SpanEnded "ai.embed"])%list |})
    /\ doEmbedCalls attempts = (if Nat.leb K maxRetries then K else maxRetries) + 1.
Proof.
  intros Hv Hw maxRetries. unfold embed. rewrite Hv.
  cbn [String.eqb Ascii.eqb Bool.eqb negb]. fold maxRetries.
  unfold await at 1, emit at 1, recordSpan, await at 1, emit at 1, await at 1.
  destruct (Nat.leb_spec K maxRetries) as [Hle|Hlt].
  - destruct (retry_attempt_answers K maxRetries 0
                (record (SpanStarted "ai.embed")
                   (record (RetriesPrepared maxRetries) w)))
      as (attempts & Hrun & Hcalls); [reflexivity | exact Hle | exact Hw|].
    rewrite Hrun. exists attempts. split; [|exact Hcalls].
    unfold await, emit, resolve, record, assembled. cbn.
    rewrite <- !app_assoc. reflexivity.
  - destruct (retry_attempt_gives_up maxRetries 0
                (record (SpanStarted "ai.embed")
                   (record (RetriesPrepared maxRetries) w)))
      as (attempts & Hrun & Hcalls); [exact Hlt | exact Hw|].
    rewrite Hrun. exists attempts. split; [|exact Hcalls].
    unfold record. cbn. rewrite <- !app_assoc. reflexivity.
Qed.

End flaky_provider.

End laws.

Lemma embed_stays_within_the_retry_budget_witness :
  let run :=
    embed overloadedModel "hello" None None None None (@None unit) exampleWorld in
  specificationVersion overloadedModel = "v2"
  /\ run
     = (Rejected (APICallError true "overloaded"),
        {| provider_state := 3;
           trace :=
             [RetriesPrepared 2;
              SpanStarted "ai.embed";
              SpanStarted "ai.embed.doEmbed";
              DoEmbedCalled {| values := ["hello"]; abortSignal := None;
                               headers := None; providerOptions := None |};
              SpanEnded "ai.embed.doEmbed";
              SpanStarted "ai.embed.doEmbed";
              DoEmbedCalled {| values := ["hello"]; abortSignal := None;
                               headers := None; providerOptions := None |};
              SpanEnded "ai.embed.doEmbed";
              SpanStarted "ai.embed.doEmbed";
              DoEmbedCalled {| values := ["hello"]; abortSignal := None;
                               headers := None; providerOptions := None |};
              SpanEnded "ai.embed.doEmbed";
              SpanEnded "ai.embed"] |})
  /\ exists attempts,
       trace (snd run)
       = (trace exampleWorld
            ++ RetriesPrepared 2 :: SpanStarted "ai.embed" :: attempts
            ++ [] ++ [SpanEnded "ai.embed"])%list
       /\ 1 <= doEmbedCalls attempts <= 2 + 1
       /\ forall e, fst run = Rejected e ->
            exists s s',
              doEmbed overloadedModel
                {| values := ["hello"]; abortSignal := None; headers := None;
                   providerOptions := None |} s
              = (Rejected e, s').
Proof.
  cbv zeta. split; [reflexivity|]. split; [reflexivity|].
  exact (embed_stays_within_the_retry_budget overloadedModel "hello" None None None
           None (@None unit) exampleWorld _ _ eq_refl eq_refl).
Defined.

Lemma embed_retries_doEmbed_witness :
  let request :=
    {| values := ["hello"]; abortSignal := None; headers := None;
       providerOptions := None |} in
  let answer :=
    {| embeddings := [[1; 2; 3]%Z];
       response_usage := Some {| tokens := Num 4 |};
       response_providerMetadata := None;
       response_response := None |} in
  (forall i, i < 2 ->
     doEmbed flakyModel request i = (Rejected (APICallError true "overloaded"), S i)
     /\ isRetryable (APICallError true "overloaded") = true)
  /\ doEmbed flakyModel request 2 = (Fulfilled answer, 3)
  /\ exists attempts,
       embed flakyModel "hello" None None None None (@None unit) exampleWorld
       = (Fulfilled (DefaultEmbedResult "hello" (Some [1; 2; 3]%Z)
                       {| tokens := Num 4 |} None None),
          {| provider_state := 3;
             trace :=
               (RetriesPrepared 2 :: SpanStarted "ai.embed" :: attempts
                  ++ [SpanAttributesSet "ai.embed"; SpanEnded "ai.embed"])%list |})
       /\ doEmbedCalls attempts = 3.
Proof.
  cbv zeta.
  assert (H : forall i, i < 2 ->
            doEmbed flakyModel
              {| values := ["hello"]; abortSignal := None; headers := None;
                 providerOptions := None |} i
            = (Rejected (APICallError true "overloaded"), S i)
            /\ isRetryable (APICallError true "overloaded") = true).
  { intros i Hi. destruct i as [|[|i]]; [split; reflexivity..|lia]. }
  split; [exact H|]. split; [reflexivity|].
  exact (embed_retries_doEmbed flakyModel "hello" None None None 2 (fun i => i)
           (fun _ => APICallError true "overloaded") _ 3 H eq_refl
           None (@None unit) exampleWorld eq_refl eq_refl).
Defined.

End EmbedLaws.

(** ** The hoisting in place and the hoisting of a tree *)

Module StoreFacts.
Import Store.
Import JS Hoisting Prompt Compare.
Import HoistingFacts CopyFacts HoistingLaws CopyAgreement.

Local Notation "'occ'" := (count_occ Nat.eq_dec).

(** *** Property lists of trees are property lists *)

Lemma lookup_props k (ps : props) : lookup k ps = Props.lookup k ps.
Proof. induction ps as [|[k' v] ps IH]; simpl; [|rewrite IH]; reflexivity. Qed.

Lemma get_props ps k : get ps k = Props.get VUndef ps k.
Proof. unfold get, Props.get. rewrite lookup_props. reflexivity. Qed.

Lemma set_props (ps : props) k v : set ps k v = Props.set ps k v.
Proof.
  induction ps as [|[k' v'] ps IH]; simpl; [|rewrite IH]; reflexivity.
Qed.

Lemma assign_props (tgt src : props) : assign tgt src = Props.assign tgt src.
Proof.
  unfold assign, Props.assign. revert tgt.
  induction src as [|[k v] src IH]; intros tgt; simpl; [reflexivity|].
  rewrite set_props. apply IH.
Qed.

Lemma indexed_from_props i (xs : list value) :
  indexed_from i xs = Props.indexed_from i xs.
Proof.
  revert i. induction xs as [|x xs IH]; intros i; simpl; [|rewrite IH]; reflexivity.
Qed.

(** *** Property lists seen through a function *)

Section mapv.
Context {V W : Type} (f : V -> W).

Lemma lookup_mapv k (ps : list (string * V)) :
  Props.lookup k (Props.mapv f ps) = option_map f (Props.lookup k ps).
Proof.
  induction ps as [|[k' v] ps IH]; simpl; [reflexivity|].
  destruct (String.eqb k k'); [reflexivity | exact IH].
Qed.

Lemma get_mapv d (ps : list (string * V)) k :
  Props.get (f d) (Props.mapv f ps) k = f (Props.get d ps k).
Proof.
  unfold Props.get. rewrite lookup_mapv.
  destruct (Props.lookup k ps); reflexivity.
Qed.

Lemma set_mapv (ps : list (string * V)) k v :
  Props.set (Props.mapv f ps) k (f v) = Props.mapv f (Props.set ps k v).
Proof.
  induction ps as [|[k' v'] ps IH]; simpl; [reflexivity|].
  destruct (String.eqb k k'); simpl; [reflexivity|]. f_equal. exact IH.
Qed.

Lemma delete_mapv k (ps : list (string * V)) :
  Props.delete k (Props.mapv f ps) = Props.mapv f (Props.delete k ps).
Proof.
  unfold Props.delete. induction ps as [|[k' v'] ps IH]; simpl; [reflexivity|].
  destruct (String.eqb k k'); simpl; [exact IH|]. f_equal. exact IH.
Qed.

Lemma assign_mapv (tgt src : list (string * V)) :
  Props.assign (Props.mapv f tgt) (Props.mapv f src)
  = Props.mapv f (Props.assign tgt src).
Proof.
  unfold Props.assign. revert tgt.
  induction src as [|[k v] src IH]; intros tgt; simpl; [reflexivity|].
  rewrite set_mapv. apply IH.
Qed.

Lemma indexed_from_mapv i (xs : list V) :
  Props.indexed_from i (map f xs) = Props.mapv f (Props.indexed_from i xs).
Proof.
  revert i. induction xs as [|x xs IH]; intros i; simpl; [reflexivity|].
  f_equal. apply IH.
Qed.

Lemma keys_mapv (ps : list (string * V)) : map fst (Props.mapv f ps) = map fst ps.
Proof. unfold Props.mapv. rewrite map_map. reflexivity. Qed.

Lemma values_mapv (ps : list (string * V)) :
  Props.values (Props.mapv f ps) = map f (Props.values ps).
Proof. unfold Props.values, Props.mapv. rewrite !map_map. reflexivity. Qed.

Lemma mapv_nil (ps : list (string * V)) : Props.mapv f ps = [] <-> ps = [].
Proof. destruct ps; simpl; split; intros H; [reflexivity|reflexivity|discriminate..]. Qed.

End mapv.

(** *** Property lists of any kind *)

Section lists.
Context {V : Type}.
Implicit Types ps tgt src : list (string * V).

Lemma plookup_set ps k k' v :
  Props.lookup k (Props.set ps k' v)
  = if String.eqb k k' then Some v else Props.lookup k ps.
Proof.
  induction ps as [|[k0 v0] ps IH]; simpl.
  - destruct (String.eqb k k'); reflexivity.
  - destruct (String.eqb_spec k' k0) as [->|Hne]; simpl.
    + destruct (String.eqb k k0); reflexivity.
    + rewrite IH. destruct (String.eqb_spec k k0) as [->|]; [|reflexivity].
      destruct (String.eqb_spec k0 k') as [->|]; [contradiction | reflexivity].
Qed.

Lemma plookup_none k ps : Props.lookup k ps = None <-> ~ In k (map fst ps).
Proof.
  induction ps as [|[k' v] ps IH]; simpl; [tauto|].
  destruct (String.eqb_spec k k') as [->|Hne].
  - split; [discriminate | tauto].
  - rewrite IH. split; [intros H [E|Hin]; [congruence | tauto] | tauto].
Qed.

Lemma plookup_assign tgt src k :
  NoDup (map fst src) ->
  Props.lookup k (Props.assign tgt src)
  = match Props.lookup k src with
    | Some v => Some v
    | None => Props.lookup k tgt
    end.
Proof.
  unfold Props.assign. revert tgt.
  induction src as [|[k' v] src IH]; intros tgt Hnd; simpl; [reflexivity|].
  inversion Hnd as [|? ? Hk Hnd']; subst.
  rewrite (IH _ Hnd'), plookup_set.
  destruct (String.eqb_spec k k') as [->|Hne]; [|reflexivity].
  apply plookup_none in Hk. simpl in Hk. rewrite Hk. reflexivity.
Qed.

Lemma pdelete_set k ps k' v :
  Props.delete k (Props.set ps k' v)
  = if String.eqb k k' then Props.delete k ps
    else Props.set (Props.delete k ps) k' v.
Proof.
  unfold Props.delete.
  induction ps as [|[k0 v0] ps IH]; simpl.
  - destruct (String.eqb k k'); reflexivity.
  - destruct (String.eqb_spec k' k0) as [->|Hne]; simpl.
    + destruct (String.eqb_spec k k0) as [->|Hk]; simpl; [reflexivity|].
      rewrite String.eqb_refl. reflexivity.
    + rewrite IH.
      destruct (String.eqb_spec k k') as [->|Hk].
      * destruct (String.eqb k' k0); reflexivity.
      * destruct (String.eqb k k0); simpl; [reflexivity|].
        destruct (String.eqb_spec k' k0); [contradiction | reflexivity].
Qed.

Lemma pdelete_assign k tgt src :
  Props.delete k (Props.assign tgt src)
  = Props.assign (Props.delete k tgt) (Props.delete k src).
Proof.
  unfold Props.assign. revert tgt.
  induction src as [|[k' v] src IH]; intros tgt; simpl; [reflexivity|].
  rewrite IH, pdelete_set.
  change (Props.delete k ((k', v) :: src))
    with (if negb (String.eqb k k') then (k', v) :: Props.delete k src
          else Props.delete k src).
  destruct (String.eqb k k'); reflexivity.
Qed.

Lemma pdelete_absent k ps : Props.lookup k ps = None -> Props.delete k ps = ps.
Proof.
  unfold Props.delete. induction ps as [|[k' v] ps IH]; simpl; [reflexivity|].
  destruct (String.eqb k k'); [discriminate|]. intros H. simpl. f_equal. auto.
Qed.

Lemma pset_same ps k v : Props.lookup k ps = Some v -> Props.set ps k v = ps.
Proof.
  induction ps as [|[k' v'] ps IH]; simpl; [discriminate|].
  destruct (String.eqb_spec k k') as [->|Hne].
  - intros [= ->]. reflexivity.
  - intros H. f_equal. auto.
Qed.

Lemma plookup_indexed_from k i (xs : list V) :
  starts_with_digit k = false -> Props.lookup k (Props.indexed_from i xs) = None.
Proof.
  intros Hk. revert i. induction xs as [|x xs IH]; intros i; simpl; [reflexivity|].
  destruct (String.eqb_spec k (string_of_nat i)) as [->|_]; [|apply IH].
  rewrite string_of_nat_digit in Hk. discriminate.
Qed.

Lemma values_indexed_from i (xs : list V) :
  Props.values (Props.indexed_from i xs) = xs.
Proof.
  revert i. induction xs as [|x xs IH]; intros i; simpl; [reflexivity|].
  f_equal. apply IH.
Qed.

End lists.

(** *** Located values *)

Lemma located_induction (P : located -> Prop) :
  P LUndef -> P LNull -> (forall b, P (LBool b)) -> (forall n, P (LNum n)) ->
  (forall s, P (LStr s)) ->
  (forall a items, Forall P items -> P (LArr a items)) ->
  (forall a ps, Forall P (Props.values ps) -> P (LObj a ps)) ->
  (forall href, P (LUrl href)) -> (forall bs, P (LBytes bs)) ->
  forall l, P l.
Proof.
  intros Hundef Hnull Hbool Hnum Hstr Harr Hobj Hurl Hbytes.
  fix IH 1. intros [| |b|n|s|a items|a ps|href|bs].
  - exact Hundef.
  - exact Hnull.
  - apply Hbool.
  - apply Hnum.
  - apply Hstr.
  - apply Harr. induction items as [|x items IHitems]; constructor;
      [apply IH | exact IHitems].
  - apply Hobj. induction ps as [|[k x] ps IHps]; constructor;
      [apply IH | exact IHps].
  - apply Hurl.
  - apply Hbytes.
Qed.

Lemma holds_items h (items : list located) :
  fold_right (fun x rest => holds h x /\ rest) True items
  <-> Forall (holds h) items.
Proof.
  induction items as [|x items IH]; simpl.
  - split; [constructor | trivial].
  - rewrite IH. split; [intros [H1 H2]; constructor; assumption|].
    intros H. inversion H; subst. split; assumption.
Qed.

Lemma holds_props h (ps : list (string * located)) :
  fold_right (fun kv rest => holds h (snd kv) /\ rest) True ps
  <-> Forall (holds h) (Props.values ps).
Proof.
  induction ps as [|x ps IH]; simpl.
  - split; [constructor | trivial].
  - rewrite IH. split; [intros [H1 H2]; constructor; assumption|].
    intros H. inversion H; subst. split; assumption.
Qed.

Lemma holds_arr h a items :
  holds h (LArr a items)
  <-> nth_error h a = Some (Arr (map ref_of items)) /\ Forall (holds h) items.
Proof. simpl. rewrite holds_items. tauto. Qed.

Lemma holds_obj h a ps :
  holds h (LObj a ps)
  <-> nth_error h a = Some (Obj (Props.mapv ref_of ps))
      /\ Forall (holds h) (Props.values ps).
Proof. simpl. rewrite holds_props. tauto. Qed.

Lemma addresses_of_values ps : addresses_of ps = flat_map addresses (Props.values ps).
Proof.
  unfold addresses_of, Props.values.
  induction ps as [|kv ps IH]; simpl; [|rewrite IH]; reflexivity.
Qed.

(** A store that agrees with [h] at the addresses of [l] holds [l] too. *)
Lemma holds_frame h h' : forall l,
  holds h l ->
  (forall x, In x (addresses l) -> nth_error h' x = nth_error h x) ->
  holds h' l.
Proof.
  induction l as [| | | | |a items IH|a ps IH| |] using located_induction;
    try (intros; exact I).
  - rewrite !holds_arr. intros [Ha Hitems] Hsame. split.
    + rewrite Hsame by (simpl; tauto). exact Ha.
    + assert (Hin : forall x, In x (flat_map addresses items) ->
                              nth_error h' x = nth_error h x)
        by (intros x Hx; apply Hsame; simpl; tauto).
      clear Hsame Ha. induction IH as [|x items Hx _ IHitems]; [constructor|].
      inversion Hitems; subst. simpl in Hin. constructor.
      * apply Hx; [assumption|]. intros y Hy. apply Hin, in_or_app. tauto.
      * apply IHitems; [assumption|]. intros y Hy. apply Hin, in_or_app. tauto.
  - rewrite !holds_obj. intros [Ha Hps] Hsame. split.
    + rewrite Hsame by (simpl; tauto). exact Ha.
    + assert (Hin : forall x, In x (flat_map addresses (Props.values ps)) ->
                              nth_error h' x = nth_error h x).
      { intros x Hx. apply Hsame. simpl. right.
        fold (addresses_of ps). rewrite addresses_of_values. exact Hx. }
      clear Hsame Ha. induction IH as [|x items Hx _ IHitems]; [constructor|].
      inversion Hps; subst. simpl in Hin. constructor.
      * apply Hx; [assumption|]. intros y Hy. apply Hin, in_or_app. tauto.
      * apply IHitems; [assumption|]. intros y Hy. apply Hin, in_or_app. tauto.
Qed.

(** *** Reading a located value *)

Lemma own_props_value l : own_props (value_of l) = Props.mapv value_of (own l).
Proof.
  destruct l as [| | | |s|a items|a ps| |bs]; simpl; try reflexivity.
  - unfold indexed, Props.indexed. rewrite indexed_from_props.
    rewrite <- indexed_from_mapv, map_map. reflexivity.
  - unfold indexed, Props.indexed. rewrite indexed_from_props.
    rewrite <- indexed_from_mapv. reflexivity.
  - unfold indexed, Props.indexed. rewrite indexed_from_props.
    rewrite <- indexed_from_mapv, map_map. reflexivity.
Qed.

Lemma own_props_ref h l :
  holds h l -> Store.own_props h (ref_of l) = Props.mapv ref_of (own l).
Proof.
  destruct l as [| | | |s|a items|a ps| |bs]; simpl; try reflexivity.
  - intros _. unfold Props.indexed. rewrite <- indexed_from_mapv, map_map.
    reflexivity.
  - intros [-> _]. unfold Props.indexed. rewrite <- indexed_from_mapv. reflexivity.
  - intros [-> _]. reflexivity.
  - intros _. unfold Props.indexed. rewrite <- indexed_from_mapv, map_map.
    reflexivity.
Qed.

Lemma holds_own h l : holds h l -> Forall (holds h) (Props.values (own l)).
Proof.
  destruct l as [| | | |s|a items|a ps| |bs]; try (intros; constructor).
  - intros _. simpl. unfold Props.indexed. rewrite values_indexed_from.
    apply Forall_forall. intros x Hx. apply in_map_iff in Hx as (c & <- & _).
    exact I.
  - rewrite holds_arr. intros [_ H]. simpl. unfold Props.indexed.
    rewrite values_indexed_from. exact H.
  - rewrite holds_obj. intros [_ H]. exact H.
  - intros _. simpl. unfold Props.indexed. rewrite values_indexed_from.
    apply Forall_forall. intros x Hx. apply in_map_iff in Hx as (c & <- & _).
    exact I.
Qed.

Lemma lookup_values {V} k (ps : list (string * V)) v :
  Props.lookup k ps = Some v -> In v (Props.values ps).
Proof.
  induction ps as [|[k' v'] ps IH]; simpl; [discriminate|].
  destruct (String.eqb k k'); [intros [= ->]; tauto | auto].
Qed.

Lemma holds_get h ps k :
  Forall (holds h) (Props.values ps) -> holds h (Props.get LUndef ps k).
Proof.
  intros H. unfold Props.get. destruct (Props.lookup k ps) eqn:E; [|exact I].
  rewrite Forall_forall in H. apply H. eapply lookup_values, E.
Qed.

Lemma truthy_ref l : Store.truthy (ref_of l) = truthy (value_of l).
Proof. destruct l; reflexivity. Qed.

Lemma nullish_ref l : Store.nullish (ref_of l) = nullish (value_of l).
Proof. destruct l; reflexivity. Qed.

Lemma get_value ps k :
  get (Props.mapv value_of ps) k = value_of (Props.get LUndef ps k).
Proof. rewrite get_props. apply (get_mapv value_of LUndef). Qed.

Lemma get_ref ps k :
  Props.get RUndef (Props.mapv ref_of ps) k = ref_of (Props.get LUndef ps k).
Proof. apply (get_mapv ref_of LUndef). Qed.

(** [l.k] for a data key on the tree and in the store. *)
Lemma member_value l k :
  k <> "length" ->
  member (value_of l) k = value_of (Props.get LUndef (own l) k).
Proof.
  intros Hk. rewrite member_get by exact Hk.
  rewrite own_props_value. apply get_value.
Qed.

Lemma get_store h l k :
  holds h l -> Store.get h (ref_of l) k = ref_of (Props.get LUndef (own l) k).
Proof.
  intros H. unfold Store.get. rewrite (own_props_ref h l H). apply get_ref.
Qed.

(** *** The store after an update *)

Lemma update_length a o h : List.length (update a o h) = List.length h.
Proof.
  revert a. induction h as [|x h IH]; intros [|a]; simpl; auto.
Qed.

Lemma update_same a o h :
  a < List.length h -> nth_error (update a o h) a = Some o.
Proof.
  revert a. induction h as [|x h IH]; intros [|a]; simpl; try lia; [reflexivity|].
  intros H. apply IH. lia.
Qed.

Lemma update_other a o h x : x <> a -> nth_error (update a o h) x = nth_error h x.
Proof.
  revert a x. induction h as [|y h IH]; intros [|a] [|x]; simpl; try reflexivity;
    try congruence.
  intros H. apply IH. congruence.
Qed.

Lemma nth_error_length {A} (h : list A) a o : nth_error h a = Some o -> a < List.length h.
Proof. intros H. apply nth_error_Some. congruence. Qed.

(** *** Counting addresses *)

Ltac count := unfold addr in *; lia.

Lemma occ_addresses_of_app ps qs x :
  occ (addresses_of (ps ++ qs)) x
  = occ (addresses_of ps) x + occ (addresses_of qs) x.
Proof.
  unfold addresses_of. rewrite flat_map_app, count_occ_app. reflexivity.
Qed.

Lemma occ_addresses_of_cons k v ps x :
  occ (addresses_of ((k, v) :: ps)) x
  = occ (addresses v) x + occ (addresses_of ps) x.
Proof. unfold addresses_of. simpl. rewrite count_occ_app. reflexivity. Qed.

Lemma occ_delete k ps x :
  occ (addresses (Props.get LUndef ps k)) x
  + occ (addresses_of (Props.delete k ps)) x
  <= occ (addresses_of ps) x.
Proof.
  unfold Props.get, Props.delete, addresses_of.
  induction ps as [|[k' v] ps IH]; simpl; [count|].
  rewrite count_occ_app. destruct (String.eqb k k'); simpl.
  - destruct (Props.lookup k ps); simpl in IH; count.
  - rewrite count_occ_app. count.
Qed.

Lemma occ_delete_le k ps x :
  occ (addresses_of (Props.delete k ps)) x <= occ (addresses_of ps) x.
Proof. pose proof (occ_delete k ps x). count. Qed.

Lemma occ_get k ps x :
  occ (addresses (Props.get LUndef ps k)) x <= occ (addresses_of ps) x.
Proof. pose proof (occ_delete k ps x). count. Qed.

Lemma occ_set_le ps k v x :
  occ (addresses_of (Props.set ps k v)) x
  <= occ (addresses_of ps) x + occ (addresses v) x.
Proof.
  unfold addresses_of.
  induction ps as [|[k' v'] ps IH]; simpl.
  - rewrite count_occ_app. simpl. count.
  - destruct (String.eqb k k'); simpl; rewrite !count_occ_app; count.
Qed.

Lemma occ_assign tgt src x :
  occ (addresses_of (Props.assign tgt src)) x
  <= occ (addresses_of tgt) x + occ (addresses_of src) x.
Proof.
  unfold Props.assign. revert tgt.
  induction src as [|[k v] src IH]; intros tgt; cbn [fold_left fst snd].
  - unfold addresses_of at 3. simpl. count.
  - rewrite occ_addresses_of_cons.
    pose proof (IH (Props.set tgt k v)). pose proof (occ_set_le tgt k v x). count.
Qed.

Lemma occ_set ps k v x :
  NoDup (map fst ps) ->
  occ (addresses_of (Props.set ps k v)) x
  <= occ (addresses_of (Props.delete k ps)) x + occ (addresses v) x.
Proof.
  induction ps as [|[k' v'] ps IH]; intros Hnd.
  - cbn [Props.set]. rewrite occ_addresses_of_cons.
    unfold Props.delete, addresses_of. simpl. count.
  - inversion Hnd as [|? ? Hk Hnd']; subst.
    change (Props.delete k ((k', v') :: ps))
      with (if negb (String.eqb k k') then (k', v') :: Props.delete k ps
            else Props.delete k ps).
    cbn [Props.set].
    destruct (String.eqb_spec k k') as [->|Hne]; cbn [negb].
    + rewrite occ_addresses_of_cons.
      rewrite pdelete_absent by (apply plookup_none; exact Hk). count.
    + rewrite !occ_addresses_of_cons. specialize (IH Hnd'). count.
Qed.

Lemma occ_own l x : occ (addresses_of (own l)) x <= occ (addresses l) x.
Proof.
  assert (Hflat : forall i (items : list located),
            addresses_of (Props.indexed_from i items) = flat_map addresses items).
  { intros i items. rewrite addresses_of_values, values_indexed_from. reflexivity. }
  assert (Hnone : forall {A} (f : A -> located) (xs : list A),
            (forall a, addresses (f a) = []) -> flat_map addresses (map f xs) = []).
  { intros A f xs Hf. induction xs as [|y xs IH]; simpl; [reflexivity|].
    rewrite Hf, IH. reflexivity. }
  destruct l as [| | | |s|a items|a ps| |bs]; simpl; try count.
  - unfold Props.indexed. rewrite Hflat, Hnone by reflexivity. simpl. count.
  - unfold Props.indexed. rewrite Hflat. destruct (Nat.eq_dec a x); count.
  - fold (addresses_of ps). destruct (Nat.eq_dec a x); count.
  - unfold Props.indexed. rewrite Hflat, Hnone by reflexivity. simpl. count.
Qed.

Lemma occ_strip k l x : occ (addresses (strip k l)) x <= occ (addresses l) x.
Proof.
  destruct l as [| | | | | |a ps| |]; simpl; try count.
  fold (addresses_of (Props.delete k ps)). fold (addresses_of ps).
  pose proof (occ_delete_le k ps x). destruct (Nat.eq_dec a x); count.
Qed.

Lemma apart_NoDup xs : apart xs = true <-> NoDup xs.
Proof.
  induction xs as [|x xs IH]; simpl.
  - split; [constructor | reflexivity].
  - rewrite andb_true_iff, negb_true_iff, IH. split.
    + intros [Hx Hnd]. constructor; [|exact Hnd]. intros Hin.
      assert (E : existsb (Nat.eqb x) xs = true)
        by (apply existsb_exists; exists x; split; [exact Hin | apply Nat.eqb_refl]).
      congruence.
    + intros H. inversion H as [|? ? Hx Hnd]; subst. split; [|exact Hnd].
      destruct (existsb (Nat.eqb x) xs) eqn:E; [|reflexivity].
      apply existsb_exists in E as (y & Hy & Hxy). apply Nat.eqb_eq in Hxy.
      subst. contradiction.
Qed.

Lemma NoDup_occ xs : NoDup xs <-> forall x, occ xs x <= 1.
Proof. apply NoDup_count_occ. Qed.

Lemma occ_in xs x : In x xs <-> 1 <= occ xs x.
Proof. rewrite (count_occ_In Nat.eq_dec). count. Qed.

(** *** What [Object.assign] leaves under a key *)

Lemma plookup_assign_absent {V} (tgt src : list (string * V)) k :
  Props.lookup k src = None ->
  Props.lookup k (Props.assign tgt src) = Props.lookup k tgt.
Proof.
  unfold Props.assign. revert tgt.
  induction src as [|[k' v] src IH]; intros tgt; simpl; [reflexivity|].
  destruct (String.eqb_spec k k') as [->|Hne]; [discriminate|].
  intros H. rewrite (IH _ H), plookup_set.
  destruct (String.eqb_spec k k'); [contradiction | reflexivity].
Qed.

Lemma plookup_assign_present {V} (tgt src : list (string * V)) k :
  Props.lookup k src <> None ->
  exists v, In (k, v) src /\ Props.lookup k (Props.assign tgt src) = Some v.
Proof.
  revert tgt.
  induction src as [|[k' v] src IH]; intros tgt H; [simpl in H; congruence|].
  change (Props.assign tgt ((k', v) :: src))
    with (Props.assign (Props.set tgt k' v) src).
  destruct (Props.lookup k src) eqn:E.
  - destruct (IH (Props.set tgt k' v)) as (w & Hin & Hw); [congruence|].
    exists w. split; [right; exact Hin | exact Hw].
  - simpl in H. rewrite E in H.
    destruct (String.eqb_spec k k') as [->|Hne]; [|congruence].
    exists v. split; [left; reflexivity|].
    rewrite plookup_assign_absent by exact E.
    rewrite plookup_set, String.eqb_refl. reflexivity.
Qed.

Lemma NoDup_keys_passign (tgt src : list (string * located)) :
  NoDup (map fst tgt) -> NoDup (map fst (Props.assign tgt src)).
Proof.
  intros H. rewrite <- (keys_mapv value_of), <- assign_mapv, <- assign_props.
  apply NoDup_keys_assign. unfold keys. rewrite keys_mapv. exact H.
Qed.

Lemma Forall_values_set {V} (Q : V -> Prop) (ps : list (string * V)) k v :
  NoDup (map fst ps) ->
  Forall Q (Props.values (Props.delete k ps)) -> Q v ->
  Forall Q (Props.values (Props.set ps k v)).
Proof.
  intros Hnd Hps Hv. induction ps as [|[k' v'] ps IH].
  - repeat constructor. exact Hv.
  - inversion Hnd as [|? ? Hk Hnd']; subst.
    change (Props.delete k ((k', v') :: ps))
      with (if negb (String.eqb k k') then (k', v') :: Props.delete k ps
            else Props.delete k ps) in Hps.
    cbn [Props.set].
    destruct (String.eqb_spec k k') as [->|Hne]; cbn [negb] in Hps.
    + rewrite pdelete_absent in Hps by (apply plookup_none; exact Hk).
      constructor; assumption.
    + inversion Hps; subst. constructor; [assumption|]. apply IH; assumption.
Qed.

Lemma Forall_values_delete {V} (Q : V -> Prop) (ps : list (string * V)) k :
  Forall Q (Props.values ps) -> Forall Q (Props.values (Props.delete k ps)).
Proof.
  unfold Props.values, Props.delete. intros H.
  induction ps as [|[k' v'] ps IH]; simpl; [constructor|].
  inversion H; subst. destruct (String.eqb k k'); simpl; auto.
Qed.

Lemma Forall_values_pset {V} (Q : V -> Prop) (ps : list (string * V)) k v :
  Forall Q (Props.values ps) -> Q v -> Forall Q (Props.values (Props.set ps k v)).
Proof.
  intros H Hv. induction ps as [|[k' v'] ps IH]; simpl.
  - repeat constructor. exact Hv.
  - inversion H; subst. destruct (String.eqb k k'); constructor; auto.
Qed.

Lemma Forall_values_assign {V} (Q : V -> Prop) (tgt src : list (string * V)) :
  Forall Q (Props.values tgt) -> Forall Q (Props.values src) ->
  Forall Q (Props.values (Props.assign tgt src)).
Proof.
  unfold Props.assign. revert tgt.
  induction src as [|[k v] src IH]; intros tgt Ht Hs; simpl; [exact Ht|].
  inversion Hs; subst. apply IH; [|assumption].
  apply Forall_values_pset; assumption.
Qed.

(** *** Counting the addresses of what the hoisting leaves *)

Lemma occ_obj a ps x :
  occ (addresses (LObj a ps)) x
  = (if Nat.eq_dec a x then 1 else 0) + occ (addresses_of ps) x.
Proof. simpl. fold (addresses_of ps). destruct (Nat.eq_dec a x); reflexivity. Qed.

Lemma occ_delete_in k v ps x :
  In (k, v) ps ->
  occ (addresses v) x + occ (addresses_of (Props.delete k ps)) x
  <= occ (addresses_of ps) x.
Proof.
  induction ps as [|[k' v'] ps IH]; [intros []|].
  change (Props.delete k ((k', v') :: ps))
    with (if negb (String.eqb k k') then (k', v') :: Props.delete k ps
          else Props.delete k ps).
  rewrite occ_addresses_of_cons. intros [E|Hin].
  - injection E as -> ->. rewrite String.eqb_refl. cbn [negb].
    pose proof (occ_delete_le k ps x). count.
  - specialize (IH Hin).
    destruct (String.eqb k k'); cbn [negb]; rewrite ?occ_addresses_of_cons; count.
Qed.

Lemma get_own_other l k :
  starts_with_digit k = false ->
  (forall a ps, l <> LObj a ps) ->
  Props.get LUndef (own l) k = LUndef.
Proof.
  intros Hk Hl. unfold Props.get.
  destruct l as [| | | |s|a items|a ps| |bs]; try reflexivity;
    try (simpl; unfold Props.indexed; rewrite plookup_indexed_from by exact Hk;
         reflexivity).
  destruct (Hl a ps eq_refl).
Qed.

Lemma ref_of_strip k l : ref_of (strip k l) = ref_of l.
Proof. destruct l; reflexivity. Qed.

Section here.
Variable ps : list (string * located).
Let P := Props.get LUndef ps "providerMetadata".
Let B := Props.get LUndef (own P) "openaiCompatible".
Let ps1 := Props.assign ps (own B).
Let X := Props.get LUndef ps1 "providerMetadata".
Let D := Props.delete "providerMetadata" ps1.

Lemma occ_bag x :
  occ (addresses_of (own B)) x + occ (addresses (strip "openaiCompatible" P)) x
  <= occ (addresses P) x.
Proof.
  unfold B. generalize P as p. intros p.
  destruct p as [| | | |s|b items|b xps| |bs];
    try (rewrite get_own_other by (reflexivity || discriminate);
         unfold addresses_of; simpl; count).
  cbn [own strip]. rewrite !occ_obj.
  pose proof (occ_delete "openaiCompatible" xps x).
  pose proof (occ_own (Props.get LUndef xps "openaiCompatible") x). count.
Qed.

Lemma metadata_cases :
  (Props.lookup "providerMetadata" (own B) = None /\ X = P)
  \/ exists v, In ("providerMetadata", v) (own B) /\ X = v
               /\ Props.lookup "providerMetadata" ps1 = Some v.
Proof.
  destruct (Props.lookup "providerMetadata" (own B)) eqn:E.
  - right.
    destruct (plookup_assign_present ps (own B) "providerMetadata") as (v & Hin & Hv);
      [congruence|].
    exists v. split; [exact Hin|]. split; [|exact Hv].
    unfold X, ps1, Props.get. rewrite Hv. reflexivity.
  - left. split; [reflexivity|].
    unfold X, ps1, P, Props.get. rewrite plookup_assign_absent by exact E.
    reflexivity.
Qed.

Lemma occ_metadata x : occ (addresses X) x <= occ (addresses_of ps) x.
Proof.
  pose proof (occ_get "providerMetadata" ps x) as HP. fold P in HP.
  destruct metadata_cases as [[_ ->]|(v & Hin & -> & _)]; [exact HP|].
  pose proof (occ_delete_in _ _ _ x Hin). pose proof (occ_bag x). count.
Qed.

Lemma occ_hoisted x :
  occ (addresses_of D) x + occ (addresses (strip "openaiCompatible" X)) x
  <= occ (addresses_of ps) x.
Proof.
  pose proof (occ_delete "providerMetadata" ps x) as HP. fold P in HP.
  pose proof (occ_bag x) as Hbag.
  unfold D, ps1. rewrite pdelete_assign.
  pose proof (occ_assign (Props.delete "providerMetadata" ps)
                (Props.delete "providerMetadata" (own B)) x) as Hassign.
  destruct metadata_cases as [[E ->]|(v & Hin & -> & _)].
  - rewrite (pdelete_absent _ (own B) E) in Hassign |- *. count.
  - pose proof (occ_delete_in _ _ _ x Hin).
    pose proof (occ_strip "openaiCompatible" v x). count.
Qed.

(** Lines 10-16 on the tree of a located object whose bag is truthy. *)
Lemma hoist_here_obj a :
  truthy (value_of B) = true ->
  hoist_here (value_of (LObj a ps))
  = if nullish (value_of X) then Throws TypeError
    else Returns (value_of (hoisted_here (LObj a ps))).
Proof.
  intros Ht.
  assert (Hbag : member (member (value_of (LObj a ps)) "providerMetadata")
                   "openaiCompatible" = value_of B).
  { rewrite (member_value (LObj a ps)) by discriminate.
    rewrite member_value by discriminate. reflexivity. }
  unfold hoist_here. rewrite Hbag, Ht. cbn [value_of].
  fold (Props.mapv value_of ps).
  rewrite own_props_value, assign_props, assign_mapv. fold ps1.
  rewrite get_value. fold X.
  change (hoisted_here (LObj a ps))
    with (if truthy (value_of B)
          then match own (strip "openaiCompatible" X) with
               | [] => LObj a D
               | _ :: _ =>
                   LObj a (Props.set ps1 "providerMetadata"
                             (strip "openaiCompatible" X))
               end
          else LObj a ps).
  rewrite Ht.
  assert (Hother :
    own (strip "openaiCompatible" X) = own X ->
    strip "openaiCompatible" X = X ->
    nullish (value_of X) = false ->
    match own_props (value_of X) with
    | [] => Returns (VObj (delete "providerMetadata" (Props.mapv value_of ps1)))
    | _ :: _ => Returns (VObj (Props.mapv value_of ps1))
    end
    = Returns (value_of
        match own (strip "openaiCompatible" X) with
        | [] => LObj a D
        | _ :: _ =>
            LObj a (Props.set ps1 "providerMetadata" (strip "openaiCompatible" X))
        end)).
  { intros -> -> Hnull. rewrite own_props_value.
    destruct (own X) as [|kv rest] eqn:Hown; cbn [Props.mapv map value_of].
    - fold (Props.mapv value_of D). unfold D.
      rewrite <- delete_mapv. reflexivity.
    - rewrite pset_same; [reflexivity|].
      unfold X, Props.get in Hnull, Hown |- *.
      destruct (Props.lookup "providerMetadata" ps1); [reflexivity|].
      discriminate. }
  destruct X as [| |b|n|s|b items|b xps|href|bs] eqn:EX;
    try reflexivity; try (apply Hother; reflexivity).
  cbn [value_of nullish strip own].
  fold (Props.mapv value_of xps).
  change (delete "openaiCompatible" (Props.mapv value_of xps))
    with (Props.delete "openaiCompatible" (Props.mapv value_of xps)).
  rewrite delete_mapv.
  destruct (Props.delete "openaiCompatible" xps) as [|kv rest] eqn:Hdel;
    cbn [Props.mapv map value_of].
  - fold (Props.mapv value_of D). unfold D. rewrite <- delete_mapv. reflexivity.
  - fold (Props.mapv value_of (kv :: rest)).
    fold (Props.mapv value_of
            (Props.set ps1 "providerMetadata" (LObj b (kv :: rest)))).
    rewrite <- set_mapv, set_props. reflexivity.
Qed.

Lemma get_store_obj h a qs k :
  nth_error h a = Some (Obj (Props.mapv ref_of qs)) ->
  Store.get h (RObj a) k = ref_of (Props.get LUndef qs k).
Proof.
  intros H. unfold Store.get, Store.own_props. rewrite H. apply get_ref.
Qed.

(** Lines 10-16 in the store, on the same object. *)
Lemma hoist_here_store h a :
  holds h (LObj a ps) ->
  NoDup (addresses (LObj a ps)) ->
  NoDup (map fst ps) ->
  truthy (value_of B) = true ->
  if nullish (value_of X) then
    Store.hoist_here (RObj a) h = Throws TypeError
  else
    exists h1,
      Store.hoist_here (RObj a) h = Returns h1
      /\ holds h1 (hoisted_here (LObj a ps))
      /\ (forall x, ~ In x (addresses (LObj a ps)) ->
                    nth_error h1 x = nth_error h x)
      /\ List.length h1 = List.length h.
Proof.
  intros Hholds Hnd Hkeys Ht.
  apply holds_obj in Hholds as [Ha Hch].
  assert (Hocc : forall x, occ (addresses_of ps) x <= 1
                           /\ (x = a -> occ (addresses_of ps) x = 0)).
  { intros x. apply NoDup_occ with (x := x) in Hnd. rewrite occ_obj in Hnd.
    destruct (Nat.eq_dec a x); split; intros; subst; count || contradiction. }
  assert (HP : holds h P) by (apply holds_get, Hch).
  assert (HB : holds h B) by (apply holds_get, holds_own, HP).
  assert (Hps1 : Forall (holds h) (Props.values ps1))
    by (apply Forall_values_assign; [exact Hch | apply holds_own, HB]).
  assert (HX : holds h X) by (apply holds_get, Hps1).
  assert (Halen : a < List.length h) by (eapply nth_error_length, Ha).
  unfold Store.hoist_here.
  rewrite (get_store_obj h a ps _ Ha). fold P.
  rewrite (get_store h P _ HP). fold B.
  rewrite truthy_ref, Ht, (own_props_ref h B HB).
  unfold assign_to. rewrite Ha, assign_mapv. fold ps1.
  set (h1 := update a (Obj (Props.mapv ref_of ps1)) h).
  assert (Ha1 : nth_error h1 a = Some (Obj (Props.mapv ref_of ps1)))
    by (apply update_same, Halen).
  rewrite (get_store_obj h1 a ps1 _ Ha1). fold X. rewrite nullish_ref.
  destruct (nullish (value_of X)) eqn:Hnull; [reflexivity|].
  set (X' := strip "openaiCompatible" X).
  assert (HoccX : forall x, In x (addresses X) -> x <> a).
  { intros x Hx ->. apply occ_in in Hx. pose proof (occ_metadata a).
    destruct (Hocc a) as [_ H0]. specialize (H0 eq_refl). count. }
  assert (HoccX' : forall x, In x (addresses X') -> x <> a).
  { intros x Hx. apply HoccX. apply occ_in. apply occ_in in Hx.
    pose proof (occ_strip "openaiCompatible" X x). fold X' in H. count. }
  assert (HndX : NoDup (addresses X)).
  { apply NoDup_occ. intros x. pose proof (occ_metadata x).
    destruct (Hocc x). count. }
  (* delete obj.providerMetadata.openaiCompatible *)
  assert (H2 : exists h2,
             delete_prop (ref_of X) "openaiCompatible" h1 = h2
             /\ holds h2 X'
             /\ nth_error h2 a = Some (Obj (Props.mapv ref_of ps1))
             /\ (forall x, x <> a -> ~ In x (addresses X') ->
                           nth_error h2 x = nth_error h x)
             /\ List.length h2 = List.length h).
  { assert (Hsame1 : forall x, x <> a -> nth_error h1 x = nth_error h x)
      by (intros x Hx; apply update_other, Hx).
    assert (Hother : delete_prop (ref_of X) "openaiCompatible" h1 = h1 ->
                     X' = X ->
                     exists h2,
                       delete_prop (ref_of X) "openaiCompatible" h1 = h2
                       /\ holds h2 X'
                       /\ nth_error h2 a = Some (Obj (Props.mapv ref_of ps1))
                       /\ (forall x, x <> a -> ~ In x (addresses X') ->
                                     nth_error h2 x = nth_error h x)
                       /\ List.length h2 = List.length h).
    { intros E1 E2. exists h1. split; [exact E1|]. rewrite E2. split.
      - apply (holds_frame h); [exact HX|]. intros x Hx. apply Hsame1, HoccX, Hx.
      - split; [exact Ha1|]. split; [auto|]. apply update_length. }
    subst X'.
    destruct X as [| |b|n|s|b items|b xps|href|bs] eqn:EX;
      try discriminate; try (apply Hother; reflexivity).
    - (* an array *)
      apply Hother; [|reflexivity].
      apply holds_arr in HX as [Hb _]. unfold delete_prop. cbn [ref_of].
      rewrite Hsame1 by (apply HoccX; simpl; tauto). rewrite Hb. reflexivity.
    - (* an object *)
      apply holds_obj in HX as [Hb Hxps].
      assert (Hba : b <> a) by (apply HoccX; simpl; tauto).
      unfold delete_prop. cbn [ref_of strip].
      rewrite Hsame1 by exact Hba. rewrite Hb, delete_mapv.
      eexists. split; [reflexivity|].
      assert (Hblen : b < List.length h1).
      { unfold h1. rewrite update_length. eapply nth_error_length, Hb. }
      split.
      + apply holds_obj. split; [apply update_same, Hblen|].
        apply Forall_values_delete with (k := "openaiCompatible") in Hxps.
        rewrite Forall_forall in Hxps |- *. intros c Hc.
        apply (holds_frame h); [apply Hxps, Hc|].
        intros x Hx.
        assert (Hin : In x (addresses_of (Props.delete "openaiCompatible" xps))).
        { rewrite addresses_of_values. apply in_flat_map. exists c. tauto. }
        assert (Hin' : In x (addresses_of xps)).
        { apply occ_in. apply occ_in in Hin.
          pose proof (occ_delete_le "openaiCompatible" xps x). count. }
        assert (Hxb : x <> b).
        { intros ->. inversion HndX as [|? ? Hnot _]; subst. apply Hnot.
          exact Hin'. }
        rewrite update_other by exact Hxb. apply Hsame1.
        apply HoccX. simpl. right. exact Hin'.
      + split; [rewrite update_other by congruence; exact Ha1|].
        split; [|rewrite update_length; apply update_length].
        intros x Hxa Hx. rewrite update_other; [apply Hsame1, Hxa|].
        intros ->. apply Hx. simpl. tauto. }
  destruct H2 as (h2 & -> & HX' & Ha2 & Hframe2 & Hlen2).
  rewrite (get_store_obj h2 a ps1 _ Ha2). fold X.
  rewrite <- (ref_of_strip "openaiCompatible" X). fold X'.
  rewrite (own_props_ref h2 X' HX').
  change (hoisted_here (LObj a ps))
    with (if truthy (value_of B)
          then match own X' with
               | [] => LObj a D
               | _ :: _ => LObj a (Props.set ps1 "providerMetadata" X')
               end
          else LObj a ps).
  rewrite Ht.
  assert (HoccD : forall x, In x (addresses_of D) ->
                            x <> a /\ ~ In x (addresses X')).
  { intros x Hx. apply occ_in in Hx. pose proof (occ_hoisted x) as Hh.
    fold X' in Hh. destruct (Hocc x) as [H1 H0]. split.
    - intros ->. specialize (H0 eq_refl). count.
    - intros Hin. apply occ_in in Hin. count. }
  assert (HD2 : Forall (holds h2) (Props.values D)).
  { apply Forall_values_delete with (k := "providerMetadata") in Hps1.
    fold D in Hps1. rewrite Forall_forall in Hps1 |- *. intros c Hc.
    apply (holds_frame h); [apply Hps1, Hc|]. intros x Hx.
    destruct (HoccD x) as [Hxa Hx'].
    { rewrite addresses_of_values. apply in_flat_map. exists c. tauto. }
    apply Hframe2; assumption. }
  assert (Hout : forall x, ~ In x (addresses (LObj a ps)) ->
                           x <> a /\ ~ In x (addresses X')).
  { intros x Hx. split; [intros ->; apply Hx; simpl; tauto|].
    intros Hin. apply Hx. simpl. right. fold (addresses_of ps).
    apply occ_in. apply occ_in in Hin. pose proof (occ_hoisted x) as Hh.
    fold X' in Hh. count. }
  destruct (own X') as [|kv rest] eqn:Hown; cbn [Props.mapv map].
  - (* delete obj.providerMetadata *)
    unfold delete_prop. rewrite Ha2, delete_mapv. fold D.
    eexists. split; [reflexivity|].
    assert (Halen2 : a < List.length h2) by (rewrite Hlen2; exact Halen).
    split; [|split].
    + apply holds_obj. split; [apply update_same, Halen2|].
      rewrite Forall_forall in HD2 |- *. intros c Hc.
      apply (holds_frame h2); [apply HD2, Hc|]. intros x Hx.
      apply update_other. apply (HoccD x).
      rewrite addresses_of_values. apply in_flat_map. exists c. tauto.
    + intros x Hx. destruct (Hout x Hx) as [Hxa Hx'].
      rewrite update_other by exact Hxa. apply Hframe2; assumption.
    + rewrite update_length. exact Hlen2.
  - eexists. split; [reflexivity|]. split; [|split].
    + apply holds_obj. split.
      * rewrite Ha2. do 2 f_equal. rewrite <- set_mapv.
        unfold X'. rewrite ref_of_strip. symmetry. apply pset_same.
        rewrite lookup_mapv. unfold X, Props.get in Hnull |- *.
        destruct (Props.lookup "providerMetadata" ps1); [reflexivity|].
        discriminate.
      * apply Forall_values_set; [apply NoDup_keys_passign, Hkeys | exact HD2
                                 | exact HX'].
    + intros x Hx. destruct (Hout x Hx) as [Hxa Hx']. apply Hframe2; assumption.
    + exact Hlen2.
Qed.

(** The addresses of the object as lines 10-16 leave it are addresses it
    had, none of them more often than before. *)
Lemma occ_hoisted_here a x :
  NoDup (map fst ps) ->
  occ (addresses (hoisted_here (LObj a ps))) x <= occ (addresses (LObj a ps)) x.
Proof.
  intros Hkeys.
  change (hoisted_here (LObj a ps))
    with (if truthy (value_of B)
          then match own (strip "openaiCompatible" X) with
               | [] => LObj a D
               | _ :: _ =>
                   LObj a (Props.set ps1 "providerMetadata"
                             (strip "openaiCompatible" X))
               end
          else LObj a ps).
  destruct (truthy (value_of B)); [|count].
  pose proof (occ_hoisted x) as Hh.
  destruct (own (strip "openaiCompatible" X)); rewrite !occ_obj; [count|].
  pose proof (occ_set ps1 "providerMetadata" (strip "openaiCompatible" X) x
                (NoDup_keys_passign ps (own B) Hkeys)) as Hset.
  fold D in Hset. count.
Qed.

End here.

(** *** Lines 10-16, on the tree and in place *)

Lemma hoisted_here_ref l : ref_of (hoisted_here l) = ref_of l.
Proof.
  destruct l as [| | | | | |a ps| |]; try reflexivity.
  unfold hoisted_here. destruct (truthy _); [|reflexivity].
  destruct (own _); reflexivity.
Qed.

Lemma NoDup_keys_located a ps :
  well_formed (value_of (LObj a ps)) = true -> NoDup (map fst ps).
Proof.
  cbn [value_of]. fold (Props.mapv value_of ps). intros H.
  apply well_formed_obj in H as [H _]. unfold keys in H.
  rewrite keys_mapv in H. exact H.
Qed.

Lemma occ_hoisted_here_le l x :
  well_formed (value_of l) = true ->
  occ (addresses (hoisted_here l)) x <= occ (addresses l) x.
Proof.
  intros Hwf. destruct l as [| | | | | |a ps| |]; try (simpl; count).
  apply occ_hoisted_here. eapply NoDup_keys_located, Hwf.
Qed.

Lemma hoist_here_unshared h l :
  holds h l -> NoDup (addresses l) -> well_formed (value_of l) = true ->
  match hoist_here (value_of l) with
  | Returns t1 =>
      t1 = value_of (hoisted_here l)
      /\ exists h1,
           Store.hoist_here (ref_of l) h = Returns h1
           /\ holds h1 (hoisted_here l)
           /\ (forall x, ~ In x (addresses l) -> nth_error h1 x = nth_error h x)
           /\ List.length h1 = List.length h
  | Throws e => Store.hoist_here (ref_of l) h = Throws e
  | OutOfFuel => False
  end.
Proof.
  intros Hh Hnd Hwf.
  assert (Hskip :
    hoist_here (value_of l) = Returns (value_of l) ->
    hoisted_here l = l ->
    Store.hoist_here (ref_of l) h = Returns h ->
    match hoist_here (value_of l) with
    | Returns t1 =>
        t1 = value_of (hoisted_here l)
        /\ exists h1,
             Store.hoist_here (ref_of l) h = Returns h1
             /\ holds h1 (hoisted_here l)
             /\ (forall x, ~ In x (addresses l) -> nth_error h1 x = nth_error h x)
             /\ List.length h1 = List.length h
    | Throws e => Store.hoist_here (ref_of l) h = Throws e
    | OutOfFuel => False
    end).
  { intros -> -> ->. split; [reflexivity|]. exists h. repeat split; auto. }
  assert (Hother : (forall a ps, l <> LObj a ps) ->
                   Store.hoist_here (ref_of l) h = Returns h).
  { intros Hl. unfold Store.hoist_here.
    rewrite (get_store h l _ Hh), get_own_other by (reflexivity || exact Hl).
    reflexivity. }
  destruct l as [| | | |s|a items|a ps| |bs];
    try (apply Hskip; [unfold hoist_here; destruct (truthy _); reflexivity
                      | reflexivity | apply Hother; discriminate]).
  pose proof (NoDup_keys_located a ps Hwf) as Hkeys.
  destruct (truthy (value_of
              (Props.get LUndef (own (Props.get LUndef ps "providerMetadata"))
                 "openaiCompatible"))) eqn:Ht.
  - rewrite (hoist_here_obj ps a Ht).
    pose proof (hoist_here_store ps h a Hh Hnd Hkeys Ht) as Hs.
    cbv zeta in Hs |- *.
    destruct (nullish _); [exact Hs|]. split; [reflexivity | exact Hs].
  - apply Hskip.
    + unfold hoist_here.
      rewrite (member_value (LObj a ps)) by discriminate.
      rewrite member_value by discriminate. cbn [own].
      rewrite Ht. reflexivity.
    + unfold hoisted_here. rewrite Ht. reflexivity.
    + apply holds_obj in Hh as [Ha Hch]. unfold Store.hoist_here.
      rewrite (get_store_obj h a ps _ Ha).
      rewrite (get_store h _ _ (holds_get h ps _ Hch)).
      rewrite truthy_ref, Ht. reflexivity.
Qed.

(** *** The loop over the values of an object *)

Lemma NoDup_app_occ (xs ys : list addr) :
  NoDup (xs ++ ys) <-> forall x, occ xs x + occ ys x <= 1.
Proof.
  rewrite NoDup_occ. split; intros H x; specialize (H x);
    rewrite count_occ_app in *; exact H.
Qed.

Lemma in_addresses_of c cs x :
  In c cs -> In x (addresses c) -> In x (flat_map addresses cs).
Proof. intros Hc Hx. apply in_flat_map. exists c. tauto. Qed.

Section loop.
Variable f : value -> outcome value.
Variable g : ref -> store -> outcome store.
Hypothesis step : forall l h,
  holds h l -> NoDup (addresses l) -> well_formed (value_of l) = true ->
  alike (f (value_of l)) (g (ref_of l) h) h l.

Lemma loop_unshared : forall cs h,
  Forall (holds h) cs ->
  NoDup (flat_map addresses cs) ->
  forallb well_formed (map value_of cs) = true ->
  all_alike (mapM f (map value_of cs))
    (foldM (fun h' r => g r h') h (map ref_of cs)) h cs.
Proof.
  induction cs as [|c cs IH]; intros h Hh Hnd Hwf.
  - simpl. exists h, []. repeat split; auto.
  - inversion Hh as [|? ? Hc Hcs]; subst.
    cbn [flat_map] in Hnd. pose proof Hnd as Hocc.
    rewrite NoDup_app_occ in Hocc.
    assert (Hndc : NoDup (addresses c)) by (eapply NoDup_app_remove_r, Hnd).
    assert (Hndcs : NoDup (flat_map addresses cs))
      by (eapply NoDup_app_remove_l, Hnd).
    cbn [map forallb] in Hwf. apply andb_prop in Hwf as [Hwfc Hwfcs].
    pose proof (step c h Hc Hndc Hwfc) as Hstep.
    cbn [map mapM foldM].
    destruct (f (value_of c)) as [t| |]; cbn [alike] in Hstep.
    2, 3: rewrite Hstep; reflexivity.
    destruct Hstep as (h1 & c' & -> & Hc' & <- & Hr & Hoccc & Hframe1 & Hlen1).
    cbn [bind].
    assert (Hcs1 : Forall (holds h1) cs).
    { rewrite Forall_forall in Hcs |- *. intros c2 Hc2.
      apply (holds_frame h); [apply Hcs, Hc2|]. intros x Hx. apply Hframe1.
      intros Hin. apply occ_in in Hin.
      pose proof (in_addresses_of c2 cs x Hc2 Hx) as Hin2. apply occ_in in Hin2.
      specialize (Hocc x). count. }
    specialize (IH h1 Hcs1 Hndcs Hwfcs).
    destruct (mapM f (map value_of cs)) as [ts| |]; cbn [all_alike bind] in IH |- *.
    2, 3: exact IH.
    destruct IH as (h2 & cs' & -> & Hcs' & <- & Hrs & Hocccs & Hframe2 & Hlen2).
    exists h2, (c' :: cs'). split; [reflexivity|]. split; [|split; [|split]].
    + constructor; [|exact Hcs'].
      apply (holds_frame h1); [exact Hc'|]. intros x Hx. apply Hframe2.
      intros Hin. apply occ_in in Hin. apply occ_in in Hx.
      specialize (Hocc x). specialize (Hoccc x). count.
    + reflexivity.
    + cbn [map]. rewrite Hr, Hrs. reflexivity.
    + split; [|split].
      * intros x. cbn [flat_map]. rewrite !count_occ_app.
        specialize (Hoccc x). specialize (Hocccs x). count.
      * intros x Hx. cbn [flat_map] in Hx. rewrite Hframe2, Hframe1.
        -- reflexivity.
        -- intros Hin. apply Hx, in_or_app. tauto.
        -- intros Hin. apply Hx, in_or_app. tauto.
      * congruence.
Qed.

End loop.

Lemma mapM_values {A B} (f : A -> outcome B) (ps : list (string * A)) :
  mapM (fun kv => do v <- f (snd kv); Returns (fst kv, v)) ps
  = do vs <- mapM f (Props.values ps);
    Returns (combine (map fst ps) vs).
Proof.
  induction ps as [|[k x] ps IH]; simpl; [reflexivity|].
  destruct (f x) as [y| |]; cbn [bind]; try reflexivity.
  rewrite IH. destruct (mapM f (Props.values ps)); reflexivity.
Qed.

Lemma foldM_values {A S} (g : A -> S -> outcome S) h (ps : list (string * A)) :
  foldM (fun h' kv => g (snd kv) h') h ps
  = foldM (fun h' r => g r h') h (Props.values ps).
Proof.
  revert h. induction ps as [|[k x] ps IH]; intros h; simpl; [reflexivity|].
  destruct (g x h); cbn [bind]; auto.
Qed.

Lemma mapv_combine {V W} (f : V -> W) ks (vs : list V) :
  Props.mapv f (combine ks vs) = combine ks (map f vs).
Proof.
  revert vs. induction ks as [|k ks IH]; intros [|v vs]; simpl; try reflexivity.
  f_equal. apply IH.
Qed.

Lemma combine_keys_values {V} (ps : list (string * V)) :
  combine (map fst ps) (Props.values ps) = ps.
Proof. induction ps as [|[k v] ps IH]; simpl; [|rewrite IH]; reflexivity. Qed.

Lemma values_combine {V} ks (vs : list V) :
  List.length ks = List.length vs -> Props.values (combine ks vs) = vs.
Proof.
  revert vs. induction ks as [|k ks IH]; intros [|v vs]; simpl; try discriminate;
    try reflexivity.
  intros [= H]. f_equal. apply IH, H.
Qed.

(** *** The recursion *)

Lemma occ_arr a items x :
  occ (addresses (LArr a items)) x
  = (if Nat.eq_dec a x then 1 else 0) + occ (flat_map addresses items) x.
Proof. simpl. destruct (Nat.eq_dec a x); reflexivity. Qed.

(** On a value that shares nothing the hoisting in place does what the
    hoisting of the tree does, and leaves a value that shares nothing. *)
Lemma hoist_unshared fuel : forall l h,
  holds h l -> NoDup (addresses l) -> well_formed (value_of l) = true ->
  alike (hoist fuel (value_of l)) (Store.hoist fuel (ref_of l) h) h l.
Proof.
  induction fuel as [|fuel IH]; intros l h Hh Hnd Hwf; [reflexivity|].
  rewrite hoist_S. cbn [Store.hoist].
  pose proof (hoist_here_unshared h l Hh Hnd Hwf) as Hhere.
  pose proof (hoist_here_well_formed (value_of l)) as Hwf1.
  destruct (hoist_here (value_of l)) as [t1|e|]; [|rewrite Hhere; reflexivity
                                                  |contradiction].
  destruct Hhere as (-> & h1 & -> & Hh1 & Hframe1 & Hlen1).
  specialize (Hwf1 _ Hwf eq_refl). cbn [bind].
  pose proof (fun x => occ_hoisted_here_le l x Hwf) as Hocc1.
  assert (Hnd1 : NoDup (addresses (hoisted_here l))).
  { apply NoDup_occ. intros x. specialize (Hocc1 x).
    apply NoDup_occ with (x := x) in Hnd. count. }
  assert (Hout : forall x, ~ In x (addresses l) ->
                           ~ In x (addresses (hoisted_here l))).
  { intros x Hx Hin. apply Hx. apply occ_in. apply occ_in in Hin.
    specialize (Hocc1 x). count. }
  pose proof (hoisted_here_ref l) as Href. rewrite <- Href.
  destruct (hoisted_here l) as [| |b|n|s|a items|a ps|href|bs];
    try (cbn [value_of ref_of alike]; exists h1; eexists;
         split; [reflexivity|]; split; [exact Hh1|]; split; [reflexivity|];
         split; [exact Href|]; split; [exact Hocc1|];
         split; [exact Hframe1 | exact Hlen1]).
  - (* an array *)
    apply holds_arr in Hh1 as [Ha Hitems]. cbn [value_of ref_of]. rewrite Ha.
    inversion Hnd1 as [|? ? Hnota Hnditems]; subst.
    pose proof (loop_unshared (hoist fuel) (Store.hoist fuel) IH items h1
                  Hitems Hnditems Hwf1) as Hloop.
    destruct (mapM (hoist fuel) (map value_of items)) as [ts| |];
      cbn [all_alike alike bind] in Hloop |- *; try exact Hloop.
    destruct Hloop as (h2 & items' & -> & Hitems' & <- & Hr & Hocc2 & Hframe2 & Hlen2).
    exists h2, (LArr a items'). split; [reflexivity|]. split; [|split; [|split]].
    + apply holds_arr. split; [|exact Hitems'].
      rewrite Hframe2 by exact Hnota. rewrite Ha, Hr. reflexivity.
    + reflexivity.
    + exact Href.
    + split; [|split].
      * intros x. specialize (Hocc1 x). specialize (Hocc2 x).
        rewrite occ_arr in Hocc1 |- *. count.
      * intros x Hx. rewrite Hframe2, Hframe1; [reflexivity | exact Hx|].
        intros Hin. apply (Hout x Hx). simpl. tauto.
      * congruence.
  - (* an object *)
    apply holds_obj in Hh1 as [Ha Hps]. cbn [value_of ref_of]. rewrite Ha.
    fold (Props.mapv value_of ps).
    inversion Hnd1 as [|? ? Hnota Hndps]; subst.
    fold (addresses_of ps) in Hnota, Hndps.
    rewrite addresses_of_values in Hnota, Hndps.
    rewrite mapM_values, foldM_values, !values_mapv.
    apply well_formed_obj in Hwf1 as [_ Hwfps].
    assert (Hwfv : forallb well_formed (map value_of (Props.values ps)) = true).
    { unfold values_formed in Hwfps. rewrite forallb_forall in Hwfps |- *.
      intros v Hv. apply in_map_iff in Hv as (c & <- & Hc).
      unfold Props.values in Hc. apply in_map_iff in Hc as ([k c'] & <- & Hkc).
      apply (Hwfps (k, value_of c')).
      apply in_map_iff. exists (k, c'). split; [reflexivity | exact Hkc]. }
    pose proof (loop_unshared (hoist fuel) (Store.hoist fuel) IH (Props.values ps) h1
                  Hps Hndps Hwfv) as Hloop.
    destruct (mapM (hoist fuel) (map value_of (Props.values ps))) as [ts| |];
      cbn [all_alike alike bind] in Hloop |- *; try exact Hloop.
    destruct Hloop as (h2 & cs' & -> & Hcs' & <- & Hr & Hocc2 & Hframe2 & Hlen2).
    assert (Hlen : List.length (map fst ps) = List.length cs').
    { apply (f_equal (@List.length _)) in Hr. unfold Props.values in Hr.
      rewrite !length_map in *. congruence. }
    exists h2, (LObj a (combine (map fst ps) cs')).
    split; [reflexivity|]. split; [|split; [|split]].
    + apply holds_obj. rewrite values_combine by exact Hlen. split; [|exact Hcs'].
      rewrite Hframe2 by exact Hnota. rewrite Ha. do 2 f_equal.
      rewrite mapv_combine, Hr, <- values_mapv.
      rewrite <- (keys_mapv ref_of ps). symmetry. apply combine_keys_values.
    + cbn [value_of]. fold (Props.mapv value_of (combine (map fst ps) cs')).
      rewrite mapv_combine, keys_mapv. reflexivity.
    + exact Href.
    + split; [|split].
      * intros x. specialize (Hocc1 x). specialize (Hocc2 x).
        rewrite occ_obj in Hocc1 |- *.
        rewrite addresses_of_values in Hocc1 |- *.
        rewrite values_combine by exact Hlen. count.
      * intros x Hx. rewrite Hframe2, Hframe1; [reflexivity | exact Hx|].
        intros Hin. apply (Hout x Hx). simpl. right.
        fold (addresses_of ps). rewrite addresses_of_values. exact Hin.
      * congruence.
Qed.

(** *** The fuel *)

Lemma list_max_le_sum (xs : list nat) : list_max xs <= list_sum xs.
Proof. induction xs as [|x xs IH]; simpl; lia. Qed.

Lemma depth_addresses : forall l, depth (value_of l) <= List.length (addresses l).
Proof.
  assert (Hsum : forall (cs : list located),
            Forall (fun c => depth (value_of c) <= List.length (addresses c)) cs ->
            list_max (map depth (map value_of cs))
            <= List.length (flat_map addresses cs)).
  { induction 1 as [|c cs Hc _ IH]; simpl; [count|]. rewrite length_app. count. }
  induction l as [| | | | |a items IH|a ps IH| |] using located_induction;
    simpl; try count.
  - specialize (Hsum _ IH). count.
  - specialize (Hsum _ IH). fold (addresses_of ps).
    rewrite addresses_of_values. unfold Props.values in *.
    rewrite !map_map in Hsum. rewrite !map_map. simpl. count.
Qed.

Lemma holds_addresses h : forall l,
  holds h l -> forall x, In x (addresses l) -> x < List.length h.
Proof.
  induction l as [| | | | |a items IH|a ps IH| |] using located_induction;
    try (intros _ x Hx; simpl in Hx; contradiction).
  - rewrite holds_arr. intros [Ha Hitems] x [<-|Hx].
    + eapply nth_error_length, Ha.
    + apply in_flat_map in Hx as (c & Hc & Hx).
      rewrite Forall_forall in IH, Hitems. eapply IH; eauto.
  - rewrite holds_obj. intros [Ha Hps] x [<-|Hx].
    + eapply nth_error_length, Ha.
    + fold (addresses_of ps) in Hx. rewrite addresses_of_values in Hx.
      apply in_flat_map in Hx as (c & Hc & Hx).
      rewrite Forall_forall in IH, Hps. eapply IH; eauto.
Qed.

Lemma depth_store h l :
  holds h l -> NoDup (addresses l) -> depth (value_of l) <= List.length h.
Proof.
  intros Hh Hnd. pose proof (depth_addresses l) as Hd.
  assert (Hlen : List.length (addresses l) <= List.length (seq 0 (List.length h))).
  { apply NoDup_incl_length; [exact Hnd|].
    intros x Hx. apply in_seq. pose proof (holds_addresses h l Hh x Hx). count. }
  rewrite length_seq in Hlen. count.
Qed.

Lemma findAndHoistMetadata_unshared l h :
  holds h l -> NoDup (addresses l) -> well_formed (value_of l) = true ->
  alike (findAndHoistMetadata (value_of l))
    (Store.findAndHoistMetadata (ref_of l) h) h l.
Proof.
  intros Hh Hnd Hwf. unfold Store.findAndHoistMetadata.
  pose proof (hoist_unshared (2 + List.length h) l h Hh Hnd Hwf) as H.
  pose proof (findAndHoistMetadata_total (value_of l)) as Htotal.
  unfold findAndHoistMetadata in *.
  rewrite (hoist_fuel_le (S (depth (value_of l))) (2 + List.length h) _ _
             ltac:(pose proof (depth_store h l Hh Hnd); lia) eq_refl Htotal) in H.
  exact H.
Qed.

Lemma hoistPrompt_unshared ls h :
  Forall (holds h) ls ->
  NoDup (flat_map addresses ls) ->
  forallb well_formed (map value_of ls) = true ->
  all_alike (hoistPrompt (map value_of ls))
    (Store.hoistPrompt (map ref_of ls) h) h ls.
Proof.
  apply (loop_unshared findAndHoistMetadata Store.findAndHoistMetadata).
  apply findAndHoistMetadata_unshared.
Qed.

(** *** Reading the store *)

Lemma read_holds fuel : forall l h,
  holds h l -> depth (value_of l) < fuel ->
  Store.read fuel h (ref_of l) = Returns (value_of l).
Proof.
  induction fuel as [|fuel IH]; intros l h Hh Hd; [lia|].
  assert (Hall : forall cs,
            Forall (holds h) cs ->
            list_max (map depth (map value_of cs)) < fuel ->
            mapM (Store.read fuel h) (map ref_of cs) = Returns (map value_of cs)).
  { induction cs as [|c cs IHcs]; intros Hcs Hmax; [reflexivity|].
    inversion Hcs; subst. simpl in Hmax. cbn [map mapM].
    rewrite IH by (assumption || lia). cbn [bind].
    rewrite IHcs by (assumption || lia). reflexivity. }
  destruct l as [| |b|n|s|a items|a ps|href|bs]; try reflexivity.
  - apply holds_arr in Hh as [Ha Hitems]. cbn [Store.read ref_of value_of].
    rewrite Ha. simpl in Hd. rewrite Hall by (assumption || lia). reflexivity.
  - apply holds_obj in Hh as [Ha Hps]. cbn [Store.read ref_of value_of].
    rewrite Ha. simpl in Hd.
    rewrite mapM_values, values_mapv, Hall; [|exact Hps|].
    + cbn [bind]. rewrite keys_mapv. do 2 f_equal.
      fold (Props.mapv value_of ps). rewrite <- values_mapv.
      rewrite <- (keys_mapv value_of ps). apply combine_keys_values.
    + unfold Props.values. rewrite !map_map in *. simpl in *. lia.
Qed.

Lemma read_prompt h ls :
  Forall (holds h) ls -> NoDup (flat_map addresses ls) ->
  mapM (Store.read (2 + List.length h) h) (map ref_of ls)
  = Returns (map value_of ls).
Proof.
  intros Hh Hnd. induction ls as [|l ls IH]; [reflexivity|].
  inversion Hh; subst. cbn [flat_map] in Hnd. cbn [map mapM].
  rewrite read_holds; [|assumption|].
  - cbn [bind]. rewrite IH; [reflexivity | assumption|].
    eapply NoDup_app_remove_l, Hnd.
  - assert (depth (value_of l) <= List.length h); [|lia].
    apply depth_store; [assumption|]. eapply NoDup_app_remove_r, Hnd.
Qed.

(** *** The call on a prompt that shares nothing *)

Lemma hoistPrompt_well_formed xs ys :
  forallb well_formed xs = true -> hoistPrompt xs = Returns ys ->
  forallb well_formed ys = true.
Proof.
  intros Hwf H. apply forallb_forall. apply Forall_forall.
  apply (mapM_preserves (fun v => well_formed v = true) findAndHoistMetadata xs ys);
    [|apply Forall_forall, forallb_forall, Hwf | exact H].
  intros x y _ Hx Hy. eapply hoist_well_formed; eassumption.
Qed.

(** The hoisting loop of lines 32-34 on a prompt that shares nothing: the
    store it leaves holds the prompt the tree model computes, at the same
    addresses, and still shares nothing. *)
Lemma hoistPrompt_in_place h ls ts :
  unshared h ls ->
  hoistPrompt (map value_of ls) = Returns ts ->
  exists h' ls',
    Store.hoistPrompt (map ref_of ls) h = Returns h'
    /\ unshared h' ls'
    /\ map ref_of ls' = map ref_of ls
    /\ map value_of ls' = ts
    /\ List.length h' = List.length h.
Proof.
  intros (Hh & Hnd & Hwf) Hts. apply apart_NoDup in Hnd.
  pose proof (hoistPrompt_unshared ls h Hh Hnd Hwf) as H.
  rewrite Hts in H.
  destruct H as (h' & ls' & Hrun & Hh' & Hv & Hr & Hocc & _ & Hlen).
  exists h', ls'. split; [exact Hrun|]. split; [|auto].
  split; [exact Hh'|]. split.
  - apply apart_NoDup, NoDup_occ. intros x. specialize (Hocc x).
    apply NoDup_occ with (x := x) in Hnd. count.
  - rewrite Hv. eapply hoistPrompt_well_formed; eassumption.
Qed.

Lemma hoistPrompt_throws_in_place h ls e :
  unshared h ls ->
  hoistPrompt (map value_of ls) = Throws e ->
  Store.hoistPrompt (map ref_of ls) h = Throws e.
Proof.
  intros (Hh & Hnd & Hwf) He. apply apart_NoDup in Hnd.
  pose proof (hoistPrompt_unshared ls h Hh Hnd Hwf) as H.
  rewrite He in H. exact H.
Qed.

Lemma convert_returns_in_place h ls ws :
  unshared h ls ->
  Hoisting.convertToOpenAICompatibleChatMessages (map value_of ls) = Returns ws ->
  exists h' ls',
    Store.convertToOpenAICompatibleChatMessages (map ref_of ls) h
    = Returns (ws, h')
    /\ unshared h' ls'
    /\ map ref_of ls' = map ref_of ls
    /\ hoistPrompt (map value_of ls) = Returns (map value_of ls').
Proof.
  intros Hun. unfold Hoisting.convertToOpenAICompatibleChatMessages.
  destruct (hoistPrompt (map value_of ls)) as [ts| |] eqn:Ets; try discriminate.
  cbn [bind]. intros Hws.
  destruct (hoistPrompt_in_place h ls ts Hun Ets)
    as (h' & ls' & Hrun & Hun' & Hr & Hv & Hlen).
  exists h', ls'. split; [|split; [exact Hun'|split; [exact Hr|congruence]]].
  unfold Store.convertToOpenAICompatibleChatMessages. rewrite Hrun. cbn [bind].
  destruct Hun' as (Hh' & Hnd' & _). apply apart_NoDup in Hnd'.
  rewrite <- Hr, (read_prompt h' ls' Hh' Hnd'). cbn [bind].
  rewrite Hv, Hws. reflexivity.
Qed.

Lemma convert_throws_in_place h ls e :
  unshared h ls ->
  Hoisting.convertToOpenAICompatibleChatMessages (map value_of ls) = Throws e ->
  Store.convertToOpenAICompatibleChatMessages (map ref_of ls) h = Throws e.
Proof.
  intros Hun. unfold Hoisting.convertToOpenAICompatibleChatMessages.
  unfold Store.convertToOpenAICompatibleChatMessages.
  destruct (hoistPrompt (map value_of ls)) as [ts| |] eqn:Ets; try discriminate.
  - cbn [bind]. intros Hws.
    destruct (hoistPrompt_in_place h ls ts Hun Ets)
      as (h' & ls' & Hrun & Hun' & Hr & Hv & Hlen).
    rewrite Hrun. cbn [bind].
    destruct Hun' as (Hh' & Hnd' & _). apply apart_NoDup in Hnd'.
    rewrite <- Hr, (read_prompt h' ls' Hh' Hnd'). cbn [bind].
    rewrite Hv, Hws. reflexivity.
  - intros [= <-]. rewrite (hoistPrompt_throws_in_place h ls e0 Hun Ets).
    reflexivity.
Qed.

(** *** Running the hoisting on a store whose strings are not known *)

(** A value that is no object has no [providerMetadata]. *)
Lemma hoist_here_leaf r h : (forall a, r <> RObj a) -> Store.hoist_here r h = Returns h.
Proof.
  intros Hr. unfold Store.hoist_here.
  assert (E : Store.get h r "providerMetadata" = RUndef).
  { unfold Store.get, Props.get.
    destruct r as [| | | |s|a| |bs]; try reflexivity;
      try (simpl; unfold Props.indexed; rewrite plookup_indexed_from by reflexivity;
           reflexivity).
    destruct (Hr a eq_refl). }
  rewrite E. reflexivity.
Qed.

Lemma hoist_step fuel obj h :
  Store.hoist (S fuel) obj h
  = do h1 <- Store.hoist_here obj h;
    match obj with
    | RObj a =>
        match nth_error h1 a with
        | Some (Arr items) => foldM (fun h' item => Store.hoist fuel item h') h1 items
        | Some (Obj ps) => foldM (fun h' kv => Store.hoist fuel (snd kv) h') h1 ps
        | None => Returns h1
        end
    | _ => Returns h1
    end.
Proof. reflexivity. Qed.

(** One call of [Store.hoist] after the other, the writes of lines 10-16 by
    computation. *)
Ltac run_hoist :=
  repeat ((rewrite !hoist_here_leaf by discriminate)
          || rewrite hoist_step
          || (progress cbn [foldM bind snd nth_error])
          || match goal with
             | |- context [Store.hoist_here (RObj ?a) ?h] =>
                 let v := eval vm_compute in (Store.hoist_here (RObj a) h) in
                 change (Store.hoist_here (RObj a) h) with v
             end).

End StoreFacts.

(** ** The converter on a prompt in memory *)

Module InPlace.
Import Store.
Import JS Hoisting Prompt Compare.
Import HoistingFacts.
Import StoreFacts.

(** A layout computed by [place_prompt] shares nothing. *)
Ltac laid_out :=
  split; [vm_compute; repeat constructor | split; reflexivity].

(** *** The tree model and the call in place *)

(** On a prompt in memory that shares nothing, the call in place ends as
    the call on the trees does: with the same wire messages, leaving the
    prompt the tree model computes at the same addresses, or with the same
    exception. *)
Theorem call_in_place_on_unshared_prompt h ls :
  unshared h ls ->
  (forall ws,
     Hoisting.convertToOpenAICompatibleChatMessages (map value_of ls)
     = Returns ws ->
     exists h' ls',
       Store.convertToOpenAICompatibleChatMessages (map ref_of ls) h
       = Returns (ws, h')
       /\ unshared h' ls'
       /\ map ref_of ls' = map ref_of ls
       /\ hoistPrompt (map value_of ls) = Returns (map value_of ls'))
  /\ (forall e,
        Hoisting.convertToOpenAICompatibleChatMessages (map value_of ls)
        = Throws e ->
        Store.convertToOpenAICompatibleChatMessages (map ref_of ls) h
        = Throws e).
Proof.
  intros Hun. split.
  - intros ws. apply convert_returns_in_place, Hun.
  - intros e. apply convert_throws_in_place, Hun.
Qed.

Lemma call_in_place_on_unshared_prompt_witness :
  let ls := place_prompt (encodePrompt examplePrompt) in
  let h := store_of ls in
  unshared h ls
  /\ (forall ws,
        Hoisting.convertToOpenAICompatibleChatMessages (map value_of ls)
        = Returns ws ->
        exists h' ls',
          Store.convertToOpenAICompatibleChatMessages (map ref_of ls) h
          = Returns (ws, h')
          /\ unshared h' ls'
          /\ map ref_of ls' = map ref_of ls
          /\ hoistPrompt (map value_of ls) = Returns (map value_of ls'))
  /\ (forall e,
        Hoisting.convertToOpenAICompatibleChatMessages (map value_of ls)
        = Throws e ->
        Store.convertToOpenAICompatibleChatMessages (map ref_of ls) h
        = Throws e).
Proof.
  intros ls h. split; [laid_out|].
  apply (call_in_place_on_unshared_prompt h ls). laid_out.
Defined.

(** *** User messages of several parts *)



(** *** Namespaces other than the target one *)



(** *** The tool case, the single text part and the whole prompt *)

(** A tool message with N parts, with safe overlays and no object shared,
    gives N wire messages in part order, each the part's
    [role]/[tool_call_id]/[content] merged with what the part carries and
    then with what the message carries. *)
Theorem tool_message_fans_out_in_place parts pm ls h :
  unshared h ls ->
  map value_of ls = encodePrompt [Tool parts pm] ->
  safeMessage (Tool parts pm) = true ->
  exists h',
    Store.convertToOpenAICompatibleChatMessages (map ref_of ls) h
    = Returns (map (wireToolResult pm) parts, h')
    /\ List.length (map (wireToolResult pm) parts) = List.length parts.
Proof.
  intros Hun Hls Hsafe.
  destruct (tool_message_fans_out parts pm Hsafe) as [Hconv Hlen].
  rewrite <- Hls in Hconv.
  destruct (convert_returns_in_place h ls _ Hun Hconv) as (h' & _ & Hrun & _).
  exists h'. split; [exact Hrun | exact Hlen].
Qed.

Lemma tool_message_fans_out_in_place_witness :
  let parts :=
    [ToolResultPart "call-1" "f" (VObj [("x", VNum 1)])
       (Some [("openaiCompatible", [("cache", VBool true)])]);
     ToolResultPart "call-2" "g" (VStr "ok") None] in
  let pm := Some [("openaiCompatible", [("name", VStr "tools")])] in
  let ls := place_prompt (encodePrompt [Tool parts pm]) in
  let h := store_of ls in
  unshared h ls
  /\ map value_of ls = encodePrompt [Tool parts pm]
  /\ safeMessage (Tool parts pm) = true
  /\ exists h',
       Store.convertToOpenAICompatibleChatMessages (map ref_of ls) h
       = Returns (map (wireToolResult pm) parts, h')
       /\ List.length (map (wireToolResult pm) parts) = List.length parts.
Proof.
  intros parts pm ls h. split; [laid_out|]. split; [reflexivity|].
  split; [reflexivity|].
  apply (tool_message_fans_out_in_place parts pm);
    [laid_out | reflexivity | reflexivity].
Defined.

(** A user message of one text part, in a prompt with safe overlays that
    shares no object, collapses to a string content, merged with what the
    message carries and then with what the part carries: a key of the
    part's overlay wins over the same key of the message's. *)
Theorem single_text_part_collapses_in_place before after text ppm pm ls h :
  let m := User [TextPart text ppm] pm in
  unshared h ls ->
  map value_of ls = encodePrompt (before ++ m :: after) ->
  forallb safeMessage (before ++ m :: after) = true ->
  existsb hasFilePart (before ++ after) = false ->
  let w := VObj (assign
                   (assign [("role", VStr "user"); ("content", VStr text)]
                      (hoistedFields pm))
                   (hoistedFields ppm)) in
  (exists h',
     Store.convertToOpenAICompatibleChatMessages (map ref_of ls) h
     = Returns ((flat_map wireMessage before ++ w :: flat_map wireMessage after)%list,
                h'))
  /\ (forall k v, lookup k (overlay ppm) = Some v -> member w k = v)
  /\ (forall k v, lookup k (overlay pm) = Some v ->
                  lookup k (overlay ppm) = None -> member w k = v).
Proof.
  intros m Hun Hls Hsafe Hfile w.
  destruct (single_text_part_collapses before after text ppm pm Hsafe Hfile)
    as (Hconv & Hpart & Hmessage).
  split; [|split; [exact Hpart | exact Hmessage]].
  fold m in Hconv. rewrite <- Hls in Hconv.
  destruct (convert_returns_in_place h ls _ Hun Hconv) as (h' & _ & Hrun & _).
  exists h'. exact Hrun.
Qed.

Lemma single_text_part_collapses_in_place_witness :
  let before := [System "be brief" None] in
  let after := [Assistant [AssistantText "hello" None] None] in
  let ppm := Some [("openaiCompatible", [("priority", VNum 2)])] in
  let pm := Some [("openaiCompatible", [("priority", VNum 1); ("name", VStr "alice")])] in
  let m := User [TextPart "hi" ppm] pm in
  let ls := place_prompt (encodePrompt (before ++ m :: after)) in
  let h := store_of ls in
  unshared h ls
  /\ map value_of ls = encodePrompt (before ++ m :: after)
  /\ forallb safeMessage (before ++ m :: after) = true
  /\ existsb hasFilePart (before ++ after) = false
  /\ exists h',
       Store.convertToOpenAICompatibleChatMessages (map ref_of ls) h
       = Returns
           ([VObj [("role", VStr "system"); ("content", VStr "be brief")];
             VObj [("role", VStr "user"); ("content", VStr "hi");
                   ("priority", VNum 2); ("name", VStr "alice")];
             VObj [("role", VStr "assistant"); ("content", VStr "hello");
                   ("tool_calls", VUndef)]], h').
Proof.
  intros before after ppm pm m ls h. split; [laid_out|]. split; [reflexivity|].
  split; [reflexivity|]. split; [reflexivity|].
  refine (proj1 (single_text_part_collapses_in_place before after "hi" ppm pm
                   ls h _ _ _ _)); [laid_out | reflexivity..].
Defined.

(** On a prompt of the prompt types whose overlays are safe and that shares
    no object, the converter fails on the first file part and otherwise
    returns, message by message, the wire messages of the spec. *)
Theorem converter_on_safe_prompts_in_place prompt ls h :
  unshared h ls ->
  map value_of ls = encodePrompt prompt ->
  forallb safeMessage prompt = true ->
  if existsb hasFilePart prompt then
    Store.convertToOpenAICompatibleChatMessages (map ref_of ls) h
    = Throws unsupportedFile
  else
    exists h',
      Store.convertToOpenAICompatibleChatMessages (map ref_of ls) h
      = Returns (flat_map wireMessage prompt, h').
Proof.
  intros Hun Hls Hsafe.
  pose proof (convert_safe_prompt prompt Hsafe) as Hconv.
  rewrite <- Hls in Hconv.
  destruct (existsb hasFilePart prompt).
  - apply convert_throws_in_place; assumption.
  - destruct (convert_returns_in_place h ls _ Hun Hconv) as (h' & _ & Hrun & _).
    exists h'. exact Hrun.
Qed.

Lemma converter_on_safe_prompts_in_place_witness :
  let prompt :=
    [System "be brief" (Some [("openaiCompatible", [("name", VStr "sys")])]);
     User [TextPart "look" None;
           ImagePart (ImageBytes [x00; x01; x02; x03]) None
             (Some [("openaiCompatible", [("detail", VStr "low")])])] None;
     Assistant [ToolCallPart "1" "f" (VObj [("x", VNum 1)]) None] None;
     Tool [ToolResultPart "1" "f" (VNum 7) None] None] in
  let ls := place_prompt (encodePrompt prompt) in
  let h := store_of ls in
  unshared h ls
  /\ map value_of ls = encodePrompt prompt
  /\ forallb safeMessage prompt = true
  /\ exists h',
       Store.convertToOpenAICompatibleChatMessages (map ref_of ls) h
       = Returns (flat_map wireMessage prompt, h').
Proof.
  intros prompt ls h. split; [laid_out|]. split; [reflexivity|].
  split; [reflexivity|].
  refine (converter_on_safe_prompts_in_place prompt ls h _ _ _);
    [laid_out | reflexivity | reflexivity].
Defined.

(** What the call leaves of a prompt with safe overlays that shares no
    object: the store holds, at the addresses of the messages, the messages
    with the keys of each overlay on the object that carried it, after its
    fields and what is left of [providerMetadata]; and still no object is
    shared. *)
Theorem prompt_after_the_call_in_place prompt ls h :
  unshared h ls ->
  map value_of ls = encodePrompt prompt ->
  forallb safeMessage prompt = true ->
  exists h' ls',
    Store.hoistPrompt (map ref_of ls) h = Returns h'
    /\ unshared h' ls'
    /\ map ref_of ls' = map ref_of ls
    /\ map value_of ls' = map hoistedMessage prompt.
Proof.
  intros Hun Hls Hsafe.
  pose proof (hoistPrompt_safe prompt Hsafe) as Hhoist.
  rewrite <- Hls in Hhoist.
  destruct (hoistPrompt_in_place h ls _ Hun Hhoist)
    as (h' & ls' & Hrun & Hun' & Hr & Hv & _).
  exists h', ls'. auto.
Qed.

Lemma prompt_after_the_call_in_place_witness :
  let prompt :=
    [User [TextPart "hi" (Some [("openaiCompatible", [("cache", VBool true)]);
                                ("anthropic", [("cacheControl", VStr "ephemeral")])])]
       (Some [("openaiCompatible", [("name", VStr "alice")])])] in
  let ls := place_prompt (encodePrompt prompt) in
  let h := store_of ls in
  unshared h ls
  /\ map value_of ls = encodePrompt prompt
  /\ forallb safeMessage prompt = true
  /\ exists h' ls',
       Store.hoistPrompt (map ref_of ls) h = Returns h'
       /\ unshared h' ls'
       /\ map ref_of ls' = map ref_of ls
       /\ map value_of ls' = map hoistedMessage prompt.
Proof.
  intros prompt ls h. split; [laid_out|]. split; [reflexivity|].
  split; [reflexivity|].
  apply (prompt_after_the_call_in_place prompt);
    [laid_out | reflexivity | reflexivity].
Defined.

(** *** The converter that hoists and the converter that reads *)

(** Where the two converters agree: on a prompt whose overlays are safe,
    that shares no object, has no namespace but the target one, and no
    overlay on a message whose wire messages the reading converter builds
    from the parts alone, the hoisting converter ends as the reading
    converter does on the prompt as it was before the call: with the same
    wire messages, or with the same refusal of a file part. *)
Theorem converters_agree_in_place prompt ls h :
  unshared h ls ->
  map value_of ls = encodePrompt prompt ->
  forallb safeMessage prompt = true ->
  forallb sameInBoth prompt = true ->
  match Reading.convertToOpenAICompatibleChatMessages (map value_of ls) with
  | Returns ws =>
      exists h',
        Store.convertToOpenAICompatibleChatMessages (map ref_of ls) h
        = Returns (ws, h')
  | Throws e =>
      Store.convertToOpenAICompatibleChatMessages (map ref_of ls) h = Throws e
  | OutOfFuel => False
  end.
Proof.
  intros Hun Hls Hsafe Hsame.
  pose proof (VariantFacts.converters_agree prompt Hsafe Hsame) as Hagree.
  pose proof (convert_safe_prompt prompt Hsafe) as Hconv.
  rewrite <- Hls in Hagree, Hconv. rewrite <- Hagree.
  destruct (Hoisting.convertToOpenAICompatibleChatMessages (map value_of ls))
    as [ws|e|] eqn:E.
  - destruct (convert_returns_in_place h ls ws Hun E) as (h' & _ & Hrun & _).
    exists h'. exact Hrun.
  - apply convert_throws_in_place; assumption.
  - destruct (existsb hasFilePart prompt); discriminate.
Qed.

Lemma converters_agree_in_place_witness :
  let ls := place_prompt (encodePrompt examplePrompt) in
  let h := store_of ls in
  unshared h ls
  /\ map value_of ls = encodePrompt examplePrompt
  /\ forallb safeMessage examplePrompt = true
  /\ forallb sameInBoth examplePrompt = true
  /\ match Reading.convertToOpenAICompatibleChatMessages (map value_of ls) with
     | Returns ws =>
         exists h',
           Store.convertToOpenAICompatibleChatMessages (map ref_of ls) h
           = Returns (ws, h')
     | Throws e =>
         Store.convertToOpenAICompatibleChatMessages (map ref_of ls) h = Throws e
     | OutOfFuel => False
     end.
Proof.
  intros ls h. split; [laid_out|]. split; [reflexivity|].
  split; [reflexivity|]. split; [reflexivity|].
  apply (converters_agree_in_place examplePrompt);
    [laid_out | reflexivity | reflexivity | reflexivity].
Defined.

(** In the hoisting converter the overlay of the message wins over what
    the converter writes itself and over the overlays of the parts: on a
    prompt with safe overlays and no file part that shares no object, every
    key of it reads in every wire message of the message as the overlay has
    it; a collapsed user message reads the keys of its part's overlay
    so. *)
Theorem hoisting_overlay_wins_in_place prompt ls h :
  unshared h ls ->
  map value_of ls = encodePrompt prompt ->
  forallb safeMessage prompt = true ->
  existsb hasFilePart prompt = false ->
  exists wss h',
    Store.convertToOpenAICompatibleChatMessages (map ref_of ls) h
    = Returns (concat wss, h')
    /\ Forall2 hoistingOverlay prompt wss.
Proof.
  intros Hun Hls Hsafe Hfile.
  destruct (VariantFacts.hoisting_overlay_wins prompt Hsafe Hfile)
    as (wss & Hconv & Hwss).
  rewrite <- Hls in Hconv.
  destruct (convert_returns_in_place h ls _ Hun Hconv) as (h' & _ & Hrun & _).
  exists wss, h'. split; [exact Hrun | exact Hwss].
Qed.

Lemma hoisting_overlay_wins_in_place_witness :
  let ls := place_prompt (encodePrompt examplePrompt) in
  let h := store_of ls in
  unshared h ls
  /\ map value_of ls = encodePrompt examplePrompt
  /\ forallb safeMessage examplePrompt = true
  /\ existsb hasFilePart examplePrompt = false
  /\ exists wss h',
       Store.convertToOpenAICompatibleChatMessages (map ref_of ls) h
       = Returns (concat wss, h')
       /\ Forall2 hoistingOverlay examplePrompt wss.
Proof.
  intros ls h. split; [laid_out|]. split; [reflexivity|].
  split; [reflexivity|]. split; [reflexivity|].
  apply (hoisting_overlay_wins_in_place examplePrompt);
    [laid_out | reflexivity | reflexivity | reflexivity].
Defined.

(** *** A [providerMetadata] object that two parts share *)

(** Two text parts of a user message that hold one and the same
    [providerMetadata] object, with an overlay in it: the hoisting empties
    the object at the first part, so the overlay reaches the first content
    element only and the second keeps an empty [providerMetadata]. *)
Theorem shared_metadata_is_hoisted_once first second (cache : bool) :
  let shared := RObj 4 in
  let h :=
    [Obj [("role", RStr "user"); ("content", RObj 1)];
     Arr [RObj 2; RObj 3];
     Obj [("type", RStr "text"); ("text", RStr first);
          ("providerMetadata", shared)];
     Obj [("type", RStr "text"); ("text", RStr second);
          ("providerMetadata", shared)];
     Obj [("openaiCompatible", RObj 5)];
     Obj [("cache", RBool cache)]] in
  Store.convertToOpenAICompatibleChatMessages [RObj 0] h
  = Returns
      ([VObj [("role", VStr "user");
              ("content",
               VArr [VObj [("type", VStr "text"); ("text", VStr first);
                           ("cache", VBool cache)];
                     VObj [("type", VStr "text"); ("text", VStr second);
                           ("providerMetadata", VObj [])]])]],
       [Obj [("role", RStr "user"); ("content", RObj 1)];
        Arr [RObj 2; RObj 3];
        Obj [("type", RStr "text"); ("text", RStr first);
             ("cache", RBool cache)];
        Obj [("type", RStr "text"); ("text", RStr second);
             ("providerMetadata", shared)];
        Obj [];
        Obj [("cache", RBool cache)]]).
Proof.
  intros shared h. subst shared h.
  unfold Store.convertToOpenAICompatibleChatMessages, Store.hoistPrompt,
    Store.findAndHoistMetadata.
  cbn [List.length Nat.add foldM]. run_hoist. reflexivity.
Qed.

End InPlace.
